(** * The child side of a process launch: childproc.c

    A shallow embedding of [src/java.base/unix/native/libjava/childproc.c]
    over a small model of the process and of the kernel it talks to:
    the descriptor table, [errno], the signal mask, the working
    directory, the [environ] pointer and a ledger of the system calls
    issued.  What the kernel decides on its own (interrupted or short
    transfers, the verdict of the program loader, of [chdir], whether
    the descriptor directory can be opened) is part of the world, so
    every function below computes. *)

From Stdlib Require Import ZArith Lia Ascii String List Bool.
From stdpp Require Import base option list gmap strings.

Local Open Scope Z_scope.

(** ** Platform constants

    The values of <errno.h>, <limits.h>, <unistd.h> and <fcntl.h> on
    Linux.  Only their being pairwise distinct matters below. *)

Definition ENOENT : Z := 2.
Definition EINTR : Z := 4.
Definition EIO : Z := 5.
Definition ENOEXEC : Z := 8.
Definition EBADF : Z := 9.
Definition EACCES : Z := 13.
Definition ENODEV : Z := 19.
Definition ENOTDIR : Z := 20.
Definition EPIPE : Z := 32.
Definition ENAMETOOLONG : Z := 36.
Definition ELOOP : Z := 40.
Definition ETIMEDOUT : Z := 110.
Definition ESTALE : Z := 116.

Definition PATH_MAX : Z := 4096.

Definition STDIN_FILENO : Z := 0.
Definition STDOUT_FILENO : Z := 1.
Definition STDERR_FILENO : Z := 2.

Definition FD_CLOEXEC : Z := 1.

(** [sizeof(int)], and the bytes of an [int] in host order (x86:
    least significant byte first, two's complement). *)
Definition sizeof_int : Z := 4.

Definition int_bytes (v : Z) : list Z :=
  let u := v mod 2 ^ 32 in
  [ u mod 256; (u / 256) mod 256; (u / 65536) mod 256; (u / 16777216) mod 256 ].

(** ** The world *)

(** An entry of the descriptor table: the open file description the
    descriptor refers to (shared by duplicates) and its one descriptor
    flag. *)
Record fdent := FdEnt { fd_file : Z; fd_cloexec : bool }.

Inductive exec_prim := Execve | Execvp.

(** The ledger: one entry per call issued, in order.  A [write] entry
    carries the bytes the kernel accepted (none when the call failed),
    an exec entry the path, the argument vector as the loader reads it
    and the environment pointer in force. *)
Inductive event :=
| EvWrite (fd : Z) (data : list Z)
| EvClose (fd : Z)
| EvDup2 (fd_from fd_to : Z)
| EvChdir (dir : string)
| EvSigSetMask (set : list Z)
| EvExec (prim : exec_prim) (path : string) (args : list string) (envp : Z)
| EvExit (status : Z).

(** What the kernel answers to the next interruptible call: let it run
    in full, fail it with an [errno], or (for [read] and [write]) cut
    the transfer to at most [k] bytes. *)
Inductive kresp :=
| KOk
| KFail (e : Z)
| KShort (k : nat).

Record World := mkWorld {
  fdtab : gmap Z fdent;
  errno : Z;
  environ : Z;
  sigmask : list Z;
  cwd : string;
  parentPathv : list string;
  trace : list event;
  inbox : gmap Z (list Z);
  pending : list kresp;
  loader : exec_prim → string → option Z;
  chdir_verdict : string → option Z;
  fd_dir : bool;
  open_max : Z
}.

Definition set_fdtab (t : gmap Z fdent) (w : World) : World :=
  mkWorld t (errno w) (environ w) (sigmask w) (cwd w) (parentPathv w)
          (trace w) (inbox w) (pending w) (loader w) (chdir_verdict w)
          (fd_dir w) (open_max w).

Definition set_errno (e : Z) (w : World) : World :=
  mkWorld (fdtab w) e (environ w) (sigmask w) (cwd w) (parentPathv w)
          (trace w) (inbox w) (pending w) (loader w) (chdir_verdict w)
          (fd_dir w) (open_max w).

Definition set_environ (p : Z) (w : World) : World :=
  mkWorld (fdtab w) (errno w) p (sigmask w) (cwd w) (parentPathv w)
          (trace w) (inbox w) (pending w) (loader w) (chdir_verdict w)
          (fd_dir w) (open_max w).

Definition set_sigmask (s : list Z) (w : World) : World :=
  mkWorld (fdtab w) (errno w) (environ w) s (cwd w) (parentPathv w)
          (trace w) (inbox w) (pending w) (loader w) (chdir_verdict w)
          (fd_dir w) (open_max w).

Definition set_cwd (d : string) (w : World) : World :=
  mkWorld (fdtab w) (errno w) (environ w) (sigmask w) d (parentPathv w)
          (trace w) (inbox w) (pending w) (loader w) (chdir_verdict w)
          (fd_dir w) (open_max w).

Definition set_inbox (b : gmap Z (list Z)) (w : World) : World :=
  mkWorld (fdtab w) (errno w) (environ w) (sigmask w) (cwd w) (parentPathv w)
          (trace w) b (pending w) (loader w) (chdir_verdict w)
          (fd_dir w) (open_max w).

Definition set_pending (q : list kresp) (w : World) : World :=
  mkWorld (fdtab w) (errno w) (environ w) (sigmask w) (cwd w) (parentPathv w)
          (trace w) (inbox w) q (loader w) (chdir_verdict w)
          (fd_dir w) (open_max w).

(** Appends an entry to the ledger. *)
Definition log (ev : event) (w : World) : World :=
  mkWorld (fdtab w) (errno w) (environ w) (sigmask w) (cwd w) (parentPathv w)
          (trace w ++ [ev]) (inbox w) (pending w) (loader w) (chdir_verdict w)
          (fd_dir w) (open_max w).

(** The kernel's answer to the call at hand; an exhausted schedule
    means the call runs in full. *)
Definition kernel_says (w : World) : kresp * World :=
  match pending w with
  | [] => (KOk, w)
  | k :: q => (k, set_pending q w)
  end.

(** Everything written so far, over all descriptors, in order. *)
Fixpoint wire (t : list event) : list Z :=
  match t with
  | [] => []
  | EvWrite _ data :: t' => data ++ wire t'
  | _ :: t' => wire t'
  end.

(** The same for one descriptor. *)
Fixpoint wire_of (fd : Z) (t : list event) : list Z :=
  match t with
  | [] => []
  | EvWrite fd' data :: t' =>
      if fd' =? fd then data ++ wire_of fd t' else wire_of fd t'
  | _ :: t' => wire_of fd t'
  end.

(** The exec attempts so far: primitive and path, in order. *)
Fixpoint exec_attempts (t : list event) : list (exec_prim * string) :=
  match t with
  | [] => []
  | EvExec prim path _ _ :: t' => (prim, path) :: exec_attempts t'
  | _ :: t' => exec_attempts t'
  end.

(** ** Computations

    A call returns, or it never returns because the process image was
    replaced ([Replaced]) or the process exited ([Exited]).  [Spin]
    marks a retry loop that used up its [fuel]. *)
Inductive Result (A : Type) :=
| Ret (a : A) (w : World)
| Replaced (w : World)
| Exited (status : Z) (w : World)
| Spin (w : World).

Arguments Ret {A} a w.
Arguments Replaced {A} w.
Arguments Exited {A} status w.
Arguments Spin {A} w.

Definition M (A : Type) : Type := World → Result A.

Definition ret {A} (a : A) : M A := fun w => Ret a w.

Definition bind {A B} (m : M A) (k : A → M B) : M B := fun w =>
  match m w with
  | Ret a w' => k a w'
  | Replaced w' => Replaced w'
  | Exited s w' => Exited s w'
  | Spin w' => Spin w'
  end.

Notation "x <- m ;; k" := (bind m (fun x => k))
  (at level 100, m at next level, right associativity).
Notation "m ;;; k" := (bind m (fun _ => k))
  (at level 100, right associativity).

Definition spin {A} : M A := fun w => Spin w.
Definition get_errno : M Z := fun w => Ret (errno w) w.
Definition put_errno (e : Z) : M unit := fun w => Ret tt (set_errno e w).
Definition get_environ : M Z := fun w => Ret (environ w) w.
Definition put_environ (p : Z) : M unit := fun w => Ret tt (set_environ p w).
Definition get_parentPathv : M (list string) := fun w => Ret (parentPathv w) w.

(** The world a result ends in. *)
Definition final {A} (r : Result A) : World :=
  match r with
  | Ret _ w | Replaced w | Exited _ w | Spin w => w
  end.

(** ** System calls *)

(** [write(fd, buf, count)]: [buf] is the memory from the pointer on. *)
Definition write (fd : Z) (buf : list Z) (count : Z) : M Z := fun w =>
  let (k, w1) := kernel_says w in
  match fdtab w1 !! fd with
  | None => Ret (-1) (set_errno EBADF (log (EvWrite fd []) w1))
  | Some _ =>
      match k with
      | KFail e => Ret (-1) (set_errno e (log (EvWrite fd []) w1))
      | KOk =>
          let data := take (Z.to_nat count) buf in
          Ret (Z.of_nat (length data)) (log (EvWrite fd data) w1)
      | KShort n =>
          let data := take (n `min` Z.to_nat count)%nat buf in
          Ret (Z.of_nat (length data)) (log (EvWrite fd data) w1)
      end
  end.

(** [read(fd, buf, count)]: returns the count together with the bytes
    delivered, which the caller stores at its pointer.  No bytes left
    in the inbox of the file description is end of file. *)
Definition read (fd : Z) (count : Z) : M (Z * list Z) := fun w =>
  let (k, w1) := kernel_says w in
  match fdtab w1 !! fd with
  | None => Ret (-1, []) (set_errno EBADF w1)
  | Some e =>
      match k with
      | KFail er => Ret (-1, []) (set_errno er w1)
      | _ =>
          let avail := default [] (inbox w1 !! fd_file e) in
          let n := match k with
                   | KShort n => (n `min` Z.to_nat count)%nat
                   | _ => Z.to_nat count
                   end in
          let data := take n avail in
          Ret (Z.of_nat (length data), data)
              (set_inbox (<[fd_file e := drop n avail]> (inbox w1)) w1)
      end
  end.

(** [dup2]: the target is opened on the same file description with its
    close-on-exec flag clear; onto itself it changes nothing. *)
Definition dup2 (fd_from fd_to : Z) : M Z := fun w =>
  let (k, w1) := kernel_says w in
  let w2 := log (EvDup2 fd_from fd_to) w1 in
  match k with
  | KFail e => Ret (-1) (set_errno e w2)
  | _ =>
      match fdtab w2 !! fd_from with
      | None => Ret (-1) (set_errno EBADF w2)
      | Some e =>
          if (fd_to <? 0) || (open_max w2 <=? fd_to)
          then Ret (-1) (set_errno EBADF w2)
          else if fd_from =? fd_to then Ret fd_to w2
          else Ret fd_to
                   (set_fdtab (<[fd_to := FdEnt (fd_file e) false]> (fdtab w2)) w2)
      end
  end.

(** [close]: a descriptor that is not open is [EBADF]; an open one is
    released even when the call reports an error (as on Linux). *)
Definition close (fd : Z) : M Z := fun w =>
  let (k, w1) := kernel_says w in
  let w2 := log (EvClose fd) w1 in
  match fdtab w2 !! fd with
  | None => Ret (-1) (set_errno EBADF w2)
  | Some _ =>
      let w3 := set_fdtab (delete fd (fdtab w2)) w2 in
      match k with
      | KFail e => Ret (-1) (set_errno e w3)
      | _ => Ret 0 w3
      end
  end.

(** [fcntl(fd, F_GETFD)] and [fcntl(fd, F_SETFD, flags)]: they fail
    only on a descriptor that is not open. *)
Definition fcntl_GETFD (fd : Z) : M Z := fun w =>
  match fdtab w !! fd with
  | None => Ret (-1) (set_errno EBADF w)
  | Some e => Ret (if fd_cloexec e then FD_CLOEXEC else 0) w
  end.

Definition fcntl_SETFD (fd : Z) (flags : Z) : M Z := fun w =>
  match fdtab w !! fd with
  | None => Ret (-1) (set_errno EBADF w)
  | Some e =>
      Ret 0 (set_fdtab
               (<[fd := FdEnt (fd_file e) (negb (Z.land flags FD_CLOEXEC =? 0))]>
                  (fdtab w)) w)
  end.

Definition chdir (dir : string) : M Z := fun w =>
  let w1 := log (EvChdir dir) w in
  match chdir_verdict w1 dir with
  | Some e => Ret (-1) (set_errno e w1)
  | None => Ret 0 (set_cwd dir w1)
  end.

(** [sigprocmask(SIG_SETMASK, set, NULL)] *)
Definition sigprocmask_SETMASK (set : list Z) : M Z := fun w =>
  Ret 0 (set_sigmask set (log (EvSigSetMask set) w)).

Definition sysconf_OPEN_MAX : M Z := fun w => Ret (open_max w) w.

(** A NULL-terminated vector in memory: the slots of the array, [None]
    for NULL.  The loader reads it up to the first NULL. *)
Definition vec := list (option string).

Fixpoint cvector (v : vec) : list string :=
  match v with
  | Some s :: v' => s :: cvector v'
  | _ => []
  end.

(** What survives an exec: the descriptors without close-on-exec. *)
Definition inherited (t : gmap Z fdent) : gmap Z fdent :=
  filter (fun kv => fd_cloexec kv.2 = false) t.

Definition exec_call (prim : exec_prim) (path : string) (argv : vec)
    (envp : Z) : M Z := fun w =>
  let w1 := log (EvExec prim path (cvector argv) envp) w in
  match loader w1 prim path with
  | None => Replaced (set_fdtab (inherited (fdtab w1)) w1)
  | Some e => Ret (-1) (set_errno e w1)
  end.

Definition execve (path : string) (argv : vec) (envp : Z) : M Z :=
  exec_call Execve path argv envp.

(** [execvp] runs with the environment [environ] points to. *)
Definition execvp (file : string) (argv : vec) : M Z :=
  env <- get_environ ;; exec_call Execvp file argv env.

Definition _exit (status : Z) : M Z := fun w =>
  Exited status (log (EvExit status) w).

(** ** Strings and arrays of the C library *)

Definition isAsciiDigit (c : ascii) : bool :=
  (N_of_ascii "0" <=? N_of_ascii c)%N && (N_of_ascii c <=? N_of_ascii "9")%N.

(** [strtol(s, NULL, 10)] on a string that starts with a digit (the
    only way the program calls it): the value of the leading run of
    digits. *)
Fixpoint strtol_from (acc : Z) (s : string) : Z :=
  match s with
  | String c s' =>
      if isAsciiDigit c
      then strtol_from (10 * acc + (Z.of_N (N_of_ascii c) - 48)) s'
      else acc
  | EmptyString => acc
  end.

Definition strtol (s : string) : Z := strtol_from 0 s.

Definition strlen (s : string) : Z := Z.of_nat (String.length s).

(** [strchr(s, c) != NULL] *)
Fixpoint strchr (s : string) (c : ascii) : bool :=
  match s with
  | String c' s' => if Ascii.eqb c' c then true else strchr s' c
  | EmptyString => false
  end.

Fixpoint last_char (s : string) : option ascii :=
  match s with
  | EmptyString => None
  | String c EmptyString => Some c
  | String _ s' => last_char s'
  end.

(** [memmove(a + dst, a + src, n * sizeof( *a))] inside the array [a]. *)
Definition memmove {A} (a : list A) (dst src n : nat) : list A :=
  let chunk := take n (drop src a) in
  take dst a ++ chunk ++ drop (dst + length chunk)%nat a.

(** [end - argv] after [while ( *end != NULL) ++end]. *)
Fixpoint vec_end (v : vec) : nat :=
  match v with
  | Some _ :: v' => S (vec_end v')
  | _ => O
  end.

(** The name the kernel lists an open descriptor under in the
    descriptor directory: its number in decimal. *)
Definition digit_char (d : Z) : ascii := ascii_of_N (Z.to_N (48 + d)).

Fixpoint decimal_from (fuel : nat) (n : Z) (acc : string) : string :=
  let acc' := String (digit_char (n mod 10)) acc in
  match fuel with
  | O => acc'
  | S f => if n <? 10 then acc' else decimal_from f (n / 10) acc'
  end.

Definition fd_name (fd : Z) : string := decimal_from (Z.to_nat fd) fd EmptyString.

(** [opendir(FD_DIR)] followed by [readdir] until NULL: the entries of
    the descriptor directory, or NULL with [errno] set when it cannot
    be opened.  The stream's own descriptor is released by [closedir]
    before [markDescriptorsCloseOnExec] returns and is left out. *)
Definition opendir_FD_DIR : M (option (list string)) := fun w =>
  if fd_dir w
  then Ret (Some ("."%string :: ".."%string
                    :: ((fun kv => fd_name kv.1) <$> map_to_list (fdtab w)))) w
  else Ret None (set_errno ENOENT w).

(** ** The launch descriptor *)

(** Modelled from the spec: [ChildStuff] is declared in childproc.h,
    which is not part of the sources at hand; these are the fields
    [childProcess] reads, the two ends of each pipe as separate
    fields.  [pdir] is [None] for NULL, [envv] is the address of the
    environment vector (0 for NULL). *)
Record ChildStuff := mkChildStuff {
  in0 : Z; in1 : Z;
  out0 : Z; out1 : Z;
  err0 : Z; err1 : Z;
  fail0 : Z; fail1 : Z;
  childenv0 : Z; childenv1 : Z;
  fds0 : Z; fds1 : Z; fds2 : Z;
  mode : Z;
  argv : vec;
  envv : Z;
  pdir : option string;
  redirectErrorStream : bool;
  sendAlivePing : bool
}.

(** ** Sample launches

    Concrete worlds and launch descriptors, used further down to run
    the program on. *)

Definition plain (file : Z) : fdent := FdEnt file false.

(** Descriptors 0-2, four pipes (3/4, 5/6, 7/8, 9/10) and a stray file. *)
Definition sample_table : gmap Z fdent :=
  list_to_map
    [(0, plain 100); (1, plain 101); (2, plain 102);
     (3, plain 103); (4, plain 103); (5, plain 105); (6, plain 105);
     (7, plain 107); (8, plain 107); (9, plain 109); (10, plain 109);
     (15, plain 200)].

(** A loader that knows which paths hold a program. *)
Definition sample_loader (present : list string) (denied : list string)
    (scripts : list string) (_ : exec_prim) (path : string) : option Z :=
  if bool_decide (path ∈ present) then None
  else if bool_decide (path ∈ denied) then Some EACCES
  else if bool_decide (path ∈ scripts) then Some ENOEXEC
  else Some ENOENT.

Definition sample_world (path : list string)
    (ld : exec_prim → string → option Z) (sched : list kresp) : World :=
  mkWorld sample_table 0 7777 [2; 15] "/" path [] ∅ sched ld
          (fun _ => None) true 1024.

Definition sample_stuff (md : Z) (args : vec) (ping : bool) : ChildStuff :=
  mkChildStuff 3 4 5 6 7 8 9 10 (-1) (-1) (-1) (-1) (-1) md args 8888
               (Some "/tmp"%string) false ping.


(** The same world with every directory refused with [e]. *)
Definition locked_world (ld : exec_prim → string → option Z) (e : Z) : World :=
  mkWorld sample_table 0 7777 [2; 15] "/" [] [] ∅ [] ld
          (fun _ => Some e) true 1024.


(** A launch with no pipes but the failure channel, which the parent
    put at descriptor 3, and the standard streams handed in in place;
    and a world for it with the descriptor limit lowered to 3 and no
    descriptor directory. *)
Definition bare_stuff (args : vec) : ChildStuff :=
  mkChildStuff (-1) (-1) (-1) (-1) (-1) (-1) (-1) 3 (-1) (-1) 0 1 2 1 args 8888
               None false false.

Definition bare_world (ld : exec_prim → string → option Z) : World :=
  mkWorld (list_to_map [(0, plain 100); (1, plain 101); (2, plain 102);
                        (3, plain 109)])
          0 7777 [] "/" ["/a"%string] [] ∅ [] ld (fun _ => None) false 3.
(** ** The program *)

Section Childproc.

(** The constants of childproc.h, whose values the sources at hand do
    not give. *)
Variables (MODE_VFORK FAIL_FILENO CHILD_IS_ALIVE : Z).

(** Modelled from the spec: [RESTARTABLE(cmd, result)] (childproc.h)
    repeats [cmd] while it returns -1 with [errno == EINTR]. *)
Fixpoint RESTARTABLE (fuel : nat) (cmd : M Z) : M Z :=
  match fuel with
  | O => spin
  | S f =>
      r <- cmd ;;
      e <- get_errno ;;
      if (r =? -1) && (e =? EINTR) then RESTARTABLE f cmd else ret r
  end.

Definition restartableDup2 (fuel : nat) (fd_from fd_to : Z) : M Z :=
  RESTARTABLE fuel (dup2 fd_from fd_to).

Definition closeSafely (fd : Z) : M Z :=
  if fd =? -1 then ret 0 else close fd.

Definition markCloseOnExec (fd : Z) : M Z :=
  flags <- fcntl_GETFD fd ;;
  if flags <? 0 then ret (-1)
  else if Z.land flags FD_CLOEXEC =? 0 then
    r <- fcntl_SETFD fd (Z.lor flags FD_CLOEXEC) ;;
    if r <? 0 then ret (-1) else ret 0
  else ret 0.

(** The [readdir] loop of [markDescriptorsCloseOnExec] over the entries
    still to come; [fd_from] is [STDERR_FILENO + 1]. *)
Fixpoint mark_entries (entries : list string) : M Z :=
  match entries with
  | [] => ret 0
  | d_name :: rest =>
      let fd := strtol d_name in
      if match d_name with
         | String c _ => isAsciiDigit c
         | EmptyString => false
         end && (STDERR_FILENO + 1 <=? fd)
      then
        r <- markCloseOnExec fd ;;
        if r =? -1 then ret (-1) else mark_entries rest
      else mark_entries rest
  end.

Definition markDescriptorsCloseOnExec : M Z :=
  dp <- opendir_FD_DIR ;;
  match dp with
  | None => ret (-1)
  | Some entries => mark_entries entries
  end.

Definition moveDescriptor (fuel : nat) (fd_from fd_to : Z) : M Z :=
  if negb (fd_from =? fd_to) then
    r <- restartableDup2 fuel fd_from fd_to ;;
    if r =? -1 then ret (-1)
    else
      c <- close fd_from ;;
      if c =? -1 then ret (-1) else ret 0
  else ret 0.

Definition magicNumber : Z := 43110.

(** [initVectorFromBlock]: [block] is the memory at the block pointer,
    a pointer into it is its offset, and [vector] is the caller's array
    of pointers ([None] for NULL).  The C function is undefined when it
    reads outside the block or stores outside the array; the model
    answers [None] there. *)

(** [while ( *(p++));] on the memory [mem] found at [p]: the pointer
    just past the first NUL. *)
Fixpoint skip_string (mem : list ascii) (p : nat) : option nat :=
  match mem with
  | [] => None
  | c :: mem' =>
      if Ascii.eqb c zero then Some (S p) else skip_string mem' (S p)
  end.

(** The [for] loop with [n] rounds to go, then [vector[count] = NULL]. *)
Fixpoint initVector_loop (n : nat) (vector : list (option nat))
    (block : list ascii) (i p : nat) : option (list (option nat)) :=
  match n with
  | O =>
      if decide (i < length vector)%nat then Some (<[i := None]> vector)
      else None
  | S n' =>
      if decide (i < length vector)%nat then
        match skip_string (drop p block) p with
        | Some p' => initVector_loop n' (<[i := Some p]> vector) block (S i) p'
        | None => None
        end
      else None
  end.

Definition initVectorFromBlock (vector : list (option nat))
    (block : list ascii) (count : Z) : option (list (option nat)) :=
  if count <? 0 then None
  else initVector_loop (Z.to_nat count) vector block 0 0.

(** Stores the bytes a [read] delivered at offset [off] of the buffer. *)
Definition store (buf : list Z) (off : nat) (data : list Z) : list Z :=
  take off buf ++ data ++ drop (off + length data)%nat buf.

(** [readFully]: the buffer is threaded through, the advancing pointer
    is the offset [off].  Returns the count and the buffer. *)
Fixpoint readFully_loop (fuel : nat) (fd : Z) (buf : list Z) (off : nat)
    (nbyte remaining : Z) : M (Z * list Z) :=
  match fuel with
  | O => spin
  | S f =>
      r <- read fd remaining ;;
      let n := r.1 in
      if n =? 0 then ret (nbyte - remaining, buf)
      else if 0 <? n then
        let buf' := store buf off r.2 in
        let remaining' := remaining - n in
        if remaining' <=? 0 then ret (nbyte, buf')
        else readFully_loop f fd buf' (off + Z.to_nat n)%nat nbyte remaining'
      else
        e <- get_errno ;;
        if e =? EINTR then readFully_loop f fd buf off nbyte remaining
        else ret (-1, buf)
  end.

Definition readFully (fuel : nat) (fd : Z) (buf : list Z) (nbyte : Z)
    : M (Z * list Z) :=
  readFully_loop fuel fd buf 0 nbyte nbyte.

(** [writeFully] (the production build: the DEBUG block is compiled
    out); [buf] is the memory from the advancing pointer on. *)
Fixpoint writeFully_loop (fuel : nat) (fd : Z) (buf : list Z)
    (nbyte remaining : Z) : M Z :=
  match fuel with
  | O => spin
  | S f =>
      n <- write fd buf remaining ;;
      if 0 <? n then
        let remaining' := remaining - n in
        if remaining' <=? 0 then ret nbyte
        else writeFully_loop f fd (drop (Z.to_nat n) buf) nbyte remaining'
      else
        e <- get_errno ;;
        if (n =? -1) && (e =? EINTR) then writeFully_loop f fd buf nbyte remaining
        else ret (-1)
  end.

Definition writeFully (fuel : nat) (fd : Z) (buf : list Z) (nbyte : Z) : M Z :=
  writeFully_loop fuel fd buf nbyte nbyte.

(** The vector is passed in and handed back: the function rewrites the
    caller's array in place. *)
Definition execve_as_traditional_shell_script (file : string) (argv : vec)
    (envp : Z) : M vec :=
  let argv0 := default None (argv !! 0%nat) in
  let n := vec_end argv in
  let argv := memmove argv 2 1 n in
  let argv := <[0%nat := Some "/bin/sh"%string]> argv in
  let argv := <[1%nat := Some file]> argv in
  execve "/bin/sh" argv envp ;;;
  let argv := memmove argv 1 2 n in
  ret (<[0%nat := argv0]> argv).

Definition execve_with_shell_fallback (mode : Z) (file : string) (argv : vec)
    (envp : Z) : M vec :=
  if mode =? MODE_VFORK then
    execve file argv envp ;;;
    e <- get_errno ;;
    if e =? ENOEXEC then execve_as_traditional_shell_script file argv envp
    else ret argv
  else
    put_environ envp ;;;
    execvp file argv ;;;
    ret argv.

(** The candidate [expanded_file] built from a PATH entry.  For an
    empty [dir] the C code reads the byte before the buffer; the model
    takes the branch that appends the separator. *)
Definition expanded_file (dir file : string) : string :=
  match last_char dir with
  | Some "/"%char => dir +:+ file
  | _ => dir +:+ "/" +:+ file
  end.

(** The [switch (errno)] of the search: the cases that [break]. *)
Definition try_other_directories (e : Z) : bool :=
  (e =? EACCES) || (e =? ENOENT) || (e =? ENOTDIR) || (e =? ELOOP)
  || (e =? ESTALE) || (e =? ENODEV) || (e =? ETIMEDOUT).

(** The [for] loop of [JDK_execvpe] over the entries [dirs] still to
    visit, with the current [sticky_errno]. *)
Fixpoint path_search (mode : Z) (file : string) (argv : vec) (envp : Z)
    (dirs : list string) (sticky_errno : Z) : M vec :=
  match dirs with
  | [] =>
      (if negb (sticky_errno =? 0) then put_errno sticky_errno else ret tt) ;;;
      ret argv
  | dir :: rest =>
      let filelen := strlen file in
      let dirlen := strlen dir in
      if PATH_MAX <=? filelen + dirlen + 2 then
        put_errno ENAMETOOLONG ;;;
        path_search mode file argv envp rest sticky_errno
      else
        argv <- execve_with_shell_fallback mode (expanded_file dir file) argv envp ;;
        e <- get_errno ;;
        if try_other_directories e then
          path_search mode file argv envp rest
                      (if e =? EACCES then e else sticky_errno)
        else ret argv
  end.

Definition JDK_execvpe (mode : Z) (file : string) (argv : vec) (envp : Z)
    : M vec :=
  env <- get_environ ;;
  if (envp =? 0) || (envp =? env) then
    execvp file argv ;;;
    ret argv
  else if String.eqb file EmptyString then
    put_errno ENOENT ;;;
    ret argv
  else if strchr file "/" then
    execve_with_shell_fallback mode file argv envp
  else
    dirs <- get_parentPathv ;;
    path_search mode file argv envp dirs 0.

(** The C short-circuit [a == -1 || b == -1] over calls. *)
Definition or_failed (a b : M bool) : M bool :=
  x <- a ;; if x : bool then ret true else b.

Definition failed (m : M Z) : M bool :=
  r <- m ;; ret (r =? -1).

(** The tail of [childProcess] at the label [WhyCantJohnnyExec]. *)
Definition WhyCantJohnnyExec (fuel : nat) (fail_pipe_fd : Z) : M Z :=
  errnum <- get_errno ;;
  writeFully fuel fail_pipe_fd (int_bytes errnum) sizeof_int ;;;
  close fail_pipe_fd ;;;
  _exit (-1) ;;;
  ret 0.

(** Lines 362-369: the alive ping; [true] when control goes to the label. *)
Definition alive_ping (fuel : nat) (p : ChildStuff) : M bool :=
  if sendAlivePing p then
    r <- writeFully fuel (fail1 p) (int_bytes CHILD_IS_ALIVE) sizeof_int ;;
    ret (negb (r =? sizeof_int))
  else ret false.

(** Lines 377-383: the parent sides of the pipes. *)
Definition close_parent_sides (p : ChildStuff) : M bool :=
  or_failed (failed (closeSafely (in1 p)))
  (or_failed (failed (closeSafely (out0 p)))
  (or_failed (failed (closeSafely (err0 p)))
  (or_failed (failed (closeSafely (childenv0 p)))
  (or_failed (failed (closeSafely (childenv1 p)))
             (failed (closeSafely (fail0 p))))))).

(** Lines 387-404: the child sides get their numbers. *)
Definition move_child_sides (fuel : nat) (p : ChildStuff) : M bool :=
  x <- or_failed
         (failed (moveDescriptor fuel (if negb (in0 p =? -1) then in0 p else fds0 p)
                                 STDIN_FILENO))
         (failed (moveDescriptor fuel (if negb (out1 p =? -1) then out1 p else fds1 p)
                                 STDOUT_FILENO)) ;;
  if x : bool then ret true
  else
    y <- (if redirectErrorStream p then
            or_failed (failed (closeSafely (err1 p)))
                      (failed (restartableDup2 fuel STDOUT_FILENO STDERR_FILENO))
          else
            failed (moveDescriptor fuel
                      (if negb (err1 p =? -1) then err1 p else fds2 p)
                      STDERR_FILENO)) ;;
    if y : bool then ret true
    else failed (moveDescriptor fuel (fail1 p) FAIL_FILENO).

(** Lines 413-415: the linear scan, [n] descriptors from [fd] on. *)
Fixpoint scan_descriptors (n : nat) (fd : Z) : M bool :=
  match n with
  | O => ret false
  | S n' =>
      r <- markCloseOnExec fd ;;
      e <- get_errno ;;
      if (r =? -1) && negb (e =? EBADF) then ret true
      else scan_descriptors n' (fd + 1)
  end.

(** Lines 410-416: "close everything". *)
Definition close_everything : M bool :=
  r <- markDescriptorsCloseOnExec ;;
  if r =? -1 then
    max_fd <- sysconf_OPEN_MAX ;;
    scan_descriptors (Z.to_nat (max_fd - (STDERR_FILENO + 1))) (STDERR_FILENO + 1)
  else ret false.

(** Lines 419-427: working directory and signal mask. *)
Definition change_directory (p : ChildStuff) : M bool :=
  match pdir p with
  | Some dir => r <- chdir dir ;; ret (r <? 0)
  | None => ret false
  end.

Definition reset_signal_mask (p : ChildStuff) : M unit :=
  if negb (mode p =? MODE_VFORK) then
    sigprocmask_SETMASK [] ;;;
    ret tt
  else ret tt.

(** [p->argv[0]], the program to run. *)
Definition argv_0 (p : ChildStuff) : string :=
  match argv p with
  | Some s :: _ => s
  | _ => EmptyString
  end.

(** [childProcess] (the production build: the DEBUG call to
    [jtregSimulateCrash] is compiled out).  Each stage answers whether
    control jumps to the label [WhyCantJohnnyExec]; [fail_pipe_fd] is
    [p->fail[1]] until the descriptors are moved and [FAIL_FILENO]
    from then on.  The function returns only through [_exit] or not at
    all, when an exec replaces the image. *)
Definition childProcess (fuel : nat) (p : ChildStuff) : M Z :=
  let fail_pipe_fd := fail1 p in
  x <- alive_ping fuel p ;;
  if x : bool then WhyCantJohnnyExec fuel fail_pipe_fd else
  x <- close_parent_sides p ;;
  if x : bool then WhyCantJohnnyExec fuel fail_pipe_fd else
  x <- move_child_sides fuel p ;;
  if x : bool then WhyCantJohnnyExec fuel fail_pipe_fd else
  let fail_pipe_fd := FAIL_FILENO in
  x <- close_everything ;;
  if x : bool then WhyCantJohnnyExec fuel fail_pipe_fd else
  x <- change_directory p ;;
  if x : bool then WhyCantJohnnyExec fuel fail_pipe_fd else
  reset_signal_mask p ;;;
  JDK_execvpe (mode p) (argv_0 p) (argv p) (envv p) ;;;
  WhyCantJohnnyExec fuel fail_pipe_fd.

(** * Notions the properties are stated with *)

(** ** Descriptors and resolution *)

(** The parent sides [childProcess] closes first, in the order it
    closes them. *)
Definition leftover_pipe_ends (p : ChildStuff) : list Z :=
  [in1 p; out0 p; err0 p; childenv0 p; childenv1 p; fail0 p].

(** The chain [a == -1 || b == -1 || ...] of [closeSafely] calls over a
    list of descriptors. *)
Fixpoint close_chain (l : list Z) : M bool :=
  match l with
  | [] => ret false
  | [fd] => failed (closeSafely fd)
  | fd :: l' => or_failed (failed (closeSafely fd)) (close_chain l')
  end.

(** The primitive [execve_with_shell_fallback] hands a path to, by mode. *)
Definition prim_of (mode : Z) : exec_prim :=
  if mode =? MODE_VFORK then Execve else Execvp.

(** The guard [filelen + dirlen + 2 >= PATH_MAX]. *)
Definition too_long (file dir : string) : bool :=
  PATH_MAX <=? strlen file + strlen dir + 2.

(** The world right after the exec call of an attempt was issued. *)
Definition attempted (mode : Z) (path : string) (argv : vec) (envp : Z)
    (w : World) : World :=
  log (EvExec (prim_of mode) path (cvector argv) envp)
      (if mode =? MODE_VFORK then w else set_environ envp w).

(** ** Transfers *)

(** A schedule under which a transfer completes: the kernel lets the
    call run, interrupts it, or moves at least one byte. *)
Definition interrupts_or_progresses (k : kresp) : Prop :=
  k = KOk ∨ k = KFail EINTR ∨ ∃ n, k = KShort (S n).

(** The calls [readFully] still needs beyond the scheduled ones: one
    more when the stream has bytes left, to see its end. *)
Definition eof_probe (avail : list Z) : nat :=
  if decide (avail = []) then 0%nat else 1%nat.

(** The bytes of the alive ping. *)
Definition ping (p : ChildStuff) : list Z :=
  if sendAlivePing p then int_bytes CHILD_IS_ALIVE else [].

(** ** The descriptor table *)

(** The descriptors lie inside the process's descriptor table. *)
Definition table_ok (w : World) : Prop :=
  ∀ fd e, fdtab w !! fd = Some e → 0 ≤ fd < open_max w.

(** No descriptor number is negative. *)
Definition table_nonneg (w : World) : Prop :=
  ∀ fd e, fdtab w !! fd = Some e → 0 ≤ fd.

(** The marking gets to the descriptor [fd]: the descriptor directory
    can be listed, or [fd] lies below the limit at which the linear
    scan stops. *)
Definition reached (w : World) (fd : Z) : Prop :=
  (fd_dir w = true ∧ table_nonneg w) ∨ fd < open_max w.

(** Every open descriptor from [STDERR_FILENO + 1] on is close-on-exec. *)
Definition quarantined (t : gmap Z fdent) : Prop :=
  ∀ fd e, t !! fd = Some e → STDERR_FILENO + 1 ≤ fd → fd_cloexec e = true.

(** [t'] is [t] with close-on-exec flags added from [STDERR_FILENO + 1]
    on: the same descriptors, open on the same files. *)
Definition marked_from (t t' : gmap Z fdent) : Prop :=
  ∀ fd,
    match t !! fd, t' !! fd with
    | Some e, Some e' =>
        fd_file e' = fd_file e
        ∧ (fd_cloexec e = true → fd_cloexec e' = true)
        ∧ (fd < STDERR_FILENO + 1 → e' = e)
    | None, None => True
    | _, _ => False
    end.

(** A directory entry the [readdir] loop takes for a descriptor. *)
Definition names_descriptor (d_name : string) : bool :=
  match d_name with
  | String c _ => isAsciiDigit c
  | EmptyString => false
  end && (STDERR_FILENO + 1 <=? strtol d_name).

(** ** Computations *)

(** [m] relates every world to the world it ends in, whatever the
    outcome. *)
Definition preserves {A} (R : relation World) (m : M A) : Prop :=
  ∀ w, R w (final (m w)).

(** An observation of the world that is left as it was. *)
Definition kept {X} (obs : World → X) : relation World :=
  fun w w' => obs w' = obs w.

Definition pending_le : relation World :=
  fun w w' => (length (pending w') ≤ length (pending w))%nat.

(** With more fuel than the kernel has answers scheduled, [m] returns,
    and the schedule has not grown. *)
Definition returning {A} (fuel : nat) (m : M A) : Prop :=
  ∀ w, (length (pending w) < fuel)%nat →
       ∃ a w', m w = Ret a w' ∧ pending_le w w'.

(** [m] returns or replaces the process image; it neither exits nor
    spins. *)
Definition execish {A} (m : M A) : Prop :=
  ∀ w, match m w with Ret _ _ | Replaced _ => True | _ => False end.

(** [m] never replaces the process image. *)
Definition no_image {A} (m : M A) : Prop :=
  ∀ w, match m w with Replaced _ => False | _ => True end.

(** [m] leaves the table alone until an exec replaces the image, which
    then holds the descriptors that are not close-on-exec. *)
Definition hands_over {A} (m : M A) : Prop :=
  ∀ w, match m w with
       | Ret _ w' => fdtab w' = fdtab w
       | Replaced w' => fdtab w' = inherited (fdtab w)
       | _ => True
       end.

(** The table stays inside the descriptor limit. *)
Definition within_limit : relation World :=
  fun w w' => open_max w' = open_max w ∧ (table_ok w → table_ok w').

(** The descriptor limit and the descriptor directory are as they
    were, and no negative descriptor number has come up. *)
Definition orderly : relation World :=
  fun w w' => open_max w' = open_max w ∧ fd_dir w' = fd_dir w
              ∧ (table_nonneg w → table_nonneg w').

(** Nothing but [writeFully] writes. *)
Definition silent : relation World := kept (fun w => wire (trace w)).

(** Nothing but [sigprocmask] touches the signal mask. *)
Definition mask_kept : relation World := kept sigmask.

(** Nothing but an exec call adds an exec attempt. *)
Definition no_exec : relation World := kept (fun w => exec_attempts (trace w)).

(** ** Outcomes of a launch *)

(** The process image was replaced; all that ever went out on the
    failure channel is the alive ping, when one was asked for; and
    the child's descriptors for the channel are closed in the new
    image, so that the parent reads the end of the channel next:
    [fail[1]] was moved away, and FAIL_FILENO, a descriptor beyond the
    standard ones, was marked close-on-exec (it can escape the marking
    only where the channel sat there from the start, out of the
    marking's reach). *)
Definition launches (p : ChildStuff) (w : World) (r : Result Z) : Prop :=
  ∃ w', r = Replaced w'
    ∧ wire (trace w') = wire (trace w) ++ ping p
    ∧ (fail1 p ≠ FAIL_FILENO → fdtab w' !! fail1 p = None)
    ∧ (STDERR_FILENO < FAIL_FILENO →
       fail1 p ≠ FAIL_FILENO ∨ reached w FAIL_FILENO →
       fdtab w' !! FAIL_FILENO = None).

(** [detected fuel p w fd w1]: the run of [childProcess] from [w]
    jumps to the label [WhyCantJohnnyExec] in the world [w1] with
    [fail_pipe_fd = fd].  The steps that can fail, in their order; the
    descriptor is [fail[1]] while the descriptors are being prepared
    and FAIL_FILENO once the channel has been moved. *)
Inductive detected (fuel : nat) (p : ChildStuff) (w : World)
    : Z → World → Prop :=
  | at_alive_ping w1 :
      alive_ping fuel p w = Ret true w1 →
      detected fuel p w (fail1 p) w1
  | at_close_parent_sides wa w1 :
      alive_ping fuel p w = Ret false wa →
      close_parent_sides p wa = Ret true w1 →
      detected fuel p w (fail1 p) w1
  | at_move_child_sides wa wb w1 :
      alive_ping fuel p w = Ret false wa →
      close_parent_sides p wa = Ret false wb →
      move_child_sides fuel p wb = Ret true w1 →
      detected fuel p w (fail1 p) w1
  | at_close_everything wa wb wc w1 :
      alive_ping fuel p w = Ret false wa →
      close_parent_sides p wa = Ret false wb →
      move_child_sides fuel p wb = Ret false wc →
      close_everything wc = Ret true w1 →
      detected fuel p w FAIL_FILENO w1
  | at_change_directory wa wb wc wd w1 :
      alive_ping fuel p w = Ret false wa →
      close_parent_sides p wa = Ret false wb →
      move_child_sides fuel p wb = Ret false wc →
      close_everything wc = Ret false wd →
      change_directory p wd = Ret true w1 →
      detected fuel p w FAIL_FILENO w1
  | at_exec wa wb wc wd we wf argv' w1 :
      alive_ping fuel p w = Ret false wa →
      close_parent_sides p wa = Ret false wb →
      move_child_sides fuel p wb = Ret false wc →
      close_everything wc = Ret false wd →
      change_directory p wd = Ret false we →
      reset_signal_mask p we = Ret tt wf →
      JDK_execvpe (mode p) (argv_0 p) (argv p) (envv p) wf = Ret argv' w1 →
      detected fuel p w FAIL_FILENO w1.

(** A failure was detected, in a world [w1] and with [fd] for the
    channel, and the failure tail ran from there.  By then a prefix
    [A] of the ping is out, all of it unless the ping itself is what
    failed.  The tail hands the captured [errno] to [writeFully], once:
    the integer goes out whole, or [writeFully] fails (returns -1)
    having written a prefix [E] of it; it does not fail when the
    descriptor is open and the kernel takes the write.  Whatever
    [writeFully] returned, the next two calls, the last, close the
    channel and exit with -1. *)
Definition reports_failure (fuel : nat) (p : ChildStuff) (w : World)
    (r : Result Z) : Prop :=
  ∃ fd w1 n w2 w' A E,
    detected fuel p w fd w1
    ∧ r = WhyCantJohnnyExec fuel fd w1
    ∧ wire (trace w1) = wire (trace w) ++ A
    ∧ A `prefix_of` ping p
    ∧ (∀ wa, alive_ping fuel p w = Ret false wa → A = ping p)
    ∧ writeFully fuel fd (int_bytes (errno w1)) sizeof_int w1 = Ret n w2
    ∧ wire (trace w2) = wire (trace w1) ++ E
    ∧ E `prefix_of` int_bytes (errno w1)
    ∧ (n = sizeof_int ∧ E = int_bytes (errno w1) ∨ n = -1)
    ∧ (is_Some (fdtab w1 !! fd) →
       Forall interrupts_or_progresses (pending w1) →
       n = sizeof_int)
    ∧ r = Exited (-1) w'
    ∧ trace w' = trace w2 ++ [EvClose fd; EvExit (-1)]
    ∧ fdtab w' !! fd = None.

(** ** Blocks of strings *)

(** The C string found at the start of [mem]: the characters before
    the first NUL; none when there is no NUL. *)
Fixpoint c_string (mem : list ascii) : option string :=
  match mem with
  | [] => None
  | c :: mem' =>
      if Ascii.eqb c zero then Some EmptyString
      else String c <$> c_string mem'
  end.

(** The C string a pointer into [block] addresses. *)
Definition string_at (block : list ascii) (p : nat) : option string :=
  c_string (drop p block).

(** A vector of pointers into [block], read as a vector of strings. *)
Definition vec_of (block : list ascii) (v : list (option nat)) : vec :=
  (fun op => op ≫= string_at block) <$> v.

(** Strings laid out one after the other, each with its NUL. *)
Fixpoint block_of (strs : list string) : list ascii :=
  match strs with
  | [] => []
  | s :: strs' => list_ascii_of_string s ++ zero :: block_of strs'
  end.

(** The offsets at which the strings of [block_of strs] start, from
    [p] on. *)
Fixpoint starts_from (p : nat) (strs : list string) : list nat :=
  match strs with
  | [] => []
  | s :: strs' => p :: starts_from (p + S (String.length s)) strs'
  end.

(** The NUL bytes of a block. *)
Definition nuls (block : list ascii) : nat :=
  length (filter (fun c => c = zero) block).

(** ** Exec attempts *)

(** The exec attempts so far, each by its primitive and the environment
    it was made with. *)
Fixpoint exec_kinds (t : list event) : list (exec_prim * Z) :=
  match t with
  | [] => []
  | EvExec prim _ _ envp :: t' => (prim, envp) :: exec_kinds t'
  | _ :: t' => exec_kinds t'
  end.

(** All the exec attempts made from [w] to [w'] are of the kind [k]. *)
Definition execs_of (k : exec_prim * Z) : relation World :=
  fun w w' => ∃ n, exec_kinds (trace w') = exec_kinds (trace w) ++ replicate n k.

(** The kind of exec [JDK_execvpe] goes for: [execvp] under the
    inherited environment, or the primitive of the mode under the
    environment handed in. *)
Definition exec_kind (mode envp : Z) (w : World) : exec_prim * Z :=
  if (envp =? 0) || (envp =? environ w) then (Execvp, environ w)
  else (prim_of mode, envp).

(** ** The standard descriptors of the child *)

(** The descriptor a standard stream of the child comes from: the
    child's end of the pipe, or the descriptor handed in [fds] when
    there is no pipe. *)
Definition stdin_source (p : ChildStuff) : Z :=
  if negb (in0 p =? -1) then in0 p else fds0 p.

Definition stdout_source (p : ChildStuff) : Z :=
  if negb (out1 p =? -1) then out1 p else fds1 p.

Definition stderr_source (p : ChildStuff) : Z :=
  if negb (err1 p =? -1) then err1 p else fds2 p.

(** The entry found at [tgt] once the descriptor [src], with entry
    [e], has been moved there: a duplicate on the same file with
    close-on-exec clear, or [e] itself when it was there already. *)
Definition landed (src tgt : Z) (e : fdent) : fdent :=
  if src =? tgt then e else FdEnt (fd_file e) false.

(** What an exec leaves of an entry. *)
Definition survives (e : fdent) : option fdent :=
  if fd_cloexec e then None else Some e.

(** ** Launches set up as the parent should *)

(** The descriptor that makes way for descriptor 2: the child's end of
    the stderr pipe, closed under [redirectErrorStream] and moved
    otherwise. *)
Definition third_source (p : ChildStuff) : Z :=
  if redirectErrorStream p then err1 p else stderr_source p.

(** The descriptors the launch descriptor names are open and distinct;
    the parent sides and the failure channel lie beyond the standard
    descriptors, a source of a standard stream is that descriptor
    itself or lies beyond them; FAIL_FILENO is a descriptor number
    beyond the standard ones. *)
Record well_formed (p : ChildStuff) (w : World) : Prop := {
  wf_table : table_ok w;
  wf_fail_fileno : 2 < FAIL_FILENO < open_max w;
  wf_parent_sides :
    ∀ fd, fd ∈ leftover_pipe_ends p →
          fd = -1 ∨ (2 < fd ∧ is_Some (fdtab w !! fd));
  wf_parent_distinct :
    NoDup (filter (fun fd => fd ≠ -1) (leftover_pipe_ends p));
  wf_stdin :
    (stdin_source p = 0 ∨ 2 < stdin_source p)
    ∧ is_Some (fdtab w !! stdin_source p)
    ∧ (stdin_source p ∉ leftover_pipe_ends p);
  wf_stdout :
    (stdout_source p = 1 ∨ 2 < stdout_source p)
    ∧ is_Some (fdtab w !! stdout_source p)
    ∧ (stdout_source p ∉ leftover_pipe_ends p)
    ∧ stdout_source p ≠ stdin_source p;
  wf_stderr :
    if redirectErrorStream p
    then err1 p = -1
         ∨ (2 < err1 p ∧ is_Some (fdtab w !! err1 p)
            ∧ (err1 p ∉ leftover_pipe_ends p)
            ∧ err1 p ≠ stdin_source p ∧ err1 p ≠ stdout_source p)
    else (stderr_source p = 2 ∨ 2 < stderr_source p)
         ∧ is_Some (fdtab w !! stderr_source p)
         ∧ (stderr_source p ∉ leftover_pipe_ends p)
         ∧ stderr_source p ≠ stdin_source p
         ∧ stderr_source p ≠ stdout_source p;
  wf_fail :
    2 < fail1 p ∧ is_Some (fdtab w !! fail1 p)
    ∧ (fail1 p ∉ leftover_pipe_ends p)
    ∧ fail1 p ≠ stdin_source p ∧ fail1 p ≠ stdout_source p
    ∧ fail1 p ≠ third_source p
}.

(** What the preparation of the descriptors has no business with. *)
Definition setting (w : World) :=
  (loader w, chdir_verdict w, environ w, parentPathv w, cwd w, sigmask w,
   open_max w, exec_attempts (trace w)).

(** ** The order of the calls *)

(** The ledger of [w'] continues that of [w]. *)
Definition trace_grows : relation World :=
  fun w w' => trace w `prefix_of` trace w'.

(** The first call [m] issues is a [write] on [fd]. *)
Definition starts_with_write {A} (fd : Z) (m : M A) : Prop :=
  ∀ w, ∃ data rest, trace (final (m w)) = trace w ++ EvWrite fd data :: rest.

(** * Properties *)

(** ** Frames and termination of computations *)

Lemma wire_app t1 t2 : wire (t1 ++ t2) = wire t1 ++ wire t2.
Proof.
  induction t1 as [|ev t1 IH]; simpl; [done|].
  destruct ev; rewrite ?IH; try done. by rewrite app_assoc.
Qed.

Lemma wire_of_app fd t1 t2 : wire_of fd (t1 ++ t2) = wire_of fd t1 ++ wire_of fd t2.
Proof.
  induction t1 as [|ev t1 IH]; simpl; [done|].
  destruct ev; rewrite ?IH; try done.
  case_match; [by rewrite app_assoc | done].
Qed.

Lemma exec_attempts_app t1 t2 :
  exec_attempts (t1 ++ t2) = exec_attempts t1 ++ exec_attempts t2.
Proof.
  induction t1 as [|ev t1 IH]; simpl; [done|].
  destruct ev; rewrite ?IH; done.
Qed.

#[local] Instance kept_preorder {X} (obs : World → X) : PreOrder (kept obs).
Proof. split; [done|]. intros x y z; unfold kept; congruence. Qed.

#[local] Instance pending_le_preorder : PreOrder pending_le.
Proof. split; unfold pending_le; [intros x; lia | intros x y z; lia]. Qed.

Lemma preserves_ret {A} R `{!Reflexive R} (a : A) : preserves R (ret a).
Proof. intros w; simpl; reflexivity. Qed.

Lemma preserves_bind {A B} R `{!Transitive R} (m : M A) (k : A → M B) :
  preserves R m → (∀ a, preserves R (k a)) → preserves R (bind m k).
Proof.
  intros Hm Hk w. unfold bind. specialize (Hm w).
  destruct (m w) as [a w1| | |]; simpl in *; try done.
  etrans; [exact Hm | apply Hk].
Qed.

Lemma returning_ret {A} fuel (a : A) : returning fuel (ret a).
Proof. intros w _. exists a, w. split; [done | reflexivity]. Qed.

Lemma returning_bind {A B} fuel (m : M A) (k : A → M B) :
  returning fuel m → (∀ a, returning fuel (k a)) → returning fuel (bind m k).
Proof.
  intros Hm Hk w Hw. unfold bind.
  destruct (Hm w Hw) as (a & w1 & -> & Hle).
  destruct (Hk a w1) as (b & w2 & -> & Hle2); [unfold pending_le in Hle; lia|].
  exists b, w2. split; [done | etrans; eauto].
Qed.

Lemma execish_ret {A} (a : A) : execish (ret a).
Proof. by intros w. Qed.

Lemma execish_bind {A B} (m : M A) (k : A → M B) :
  execish m → (∀ a, execish (k a)) → execish (bind m k).
Proof.
  intros Hm Hk w. unfold bind. specialize (Hm w).
  destruct (m w); try done. apply Hk.
Qed.

(** The system calls, for the leaves of a frame proof. *)
Ltac unfold_calls :=
  unfold write, read, dup2, close, fcntl_GETFD, fcntl_SETFD, chdir,
    sigprocmask_SETMASK, sysconf_OPEN_MAX, execve, execvp, exec_call, _exit,
    get_errno, put_errno, get_environ, put_environ, get_parentPathv,
    opendir_FD_DIR, spin, ret, bind, kernel_says in *.

Ltac rewrite_pending :=
  repeat match goal with
         | H : pending ?w = _ |- context [pending ?w] => rewrite H
         end.

Ltac leaf :=
  let w := fresh "w" in
  intros w; unfold kept, pending_le; unfold_calls;
  repeat case_match; simplify_eq/=;
  rewrite ?wire_app, ?wire_of_app, ?exec_attempts_app; simpl;
  rewrite ?app_nil_r; rewrite_pending; simpl; try done; try lia.

Ltac frame :=
  repeat first
    [ progress intros
    | apply preserves_ret; apply _
    | apply preserves_bind; [apply _ | |]
    | match goal with
      | |- preserves _ (if ?b then _ else _) => destruct b
      | |- preserves _ (match ?x with _ => _ end) => destruct x
      end
    | solve [eauto with frame]
    | solve [leaf] ].

Ltac returns :=
  repeat first
    [ progress intros
    | apply returning_ret
    | apply returning_bind
    | match goal with
      | |- returning _ (if ?b then _ else _) => destruct b
      | |- returning _ (match ?x with _ => _ end) => destruct x
      end
    | solve [eauto with returns] ].

Lemma returning_leaf {A} fuel (m : M A) :
  (∀ w, ∃ a w', m w = Ret a w' ∧ pending_le w w') → returning fuel m.
Proof. intros H w _. apply H. Qed.

Ltac returning_call :=
  apply returning_leaf; let w := fresh "w" in
  intros w; unfold pending_le; unfold_calls;
  repeat case_match; simplify_eq/=; eexists _, _; (split; [reflexivity|]);
  simpl; rewrite_pending; simpl; lia.

Lemma returning_write fuel fd buf n : returning fuel (write fd buf n).
Proof. returning_call. Qed.
Lemma returning_read fuel fd n : returning fuel (read fd n).
Proof. returning_call. Qed.
Lemma returning_dup2 fuel a b : returning fuel (dup2 a b).
Proof. returning_call. Qed.
Lemma returning_close fuel fd : returning fuel (close fd).
Proof. returning_call. Qed.
Lemma returning_fcntl_GETFD fuel fd : returning fuel (fcntl_GETFD fd).
Proof. returning_call. Qed.
Lemma returning_fcntl_SETFD fuel fd fl : returning fuel (fcntl_SETFD fd fl).
Proof. returning_call. Qed.
Lemma returning_chdir fuel d : returning fuel (chdir d).
Proof. returning_call. Qed.
Lemma returning_sigprocmask fuel s : returning fuel (sigprocmask_SETMASK s).
Proof. returning_call. Qed.
Lemma returning_sysconf fuel : returning fuel sysconf_OPEN_MAX.
Proof. returning_call. Qed.
Lemma returning_get_errno fuel : returning fuel get_errno.
Proof. returning_call. Qed.
Lemma returning_put_errno fuel e : returning fuel (put_errno e).
Proof. returning_call. Qed.
Lemma returning_opendir fuel : returning fuel opendir_FD_DIR.
Proof. returning_call. Qed.

Create HintDb returns.
#[local] Hint Resolve returning_write returning_read returning_dup2
  returning_close returning_fcntl_GETFD returning_fcntl_SETFD returning_chdir
  returning_sigprocmask returning_sysconf returning_get_errno
  returning_put_errno returning_opendir : returns.

Create HintDb frame.

(** ** Closing and moving descriptors *)

Lemma close_parent_sides_chain p :
  close_parent_sides p = close_chain (leftover_pipe_ends p).
Proof. reflexivity. Qed.

Lemma close_chain_cons fd l w :
  close_chain (fd :: l) w =
    or_failed (failed (closeSafely fd)) (close_chain l) w.
Proof.
  destruct l; [|done]. simpl. unfold or_failed, failed, bind, ret.
  destruct (closeSafely fd w); try done. by case_match.
Qed.

Lemma closeSafely_absent w : closeSafely (-1) w = Ret 0 w.
Proof. reflexivity. Qed.

Lemma closeSafely_present fd : fd ≠ -1 → closeSafely fd = close fd.
Proof. intros H. unfold closeSafely. by rewrite (proj2 (Z.eqb_neq _ _) H). Qed.

(** Closing removes at most the descriptor named; one that is not open
    and not the sentinel makes the call fail with [EBADF]. *)
Lemma closeSafely_cases a w :
  ∃ r w1, closeSafely a w = Ret r w1
    ∧ (∀ fd, fdtab w !! fd = None → fdtab w1 !! fd = None)
    ∧ (a ≠ -1 → fdtab w !! a = None → r = -1 ∧ errno w1 = EBADF).
Proof.
  unfold closeSafely. destruct (Z.eqb_spec a (-1)) as [->|Hne].
  - exists 0, w. split; [done|]. split; [done | congruence].
  - unfold close, kernel_says.
    destruct (pending w) as [|k q]; simpl;
      destruct (fdtab w !! a) as [e|] eqn:Ha; simpl.
    + exists 0. eexists. split; [done|]. simpl. split; [|congruence].
      intros fd Hfd. destruct (decide (a = fd)) as [->|]; [congruence|].
      by rewrite lookup_delete_ne.
    + eexists _, _. split; [done|]. simpl. auto.
    + destruct k; eexists _, _; (split; [done|]); simpl;
        (split; [|congruence]); intros fd Hfd;
        (destruct (decide (a = fd)) as [->|];
           [congruence | by rewrite lookup_delete_ne]).
    + eexists _, _. split; [done|]. simpl. auto.
Qed.

Lemma close_chain_all_absent l w :
  Forall (fun fd => fd = -1) l → close_chain l w = Ret false w.
Proof.
  induction 1 as [|fd l -> _ IH]; [done|].
  rewrite close_chain_cons. unfold or_failed, failed, bind. simpl. exact IH.
Qed.

Lemma close_chain_bad l : ∀ w fd,
  fd ∈ l → fd ≠ -1 → fdtab w !! fd = None →
  ∃ w', close_chain l w = Ret true w'.
Proof.
  induction l as [|a l IH]; intros w fd Hin Hne Hclosed.
  - by apply elem_of_nil in Hin.
  - rewrite close_chain_cons. unfold or_failed, failed, bind, ret.
    destruct (closeSafely_cases a w) as (r & w1 & -> & Hmono & Hbad).
    destruct (Z.eqb_spec r (-1)) as [->|Hr]; [by eexists|].
    apply elem_of_cons in Hin as [->|Hin].
    + destruct (Hbad Hne Hclosed) as [? _]. done.
    + eapply IH; eauto.
Qed.

Lemma bind_Ret {A B} (m : M A) (k : A → M B) w a w1 :
  m w = Ret a w1 → bind m k w = k a w1.
Proof. unfold bind. by intros ->. Qed.

Lemma dup2_undisturbed fd_from fd_to w e :
  pending w = [] → fdtab w !! fd_from = Some e → 0 ≤ fd_to < open_max w →
  fd_from ≠ fd_to →
  dup2 fd_from fd_to w =
    Ret fd_to (set_fdtab (<[fd_to := FdEnt (fd_file e) false]> (fdtab w))
                         (log (EvDup2 fd_from fd_to) w)).
Proof.
  intros Hq Hopen [Hlo Hhi] Hne. unfold dup2, kernel_says. rewrite Hq. simpl.
  rewrite Hopen.
  rewrite (proj2 (Z.ltb_ge _ _) Hlo), (proj2 (Z.leb_gt _ _) Hhi),
    (proj2 (Z.eqb_neq _ _) Hne). done.
Qed.

Lemma close_undisturbed fd w e :
  pending w = [] → fdtab w !! fd = Some e →
  close fd w = Ret 0 (set_fdtab (delete fd (fdtab w)) (log (EvClose fd) w)).
Proof.
  intros Hq Hopen. unfold close, kernel_says. rewrite Hq. simpl.
  by rewrite Hopen.
Qed.

Lemma RESTARTABLE_once fuel cmd w r w1 :
  cmd w = Ret r w1 → (r =? -1) && (errno w1 =? EINTR) = false →
  RESTARTABLE (S fuel) cmd w = Ret r w1.
Proof.
  intros E H. simpl. rewrite (bind_Ret _ _ _ _ _ E).
  unfold bind, get_errno. by rewrite H.
Qed.

(** C8: moving a descriptor onto itself does nothing and succeeds;
    moving it onto another number duplicates it there (same file
    description, close-on-exec clear) and then closes the source. *)
Theorem moveDescriptor_self_is_noop :
  (∀ fuel d w, moveDescriptor fuel d d w = Ret 0 w)
  ∧ (∀ fuel fd_from fd_to w e,
       fd_from ≠ fd_to → fdtab w !! fd_from = Some e →
       0 ≤ fd_to < open_max w → pending w = [] →
       moveDescriptor (S fuel) fd_from fd_to w =
         Ret 0 (set_fdtab
                  (delete fd_from (<[fd_to := FdEnt (fd_file e) false]> (fdtab w)))
                  (log (EvClose fd_from) (log (EvDup2 fd_from fd_to) w)))).
Proof.
  split.
  - intros fuel d w. unfold moveDescriptor. by rewrite Z.eqb_refl.
  - intros fuel fd_from fd_to w e Hne Hopen Hto Hq.
    unfold moveDescriptor. rewrite (proj2 (Z.eqb_neq _ _) Hne). cbn [negb].
    unfold restartableDup2.
    erewrite bind_Ret; last first.
    { apply RESTARTABLE_once; [by eapply dup2_undisturbed|].
      apply andb_false_intro1. lia. }
    assert ((fd_to =? (-1)) = false) as -> by lia.
    erewrite bind_Ret; last first.
    { eapply close_undisturbed; simpl; [done|].
      rewrite lookup_insert_ne by done. exact Hopen. }
    done.
Qed.
(** ** Program execution *)

Lemma exec_call_fails prim path argv envp w e :
  loader w prim path = Some e →
  exec_call prim path argv envp w =
    Ret (-1) (set_errno e (log (EvExec prim path (cvector argv) envp) w)).
Proof. intros H. unfold exec_call. simpl. by rewrite H. Qed.

Lemma exec_call_loads prim path argv envp w :
  loader w prim path = None →
  exec_call prim path argv envp w =
    Replaced (set_fdtab (inherited (fdtab w))
                        (log (EvExec prim path (cvector argv) envp) w)).
Proof. intros H. unfold exec_call. simpl. by rewrite H. Qed.

(** *** The argument vector and its spare slot *)

Lemma cvector_Some args tl : cvector ((Some <$> args) ++ None :: tl) = args.
Proof. induction args as [|a args IH]; csimpl; [done | by rewrite IH]. Qed.

Lemma vec_end_Some args tl :
  vec_end ((Some <$> args) ++ None :: tl) = length args.
Proof. induction args as [|a args IH]; csimpl; [done | by rewrite IH]. Qed.

(** A vector whose terminator lies inside the array is its arguments,
    the NULL, and what follows it. *)
Lemma vec_shape (v : vec) :
  (vec_end v < length v)%nat →
  v = (Some <$> cvector v) ++ None :: drop (S (vec_end v)) v
  ∧ length (cvector v) = vec_end v.
Proof.
  induction v as [|[s|] v IH]; simpl; intros H; [lia | | done].
  destruct IH as [IH1 IH2]; [lia|]. split; [|by rewrite IH2].
  f_equal. exact IH1.
Qed.

(** The vector as [execve_as_traditional_shell_script] hands it to the
    shell, and as it leaves it behind. *)
Lemma reshape_for_shell a0 args (x : option string) rest file :
  let v := Some a0 :: (Some <$> args) ++ None :: x :: rest in
  let n := S (length args) in
  <[1%nat := Some file]> (<[0%nat := Some "/bin/sh"%string]> (memmove v 2 1 n))
  = Some "/bin/sh"%string :: Some file :: (Some <$> args) ++ None :: rest.
Proof.
  intros v n. unfold memmove, v, n.
  assert (take (S (length args)) (drop 1 (Some a0 :: (Some <$> args) ++ None :: x :: rest))
          = (Some <$> args) ++ [None]) as ->.
  { simpl drop. rewrite drop_0.
    replace (S (length args)) with (length (Some <$> args) + 1)%nat
      by (rewrite length_fmap; lia).
    by rewrite take_app_add. }
  rewrite length_app, length_fmap. simpl length.
  assert (drop (2 + (length args + 1)) (Some a0 :: (Some <$> args) ++ None :: x :: rest)
          = rest) as ->.
  { replace (2 + (length args + 1))%nat with (S (length (Some <$> args) + 2))%nat
      by (rewrite length_fmap; lia).
    simpl drop. by rewrite drop_app_add. }
  destruct args as [|a1 args]; simpl; [done|].
  by rewrite <- app_assoc.
Qed.

Lemma restore_after_shell a0 args rest file :
  let v := Some "/bin/sh"%string :: Some file :: (Some <$> args) ++ None :: rest in
  let n := S (length args) in
  <[0%nat := Some a0]> (memmove v 1 2 n)
  = Some a0 :: (Some <$> args) ++ None :: None :: rest.
Proof.
  intros v n. unfold memmove, v, n.
  assert (take (S (length args))
            (drop 2 (Some "/bin/sh"%string :: Some file :: (Some <$> args) ++ None :: rest))
          = (Some <$> args) ++ [None]) as ->.
  { simpl drop. rewrite drop_0.
    replace (S (length args)) with (length (Some <$> args) + 1)%nat
      by (rewrite length_fmap; lia).
    by rewrite take_app_add. }
  rewrite length_app, length_fmap. simpl length.
  assert (drop (1 + (length args + 1))
            (Some "/bin/sh"%string :: Some file :: (Some <$> args) ++ None :: rest)
          = None :: rest) as ->.
  { replace (1 + (length args + 1))%nat with (S (S (length (Some <$> args) + 0)))%nat
      by (rewrite length_fmap; lia).
    simpl drop. by rewrite drop_app_add. }
  simpl. by rewrite <- app_assoc.
Qed.

Lemma shell_fallback_on_ENOEXEC file argv envp w :
  loader w Execve file = Some ENOEXEC →
  execve_with_shell_fallback MODE_VFORK file argv envp w =
    execve_as_traditional_shell_script file argv envp
      (set_errno ENOEXEC (log (EvExec Execve file (cvector argv) envp) w)).
Proof.
  intros H. unfold execve_with_shell_fallback. rewrite Z.eqb_refl.
  unfold execve at 1.
  erewrite bind_Ret by (by apply exec_call_fails).
  unfold get_errno at 1. unfold bind at 1. simpl errno. by rewrite Z.eqb_refl.
Qed.

(** C4: in MODE_VFORK an [execve] that fails with ENOEXEC is retried
    as [/bin/sh file args...] on the reshaped vector; when the shell
    cannot be run either, [errno] is the shell attempt's and the vector
    is back as it was, up to and including its terminator. *)
Theorem shell_fallback_reshapes_and_restores :
  ∀ file (argv : vec) envp w n,
    vec_end argv = n → (0 < n)%nat → (n + 2 ≤ length argv)%nat →
    loader w Execve file = Some ENOEXEC →
    let shell_args := "/bin/sh"%string :: file :: tail (cvector argv) in
    let attempts := [EvExec Execve file (cvector argv) envp;
                     EvExec Execve "/bin/sh" shell_args envp] in
    match loader w Execve "/bin/sh" with
    | None =>
        ∃ w', execve_with_shell_fallback MODE_VFORK file argv envp w = Replaced w'
              ∧ trace w' = trace w ++ attempts
    | Some e =>
        ∃ argv' w',
          execve_with_shell_fallback MODE_VFORK file argv envp w = Ret argv' w'
          ∧ trace w' = trace w ++ attempts
          ∧ errno w' = e
          ∧ cvector argv' = cvector argv
          ∧ take (S n) argv' = take (S n) argv
          ∧ length argv' = length argv
    end.
Proof.
  intros file argv envp w n Hn Hpos Hcap Hnoexec shell_args attempts.
  destruct (vec_shape argv) as [Hshape Hlen]; [lia|].
  destruct (cvector argv) as [|a0 args] eqn:Hcv; [simpl in Hlen; lia|].
  simpl in Hlen.
  assert (∃ x rest, drop (S (vec_end argv)) argv = x :: rest) as (x & rest & Hdrop).
  { destruct (drop (S (vec_end argv)) argv) as [|x rest] eqn:Hd; [|eauto].
    apply (f_equal length) in Hd. rewrite length_drop in Hd. simpl in Hd. lia. }
  rewrite Hdrop in Hshape. csimpl in Hshape.
  assert (n = S (length args)) as -> by lia.
  clear Hcv Hdrop Hlen Hn. subst argv.
  rewrite shell_fallback_on_ENOEXEC by done.
  unfold execve_as_traditional_shell_script.
  assert (vec_end (Some a0 :: (Some <$> args) ++ None :: x :: rest)
          = S (length args)) as -> by (csimpl; by rewrite vec_end_Some).
  change (default None ((Some a0 :: (Some <$> args) ++ None :: x :: rest) !! 0%nat))
    with (Some a0).
  rewrite reshape_for_shell, restore_after_shell. unfold execve.
  assert (Hargs : cvector (Some "/bin/sh"%string :: Some file
                             :: (Some <$> args) ++ None :: rest) = shell_args).
  { unfold shell_args. csimpl. by rewrite !cvector_Some. }
  destruct (loader w Execve "/bin/sh") as [e|] eqn:Hsh.
  - erewrite bind_Ret; last first.
    { apply exec_call_fails. simpl. exact Hsh. }
    eexists _, _. split; [reflexivity|].
    rewrite Hargs. simpl. rewrite <- app_assoc, !cvector_Some.
    split; [done|]. split; [done|]. split; [done|]. split.
    + f_equal.
      replace (S (length args)) with (length (Some <$> args) + 1)%nat
        by (rewrite length_fmap; lia).
      by rewrite !take_app_add.
    + by rewrite !length_app.
  - unfold bind. rewrite (exec_call_loads Execve "/bin/sh") by (simpl; exact Hsh).
    eexists. split; [reflexivity|]. rewrite Hargs. simpl.
    by rewrite <- app_assoc, !cvector_Some.
Qed.
(** *** Resolution in [JDK_execvpe] *)

Lemma attempt_fails mode path argv envp w e :
  loader w (prim_of mode) path = Some e → e ≠ ENOEXEC →
  execve_with_shell_fallback mode path argv envp w =
    Ret argv (set_errno e (attempted mode path argv envp w)).
Proof.
  intros Hl He. unfold execve_with_shell_fallback, attempted, prim_of in *.
  destruct (mode =? MODE_VFORK).
  - unfold execve. erewrite bind_Ret by (by apply exec_call_fails).
    unfold get_errno, bind. simpl.
    by rewrite (proj2 (Z.eqb_neq _ _) He).
  - unfold put_environ, execvp, get_environ, bind. simpl environ.
    by rewrite (exec_call_fails _ _ _ _ _ e) by done.
Qed.

Lemma attempt_loads mode path argv envp w :
  loader w (prim_of mode) path = None →
  execve_with_shell_fallback mode path argv envp w =
    Replaced (set_fdtab (inherited (fdtab w)) (attempted mode path argv envp w)).
Proof.
  intros Hl. unfold execve_with_shell_fallback, attempted, prim_of in *.
  destruct (mode =? MODE_VFORK).
  - unfold execve, bind. by rewrite exec_call_loads by done.
  - unfold put_environ, execvp, get_environ, bind. simpl environ.
    by rewrite exec_call_loads by done.
Qed.

Lemma try_other_directories_not_ENOEXEC e :
  try_other_directories e = true → e ≠ ENOEXEC.
Proof. intros H ->. vm_compute in H. done. Qed.

(** One turn of the loop, by what the attempt left in [errno]. *)
Lemma path_search_skip mode file argv envp dir rest sticky w :
  too_long file dir = true →
  path_search mode file argv envp (dir :: rest) sticky w =
    path_search mode file argv envp rest sticky (set_errno ENAMETOOLONG w).
Proof. intros H. simpl. unfold too_long in H. by rewrite H. Qed.

Lemma path_search_turn mode file argv envp dir rest sticky w argv' w' :
  too_long file dir = false →
  execve_with_shell_fallback mode (expanded_file dir file) argv envp w
    = Ret argv' w' →
  path_search mode file argv envp (dir :: rest) sticky w =
    if try_other_directories (errno w')
    then path_search mode file argv' envp rest
           (if errno w' =? EACCES then errno w' else sticky) w'
    else Ret argv' w'.
Proof.
  intros Hfit E. simpl. unfold too_long in Hfit. rewrite Hfit.
  erewrite bind_Ret by exact E. unfold get_errno, bind.
  by destruct (try_other_directories (errno w')).
Qed.

Lemma path_search_done mode file argv envp sticky w :
  path_search mode file argv envp [] sticky w =
    Ret argv (if sticky =? 0 then w else set_errno sticky w).
Proof. simpl. unfold bind. by destruct (sticky =? 0). Qed.

Lemma JDK_execvpe_searches mode file argv envp w :
  envp ≠ 0 → envp ≠ environ w → file ≠ EmptyString → strchr file "/" = false →
  JDK_execvpe mode file argv envp w =
    path_search mode file argv envp (parentPathv w) 0 w.
Proof.
  intros H0 Henv Hfile Hslash. unfold JDK_execvpe, get_environ, bind.
  rewrite (proj2 (Z.eqb_neq _ _) H0), (proj2 (Z.eqb_neq _ _) Henv). simpl.
  rewrite (proj2 (String.eqb_neq _ _) Hfile), Hslash. done.
Qed.
Lemma strlen_append s1 s2 : strlen (s1 +:+ s2) = strlen s1 + strlen s2.
Proof.
  unfold strlen. induction s1 as [|c s1 IH]; simpl; [done|].
  rewrite !Nat2Z.inj_succ in *. lia.
Qed.

Lemma strlen_expanded_file dir file :
  strlen (expanded_file dir file) ≤ strlen dir + strlen file + 1.
Proof.
  unfold expanded_file.
  destruct (last_char dir) as [c|];
    [destruct (Ascii.eqb_spec c "/") as [->|Hc]|].
  - rewrite strlen_append. lia.
  - assert (strlen (dir +:+ "/" +:+ file) = strlen dir + strlen file + 1) as E.
    { rewrite !strlen_append. change (strlen "/") with 1. lia. }
    destruct c as [[] [] [] [] [] [] [] []]; try (rewrite E; lia).
    rewrite strlen_append. lia.
  - rewrite !strlen_append. change (strlen "/") with 1. lia.
Qed.

(** The attempts of a search that finds the program in [d] after the
    directories [pre] let it go on. *)
Lemma path_search_finds mode file argv envp d post pre : ∀ sticky w,
  (∀ dir, dir ∈ pre → too_long file dir = false →
     ∃ e, loader w (prim_of mode) (expanded_file dir file) = Some e
          ∧ try_other_directories e = true) →
  too_long file d = false →
  loader w (prim_of mode) (expanded_file d file) = None →
  ∃ w', path_search mode file argv envp (pre ++ d :: post) sticky w = Replaced w'
    ∧ exec_attempts (trace w') =
        exec_attempts (trace w)
        ++ ((fun dir => (prim_of mode, expanded_file dir file))
              <$> (filter (fun dir => too_long file dir = false) pre ++ [d])).
Proof.
  induction pre as [|dir pre IH]; intros sticky w Hall Hfit Hload.
  - simpl app. simpl path_search. unfold too_long in Hfit. rewrite Hfit.
    unfold bind. rewrite attempt_loads by done.
    eexists. split; [done|]. unfold attempted. simpl.
    rewrite exec_attempts_app. by destruct (mode =? MODE_VFORK).
  - rewrite <- app_comm_cons. rewrite filter_cons.
    destruct (too_long file dir) eqn:Hdir.
    + rewrite path_search_skip by done.
      destruct (IH sticky (set_errno ENAMETOOLONG w)) as (w' & E & Ht);
        [intros x Hx Hf; apply Hall; [by right | done] | done | done |].
      exists w'. split; [done|]. rewrite decide_False by done. exact Ht.
    + destruct (Hall dir) as (e & Hld & Htry); [by left | done |].
      pose proof (try_other_directories_not_ENOEXEC _ Htry) as Hne.
      erewrite path_search_turn; [|done|by apply attempt_fails].
      simpl errno. rewrite Htry.
      destruct (IH (if e =? EACCES then e else sticky)
                  (set_errno e (attempted mode (expanded_file dir file) argv envp w)))
        as (w' & E & Ht).
      { intros x Hx Hf. unfold attempted. simpl.
        destruct (mode =? MODE_VFORK); simpl; (apply Hall; [by right | done]). }
      { done. }
      { unfold attempted. simpl. by destruct (mode =? MODE_VFORK). }
      exists w'. split; [done|]. rewrite Ht. rewrite decide_True by done.
      unfold attempted. simpl. rewrite exec_attempts_app. simpl.
      rewrite <- app_assoc. by destruct (mode =? MODE_VFORK).
Qed.

(** C5: with an environment of its own and a program name without a
    separator, [JDK_execvpe] walks [parentPathv] in its order; each
    candidate is the directory, a separator unless the directory ends
    in one, and the name; the candidates are handed to exec one after
    the other and the first that loads replaces the process image; an
    entry for which [filelen + dirlen + 2] reaches PATH_MAX (so every
    candidate that with its terminator would reach PATH_MAX) is passed
    over with [errno = ENAMETOOLONG] and no exec. *)
Theorem JDK_execvpe_searches_parent_path_in_order :
  (∀ mode file argv envp w,
     envp ≠ 0 → envp ≠ environ w → file ≠ EmptyString → strchr file "/" = false →
     JDK_execvpe mode file argv envp w =
       path_search mode file argv envp (parentPathv w) 0 w)
  ∧ (∀ dir file,
       (last_char dir = Some "/"%char → expanded_file dir file = dir +:+ file)
       ∧ (last_char dir ≠ Some "/"%char →
          expanded_file dir file = dir +:+ "/" +:+ file))
  ∧ (∀ mode file argv envp w pre d post,
       envp ≠ 0 → envp ≠ environ w → file ≠ EmptyString → strchr file "/" = false →
       parentPathv w = pre ++ d :: post →
       (∀ dir, dir ∈ pre → too_long file dir = false →
          ∃ e, loader w (prim_of mode) (expanded_file dir file) = Some e
               ∧ try_other_directories e = true) →
       too_long file d = false →
       loader w (prim_of mode) (expanded_file d file) = None →
       ∃ w', JDK_execvpe mode file argv envp w = Replaced w'
         ∧ exec_attempts (trace w') =
             exec_attempts (trace w)
             ++ ((fun dir => (prim_of mode, expanded_file dir file))
                   <$> (filter (fun dir => too_long file dir = false) pre ++ [d])))
  ∧ (∀ mode file argv envp dir rest sticky w,
       (PATH_MAX ≤ strlen (expanded_file dir file) + 1 → too_long file dir = true)
       ∧ (too_long file dir = true →
          path_search mode file argv envp (dir :: rest) sticky w =
            path_search mode file argv envp rest sticky (set_errno ENAMETOOLONG w))).
Proof.
  split; [exact JDK_execvpe_searches|]. split; [|split].
  - intros dir file. unfold expanded_file. split.
    + by intros ->.
    + intros H. destruct (last_char dir) as [c|]; [|done].
      destruct c as [[] [] [] [] [] [] [] []]; done.
  - intros mode file argv envp w pre d post H0 Henv Hfile Hslash Hpath Hall Hfit Hl.
    rewrite JDK_execvpe_searches by done. rewrite Hpath.
    by apply path_search_finds.
  - intros mode file argv envp dir rest sticky w. split.
    + intros H. pose proof (strlen_expanded_file dir file).
      unfold too_long. apply Z.leb_le. lia.
    + apply path_search_skip.
Qed.
(** ** Reliable reads and writes *)

Lemma write_cases fd buf count w :
  is_Some (fdtab w !! fd) → 0 ≤ count ≤ Z.of_nat (length buf) →
  match pending w with
  | [] =>
      write fd buf count w =
        Ret count (log (EvWrite fd (take (Z.to_nat count) buf)) w)
  | KOk :: q =>
      write fd buf count w =
        Ret count (log (EvWrite fd (take (Z.to_nat count) buf)) (set_pending q w))
  | KFail e :: q =>
      write fd buf count w =
        Ret (-1) (set_errno e (log (EvWrite fd []) (set_pending q w)))
  | KShort k :: q =>
      write fd buf count w =
        Ret (Z.of_nat k `min` count)
            (log (EvWrite fd (take (k `min` Z.to_nat count)%nat buf))
                 (set_pending q w))
  end.
Proof.
  intros [e He] Hc. unfold write, kernel_says.
  destruct (pending w) as [|[|er|k] q]; simpl; rewrite He; try done.
  - f_equal. rewrite length_take. lia.
  - f_equal. rewrite length_take. lia.
  - f_equal. rewrite length_take. lia.
Qed.

Lemma write_closed fd buf count w :
  fdtab w !! fd = None →
  ∃ w', write fd buf count w = Ret (-1) w' ∧ errno w' = EBADF
        ∧ wire (trace w') = wire (trace w)
        ∧ (length (pending w') ≤ length (pending w))%nat.
Proof.
  intros H. unfold write, kernel_says.
  destruct (pending w) as [|k q] eqn:Hq; simpl; rewrite H;
    eexists; (split; [done|]); simpl; rewrite wire_app, ?Hq; simpl;
    rewrite ?app_nil_r; (split; [done|]); (split; [done|lia]).
Qed.

(** *** [writeFully] *)

(** Under such a schedule [writeFully] hands over exactly the first
    [remaining] bytes at the pointer, in order, and returns [nbyte]. *)
Lemma writeFully_loop_transfers fd nbyte fuel : ∀ w buf remaining,
  is_Some (fdtab w !! fd) →
  Forall interrupts_or_progresses (pending w) →
  0 < remaining ≤ Z.of_nat (length buf) →
  (length (pending w) < fuel)%nat →
  ∃ w', writeFully_loop fuel fd buf nbyte remaining w = Ret nbyte w'
    ∧ wire_of fd (trace w') = wire_of fd (trace w) ++ take (Z.to_nat remaining) buf
    ∧ wire (trace w') = wire (trace w) ++ take (Z.to_nat remaining) buf
    ∧ fdtab w' = fdtab w.
Proof.
  induction fuel as [|fuel IH]; intros w buf remaining Hopen Hsched Hrem Hfuel;
    [lia|].
  pose proof (write_cases fd buf remaining w Hopen ltac:(lia)) as Hw.
  simpl writeFully_loop.
  destruct (pending w) as [|[|er|k] q] eqn:Hq.
  - erewrite bind_Ret by exact Hw.
    assert ((0 <? remaining) = true) as -> by lia.
    assert ((remaining - remaining <=? 0) = true) as -> by lia.
    eexists. split; [done|]. simpl.
    rewrite wire_of_app, wire_app. simpl. rewrite Z.eqb_refl, !app_nil_r. done.
  - erewrite bind_Ret by exact Hw.
    assert ((0 <? remaining) = true) as -> by lia.
    assert ((remaining - remaining <=? 0) = true) as -> by lia.
    eexists. split; [done|]. simpl.
    rewrite wire_of_app, wire_app. simpl. rewrite Z.eqb_refl, !app_nil_r. done.
  - apply Forall_cons in Hsched as [Hk Hsched].
    destruct Hk as [?|[[= ->]|[? ?]]]; [done| |done].
    erewrite bind_Ret by exact Hw. simpl (0 <? -1).
    unfold get_errno at 1. unfold bind at 1. simpl.
    destruct (IH (set_errno EINTR (log (EvWrite fd []) (set_pending q w)))
                buf remaining) as (w' & E & H1 & H2 & H3);
      [done | done | done | simpl in *; lia |].
    exists w'. split; [done|]. rewrite H1, H2, H3. simpl.
    rewrite wire_of_app, wire_app. simpl. rewrite Z.eqb_refl, !app_nil_r. done.
  - apply Forall_cons in Hsched as [Hk Hsched].
    destruct Hk as [?|[?|[m [= ->]]]]; [done..|].
    erewrite bind_Ret by exact Hw.
    assert ((0 <? Z.of_nat (S m) `min` remaining) = true) as ->
      by (apply Z.ltb_lt; lia).
    set (n := (S m `min` Z.to_nat remaining)%nat) in *.
    assert (Z.to_nat (Z.of_nat (S m) `min` remaining) = n) as Hn by lia.
    rewrite Hn.
    destruct (Z.leb_spec (remaining - Z.of_nat (S m) `min` remaining) 0) as [Hle|Hgt].
    + eexists. split; [done|]. simpl trace. simpl fdtab.
      rewrite wire_of_app, wire_app. simpl wire_of. simpl wire.
      rewrite Z.eqb_refl, !app_nil_r.
      replace n with (Z.to_nat remaining) by lia.
      done.
    + destruct (IH (log (EvWrite fd (take n buf)) (set_pending q w))
                  (drop n buf) (remaining - Z.of_nat (S m) `min` remaining))
        as (w' & E & H1 & H2 & H3);
        [done | done | rewrite length_drop; lia | simpl in *; lia |].
      exists w'. split; [done|]. rewrite H1, H2, H3. simpl trace. simpl fdtab.
      rewrite wire_of_app, wire_app. simpl wire_of. simpl wire.
      rewrite Z.eqb_refl, !app_nil_r, <- !app_assoc.
      replace (Z.to_nat (remaining - Z.of_nat (S m) `min` remaining))
        with (Z.to_nat remaining - n)%nat by lia.
      rewrite take_take_drop.
      replace (n + (Z.to_nat remaining - n))%nat with (Z.to_nat remaining) by lia.
      done.
Qed.

(** An error that is not an interruption ends the loop, at whatever
    point of the transfer, with -1 and that [errno]. *)
Lemma writeFully_loop_error fd nbyte fuel w buf remaining e q :
  is_Some (fdtab w !! fd) → pending w = KFail e :: q → e ≠ EINTR →
  ∃ w', writeFully_loop (S fuel) fd buf nbyte remaining w = Ret (-1) w'
        ∧ errno w' = e ∧ wire (trace w') = wire (trace w).
Proof.
  intros [x Hx] Hq He. simpl writeFully_loop.
  assert (write fd buf remaining w =
          Ret (-1) (set_errno e (log (EvWrite fd []) (set_pending q w)))) as Hw.
  { unfold write, kernel_says. rewrite Hq. simpl. by rewrite Hx. }
  erewrite bind_Ret by exact Hw. simpl (0 <? -1).
  unfold get_errno, bind. simpl.
  rewrite (proj2 (Z.eqb_neq _ _) He). simpl.
  eexists. split; [done|]. simpl. rewrite wire_app. simpl.
  by rewrite app_nil_r.
Qed.
(** *** [readFully] *)

Lemma read_cases fd count w e :
  fdtab w !! fd = Some e →
  let avail := default [] (inbox w !! fd_file e) in
  let deliver n w1 :=
    Ret (Z.of_nat (length (take n avail)), take n avail)
        (set_inbox (<[fd_file e := drop n avail]> (inbox w)) w1) in
  match pending w with
  | [] => read fd count w = deliver (Z.to_nat count) w
  | KOk :: q => read fd count w = deliver (Z.to_nat count) (set_pending q w)
  | KFail er :: q =>
      read fd count w = Ret (-1, []) (set_errno er (set_pending q w))
  | KShort k :: q =>
      read fd count w = deliver (k `min` Z.to_nat count)%nat (set_pending q w)
  end.
Proof.
  intros He. unfold read, kernel_says.
  destruct (pending w) as [|[|er|k] q]; simpl; rewrite He; done.
Qed.

Lemma store_nil buf off : store buf off [] = buf.
Proof. unfold store. simpl. rewrite Nat.add_0_r. apply take_drop. Qed.

Lemma store_store buf off d1 d2 :
  (off + length d1 ≤ length buf)%nat →
  store (store buf off d1) (off + length d1) d2 = store buf off (d1 ++ d2).
Proof.
  intros H. unfold store.
  assert (length (take off buf) = off) as Hoff by (rewrite length_take; lia).
  rewrite (app_assoc (take off buf) d1).
  rewrite take_app_length'; [|rewrite length_app; lia].
  rewrite drop_app_ge; [|rewrite length_app; lia].
  rewrite length_app, Hoff, drop_drop, length_app, <- !app_assoc.
  do 3 f_equal. f_equal. lia.
Qed.

Lemma eof_probe_drop n avail : (eof_probe (drop n avail) ≤ eof_probe avail)%nat.
Proof.
  unfold eof_probe. destruct (decide (avail = [])) as [->|];
    [by rewrite drop_nil | case_decide; lia].
Qed.

(** Under a schedule that interrupts or makes progress, [readFully]
    fills the buffer, from the offset on and in order, with the next
    [remaining] bytes of the stream, or with all that is left of it
    when the stream ends first, and returns the count obtained. *)
Lemma readFully_loop_transfers fd nbyte fuel : ∀ w buf off remaining e,
  fdtab w !! fd = Some e →
  Forall interrupts_or_progresses (pending w) →
  0 ≤ remaining →
  (off + Z.to_nat remaining ≤ length buf)%nat →
  (length (pending w) + eof_probe (default [] (inbox w !! fd_file e)) < fuel)%nat →
  let avail := default [] (inbox w !! fd_file e) in
  let got := take (Z.to_nat remaining) avail in
  ∃ w', readFully_loop fuel fd buf off nbyte remaining w
          = Ret (nbyte - remaining + Z.of_nat (length got), store buf off got) w'
    ∧ default [] (inbox w' !! fd_file e) = drop (Z.to_nat remaining) avail
    ∧ fdtab w' = fdtab w.
Proof.
  induction fuel as [|fuel IH];
    intros w buf off remaining e He Hsched Hrem Hcap Hfuel avail got; [lia|].
  fold avail in Hfuel.
  pose proof (read_cases fd remaining w e He) as Hr. cbv beta zeta in Hr.
  fold avail in Hr.
  (* a delivery of [n] bytes at most, [n] positive unless nothing is asked *)
  assert (Hdeliver : ∀ n w1,
    (n ≤ Z.to_nat remaining)%nat → (0 < remaining → (0 < n)%nat) →
    fdtab w1 = fdtab w → inbox w1 = inbox w →
    Forall interrupts_or_progresses (pending w1) →
    (avail ≠ [] →
     (length (pending w1) + eof_probe (drop n avail) < fuel)%nat
     ∨ (Z.to_nat remaining ≤ length avail)%nat ∧ n = Z.to_nat remaining) →
    read fd remaining w =
      Ret (Z.of_nat (length (take n avail)), take n avail)
          (set_inbox (<[fd_file e := drop n avail]> (inbox w)) w1) →
    ∃ w', readFully_loop (S fuel) fd buf off nbyte remaining w
            = Ret (nbyte - remaining + Z.of_nat (length got), store buf off got) w'
      ∧ default [] (inbox w' !! fd_file e) = drop (Z.to_nat remaining) avail
      ∧ fdtab w' = fdtab w).
  { intros n w1 Hn Hpos Hfd Hin Hs1 Hf1 E.
    simpl readFully_loop. erewrite bind_Ret by exact E. cbn [fst snd].
    set (d1 := take n avail).
    destruct (Z.eqb_spec (Z.of_nat (length d1)) 0) as [H0|H0].
    - (* end of file, or nothing asked *)
      assert (d1 = []) as Hd1 by (destruct d1; [done | simpl in H0; lia]).
      assert (got = []) as ->.
      { unfold got. unfold d1 in Hd1. apply take_nil_inv in Hd1 as [->| ->].
        - assert (remaining = 0) as -> by lia. done.
        - apply take_nil. }
      eexists. split; [by rewrite store_nil, Z.add_0_r|]. simpl.
      rewrite lookup_insert_eq. simpl. split; [|done].
      unfold d1 in Hd1. apply take_nil_inv in Hd1 as [->|Ha].
      + assert (remaining = 0) as -> by lia. done.
      + rewrite Ha. by rewrite !drop_nil.
    - assert ((0 <? Z.of_nat (length d1)) = true) as -> by lia.
      assert (Hlen : (length d1 ≤ n)%nat) by (unfold d1; rewrite length_take; lia).
      assert (Hne : avail ≠ []).
      { intros Ha. unfold d1 in H0. rewrite Ha, take_nil in H0. done. }
      destruct (Z.leb_spec (remaining - Z.of_nat (length d1)) 0) as [Hle|Hgt].
      + (* the request is complete *)
        assert (n = Z.to_nat remaining) as -> by lia.
        fold got in d1. subst d1.
        eexists. split; [unfold ret; do 2 f_equal; lia|]. simpl.
        by rewrite lookup_insert_eq.
      + (* a partial read: go on behind it *)
        destruct (Hf1 Hne) as [Hf|[Hav ->]];
          [|unfold d1 in Hgt; rewrite length_take in Hgt; lia].
        rewrite Nat2Z.id.
        destruct (IH (set_inbox (<[fd_file e := drop n avail]> (inbox w)) w1)
                    (store buf off d1) (off + length d1)%nat
                    (remaining - Z.of_nat (length d1)) e)
          as (w' & E' & Hin' & Hfd'); simpl;
          [by rewrite Hfd | done | lia
          | unfold store; rewrite !length_app, length_take, length_drop; lia
          | by rewrite lookup_insert_eq |].
        simpl in E', Hin'. rewrite lookup_insert_eq in E', Hin'. simpl in E', Hin'.
        assert (Hgot : got = d1 ++ take (Z.to_nat (remaining - Z.of_nat (length d1)))
                                     (drop n avail)).
        { unfold got, d1.
          destruct (decide (n ≤ length avail)%nat) as [Hna|Hna].
          - rewrite length_take_le by done.
            replace (Z.to_nat (remaining - Z.of_nat n))
              with (Z.to_nat remaining - n)%nat by lia.
            rewrite take_take_drop. f_equal. lia.
          - rewrite (drop_ge avail n) by lia. rewrite take_nil, app_nil_r.
            rewrite !take_ge by lia. done. }
        exists w'. split; [|split].
        * rewrite E'. unfold ret. f_equal. f_equal.
          -- rewrite Hgot, length_app. lia.
          -- rewrite store_store by lia. by rewrite Hgot.
        * rewrite Hin', drop_drop. unfold d1 in *. rewrite length_take in *.
          destruct (decide (n ≤ length avail)%nat) as [Hna|Hna];
            [f_equal; lia | by rewrite !drop_ge by lia].
        * by rewrite Hfd', <- Hfd. }
  pose proof (eof_probe_drop (Z.to_nat remaining) avail) as Hp.
  destruct (pending w) as [|[|er|k] q] eqn:Hq.
  - eapply (Hdeliver (Z.to_nat remaining) w);
      [lia | lia | done | done | by rewrite Hq | | exact Hr].
    intros Hne.
    destruct (decide (Z.to_nat remaining ≤ length avail)%nat); [by right|left].
    rewrite Hq, drop_ge by lia. unfold eof_probe in *.
    rewrite decide_False in Hfuel by done. simpl in *. lia.
  - apply Forall_cons in Hsched as [_ Hsched].
    eapply (Hdeliver (Z.to_nat remaining) (set_pending q w));
      [lia | lia | done | done | done | | exact Hr].
    intros _. left. simpl in *. lia.
  - apply Forall_cons in Hsched as [Hk Hsched].
    destruct Hk as [?|[[= ->]|[? ?]]]; [done| |done].
    simpl readFully_loop. erewrite bind_Ret by exact Hr. cbn [fst snd].
    simpl (-1 =? 0). simpl (0 <? -1). cbv iota.
    unfold get_errno at 1. unfold bind at 1. simpl.
    destruct (IH (set_errno EINTR (set_pending q w)) buf off remaining e)
      as (w' & E' & Hin' & Hfd'); simpl;
      [done..| unfold avail in *; simpl in *; lia |].
    exists w'. done.
  - apply Forall_cons in Hsched as [Hk Hsched].
    destruct Hk as [?|[?|[m [= ->]]]]; [done..|].
    pose proof (eof_probe_drop (S m `min` Z.to_nat remaining) avail).
    eapply (Hdeliver (S m `min` Z.to_nat remaining)%nat (set_pending q w));
      [lia | lia | done | done | done | | exact Hr].
    intros _. left. simpl in *. lia.
Qed.

(** A read error that is not an interruption ends the loop, at whatever
    point of the transfer, with -1 and that [errno]. *)
Lemma readFully_loop_error fd nbyte fuel w buf off remaining e q :
  is_Some (fdtab w !! fd) → pending w = KFail e :: q → e ≠ EINTR →
  ∃ w', readFully_loop (S fuel) fd buf off nbyte remaining w = Ret (-1, buf) w'
        ∧ errno w' = e.
Proof.
  intros [x Hx] Hq He. simpl readFully_loop.
  pose proof (read_cases fd remaining w x Hx) as Hr. rewrite Hq in Hr.
  erewrite bind_Ret by exact Hr. cbn [fst snd].
  simpl (-1 =? 0). simpl (0 <? -1). cbv iota.
  unfold get_errno, bind. simpl.
  rewrite (proj2 (Z.eqb_neq _ _) He). by eexists.
Qed.
(** C6: on a descriptor whose transport interrupts or cuts transfers
    short finitely often and otherwise makes progress, [writeFully]
    hands over exactly the [nbyte] bytes of the buffer, in order, and
    returns [nbyte]; [readFully] fills the buffer with the next [nbyte]
    bytes of the stream, in order, and returns [nbyte], or, when the
    stream ends first, with the bytes obtained, and returns their
    count; an error other than EINTR, at whatever point of the
    transfer, makes either return -1 with [errno] that error. *)
Theorem readFully_writeFully_transfer_exactly :
  (∀ fuel fd buf nbyte w,
     is_Some (fdtab w !! fd) →
     Forall interrupts_or_progresses (pending w) →
     0 < nbyte ≤ Z.of_nat (length buf) →
     (length (pending w) < fuel)%nat →
     ∃ w', writeFully fuel fd buf nbyte w = Ret nbyte w'
       ∧ wire_of fd (trace w') = wire_of fd (trace w) ++ take (Z.to_nat nbyte) buf)
  ∧ (∀ fuel fd buf nbyte w e,
       fdtab w !! fd = Some e →
       Forall interrupts_or_progresses (pending w) →
       0 ≤ nbyte ≤ Z.of_nat (length buf) →
       (length (pending w) + 1 < fuel)%nat →
       let avail := default [] (inbox w !! fd_file e) in
       let got := take (Z.to_nat nbyte) avail in
       ∃ w', readFully fuel fd buf nbyte w
               = Ret (nbyte `min` Z.of_nat (length avail),
                      got ++ drop (length got) buf) w'
         ∧ default [] (inbox w' !! fd_file e) = drop (Z.to_nat nbyte) avail)
  ∧ (∀ fuel fd buf nbyte remaining w e q,
       is_Some (fdtab w !! fd) → pending w = KFail e :: q → e ≠ EINTR →
       ∃ w', writeFully_loop (S fuel) fd buf nbyte remaining w = Ret (-1) w'
             ∧ errno w' = e)
  ∧ (∀ fuel fd buf off nbyte remaining w e q,
       is_Some (fdtab w !! fd) → pending w = KFail e :: q → e ≠ EINTR →
       ∃ w', readFully_loop (S fuel) fd buf off nbyte remaining w = Ret (-1, buf) w'
             ∧ errno w' = e).
Proof.
  split; [|split; [|split]].
  - intros fuel fd buf nbyte w Hopen Hs Hn Hf.
    destruct (writeFully_loop_transfers fd nbyte fuel w buf nbyte Hopen Hs Hn Hf)
      as (w' & E & H1 & _). eauto.
  - intros fuel fd buf nbyte w e He Hs Hn Hf avail got.
    destruct (readFully_loop_transfers fd nbyte fuel w buf 0 nbyte e He Hs)
      as (w' & E & H1 & _); [lia | lia | |].
    { unfold eof_probe. case_decide; lia. }
    exists w'. split; [|done]. unfold readFully. rewrite E. f_equal.
    fold avail. fold got. f_equal.
    unfold got. rewrite length_take. lia.
  - intros fuel fd buf nbyte remaining w e q Hopen Hq He.
    destruct (writeFully_loop_error fd nbyte fuel w buf remaining e q Hopen Hq He)
      as (w' & E & H1 & _). eauto.
  - intros fuel fd buf off nbyte remaining w e q Hopen Hq He.
    by apply (readFully_loop_error fd nbyte fuel w buf off remaining e q).
Qed.
(** ** Descriptor quarantine *)

#[local] Instance marked_from_preorder : PreOrder marked_from.
Proof.
  split.
  - intros t fd. by destruct (t !! fd).
  - intros t1 t2 t3 H12 H23 fd. specialize (H12 fd). specialize (H23 fd).
    destruct (t1 !! fd), (t2 !! fd), (t3 !! fd); try done.
    destruct H12 as (? & ? & Ha), H23 as (? & ? & Hb).
    split; [congruence|]. split; [auto|].
    intros Hlt. by rewrite (Hb Hlt), (Ha Hlt).
Qed.

Lemma markCloseOnExec_open fd w e :
  fdtab w !! fd = Some e →
  ∃ w', markCloseOnExec fd w = Ret 0 w'
    ∧ fdtab w' = <[fd := FdEnt (fd_file e) true]> (fdtab w)
    ∧ open_max w' = open_max w ∧ trace w' = trace w.
Proof.
  intros He. unfold markCloseOnExec, fcntl_GETFD, fcntl_SETFD, bind, ret.
  rewrite He. destruct e as [f [|]]; simpl.
  - exists w. split; [done|]. split; [|done]. by rewrite insert_id.
  - rewrite He. simpl. eexists. split; [done|]. done.
Qed.

Lemma markCloseOnExec_closed fd w :
  fdtab w !! fd = None →
  markCloseOnExec fd w = Ret (-1) (set_errno EBADF w).
Proof.
  intros He. unfold markCloseOnExec, fcntl_GETFD, bind, ret. by rewrite He.
Qed.

Lemma marked_from_insert t fd e :
  t !! fd = Some e → STDERR_FILENO + 1 ≤ fd →
  marked_from t (<[fd := FdEnt (fd_file e) true]> t).
Proof.
  intros He Hfd k. destruct (decide (fd = k)) as [<-|Hne].
  - rewrite lookup_insert_eq, He. simpl. split; [done|]. split; [done|lia].
  - rewrite lookup_insert_ne by done. by destruct (t !! k).
Qed.

Lemma marked_from_flag t t' fd e' :
  marked_from t t' → t' !! fd = Some e' →
  ∃ e, t !! fd = Some e ∧ (fd_cloexec e = true → fd_cloexec e' = true).
Proof.
  intros H He'. specialize (H fd). rewrite He' in H.
  destruct (t !! fd) as [e|]; [|done]. exists e. tauto.
Qed.

Lemma marked_from_open t t' fd :
  marked_from t t' → is_Some (t !! fd) → is_Some (t' !! fd).
Proof.
  intros H [e He]. specialize (H fd). rewrite He in H.
  by destruct (t' !! fd).
Qed.

(** *** The names of the descriptor directory *)

Lemma digit_char_spec d :
  0 ≤ d < 10 →
  isAsciiDigit (digit_char d) = true
  ∧ Z.of_N (N_of_ascii (digit_char d)) - 48 = d.
Proof.
  intros H.
  assert (d = 0 ∨ d = 1 ∨ d = 2 ∨ d = 3 ∨ d = 4 ∨ d = 5 ∨ d = 6 ∨ d = 7
          ∨ d = 8 ∨ d = 9) as Hd by lia.
  repeat destruct Hd as [->|Hd]; try subst d; by vm_compute.
Qed.

Lemma strtol_decimal_from fuel : ∀ n acc,
  0 ≤ n → (Z.to_nat n ≤ fuel)%nat →
  strtol_from 0 (decimal_from fuel n acc) = strtol_from n acc.
Proof.
  assert (Hone : ∀ n acc, 0 ≤ n < 10 →
            strtol_from 0 (String (digit_char (n mod 10)) acc) = strtol_from n acc).
  { intros n acc Hn. rewrite Z.mod_small by lia.
    destruct (digit_char_spec n Hn) as [Hd Hv]. simpl. rewrite Hd, Hv.
    f_equal. }
  induction fuel as [|fuel IH]; intros n acc Hn Hf; simpl.
  - apply Hone. lia.
  - destruct (Z.ltb_spec n 10) as [Hlt|Hge]; [apply Hone; lia|].
    rewrite IH; [|apply Z.div_pos; lia|].
    + destruct (digit_char_spec (n mod 10)) as [Hd Hv];
        [apply Z.mod_pos_bound; lia|].
      simpl. rewrite Hd, Hv. f_equal.
      pose proof (Z.div_mod n 10). lia.
    + assert (n / 10 < n) by (apply Z.div_lt; lia). lia.
Qed.

Lemma decimal_from_head fuel : ∀ n acc,
  0 ≤ n →
  ∃ c s, decimal_from fuel n acc = String c s ∧ isAsciiDigit c = true.
Proof.
  induction fuel as [|fuel IH]; intros n acc Hn; simpl.
  - eexists _, _. split; [done|]. apply digit_char_spec.
    apply Z.mod_pos_bound. lia.
  - destruct (n <? 10).
    + eexists _, _. split; [done|]. apply digit_char_spec.
      apply Z.mod_pos_bound. lia.
    + apply IH. apply Z.div_pos; lia.
Qed.

(** The kernel's name of a descriptor reads back as its number. *)
Lemma strtol_fd_name fd : 0 ≤ fd → strtol (fd_name fd) = fd.
Proof.
  intros H. unfold strtol, fd_name. rewrite strtol_decimal_from by lia. done.
Qed.

Lemma fd_name_head fd :
  0 ≤ fd → ∃ c s, fd_name fd = String c s ∧ isAsciiDigit c = true.
Proof. apply decimal_from_head. Qed.
(** *** The two strategies *)

Lemma mark_entries_marks entries : ∀ w,
  (∀ name, name ∈ entries → names_descriptor name = true →
     is_Some (fdtab w !! strtol name)) →
  ∃ w', mark_entries entries w = Ret 0 w'
    ∧ marked_from (fdtab w) (fdtab w')
    ∧ open_max w' = open_max w ∧ trace w' = trace w
    ∧ (∀ name e', name ∈ entries → names_descriptor name = true →
         fdtab w' !! strtol name = Some e' → fd_cloexec e' = true).
Proof.
  induction entries as [|name rest IH]; intros w Hopen.
  - exists w. split; [done|]. split; [reflexivity|]. split; [done|].
    split; [done|]. intros name e' Hin. by apply elem_of_nil in Hin.
  - simpl mark_entries. fold (names_descriptor name).
    destruct (names_descriptor name) eqn:Hname.
    + destruct (Hopen name) as [e He]; [by left | done |].
      destruct (markCloseOnExec_open _ _ _ He) as (w1 & E1 & Ht1 & Hm1 & Htr1).
      erewrite bind_Ret by exact E1. simpl (0 =? -1). cbv iota.
      assert (Hfd : STDERR_FILENO + 1 ≤ strtol name).
      { unfold names_descriptor in Hname. apply andb_true_iff in Hname as [_ H].
        by apply Z.leb_le. }
      assert (Hm : marked_from (fdtab w) (fdtab w1))
        by (rewrite Ht1; by apply marked_from_insert).
      destruct (IH w1) as (w' & E & Hmf & Hmax & Htr & Hall).
      { intros n Hn Hd. eapply marked_from_open; [exact Hm|].
        apply Hopen; [by right | done]. }
      exists w'. split; [done|]. split; [by etrans|].
      split; [congruence|]. split; [congruence|].
      intros n e' Hin Hd He'. apply elem_of_cons in Hin as [->|Hin]; [|eauto].
      destruct (marked_from_flag _ _ _ _ Hmf He') as (e1 & He1 & Hflag).
      apply Hflag. rewrite Ht1, lookup_insert_eq in He1. by simplify_eq.
    + destruct (IH w) as (w' & E & Hmf & Hmax & Htr & Hall).
      { intros n Hn Hd. apply Hopen; [by right | done]. }
      exists w'. split; [done|]. split; [done|]. split; [done|]. split; [done|].
      intros n e' Hin Hd He'. apply elem_of_cons in Hin as [->|Hin]; [|eauto].
      congruence.
Qed.

Lemma scan_descriptors_marks n : ∀ fd w,
  STDERR_FILENO + 1 ≤ fd →
  ∃ w', scan_descriptors n fd w = Ret false w'
    ∧ marked_from (fdtab w) (fdtab w')
    ∧ open_max w' = open_max w ∧ trace w' = trace w
    ∧ (∀ k e', fd ≤ k < fd + Z.of_nat n →
         fdtab w' !! k = Some e' → fd_cloexec e' = true).
Proof.
  induction n as [|n IH]; intros fd w Hfd.
  - exists w. split; [done|]. split; [reflexivity|]. split; [done|].
    split; [done|]. intros k e' Hk. lia.
  - simpl scan_descriptors.
    assert (∃ w1, (∃ r, markCloseOnExec fd w = Ret r w1
                        ∧ (r =? -1) && negb (errno w1 =? EBADF) = false)
                  ∧ marked_from (fdtab w) (fdtab w1)
                  ∧ open_max w1 = open_max w ∧ trace w1 = trace w
                  ∧ (∀ e1, fdtab w1 !! fd = Some e1 → fd_cloexec e1 = true))
      as (w1 & (r & E1 & Hr) & Hm & Hmax1 & Htr1 & Hflag).
    { destruct (fdtab w !! fd) as [e|] eqn:He.
      - destruct (markCloseOnExec_open _ _ _ He) as (w1 & E1 & Ht1 & Hm1 & Htr1).
        exists w1. split; [by exists 0|]. rewrite Ht1.
        split; [by apply marked_from_insert|]. split; [done|]. split; [done|].
        intros e1. rewrite lookup_insert_eq. by intros [= <-].
      - exists (set_errno EBADF w). rewrite markCloseOnExec_closed by done.
        split; [by exists (-1)|]. split; [reflexivity|]. split; [done|].
        split; [done|]. simpl. congruence. }
    erewrite bind_Ret by exact E1. unfold get_errno at 1. unfold bind at 1.
    rewrite Hr.
    destruct (IH (fd + 1) w1) as (w' & E & Hmf & Hmax & Htr & Hall); [lia|].
    exists w'. split; [done|]. split; [by etrans|].
    split; [congruence|]. split; [congruence|].
    intros k e' Hk He'. destruct (decide (k = fd)) as [->|Hne].
    + destruct (marked_from_flag _ _ _ _ Hmf He') as (e1 & He1 & Hf). eauto.
    + apply (Hall k); [lia | done].
Qed.

Lemma listing_names_open w name :
  table_ok w →
  name ∈ ("."%string :: ".."%string
           :: ((fun kv => fd_name kv.1) <$> map_to_list (fdtab w))) →
  names_descriptor name = true →
  is_Some (fdtab w !! strtol name).
Proof.
  intros Hok Hin Hname.
  apply elem_of_cons in Hin as [->|Hin]; [done|].
  apply elem_of_cons in Hin as [->|Hin]; [done|].
  apply list_elem_of_fmap in Hin as ([k e] & -> & Hin).
  apply elem_of_map_to_list in Hin. simpl.
  rewrite strtol_fd_name; [eauto | by apply (Hok k e)].
Qed.

Lemma listing_covers w fd e :
  table_ok w → fdtab w !! fd = Some e → STDERR_FILENO + 1 ≤ fd →
  fd_name fd ∈ ("."%string :: ".."%string
                 :: ((fun kv => fd_name kv.1) <$> map_to_list (fdtab w)))
  ∧ names_descriptor (fd_name fd) = true ∧ strtol (fd_name fd) = fd.
Proof.
  intros Hok He Hfd. pose proof (Hok fd e He) as Hrange.
  split; [|split].
  - do 2 right. apply list_elem_of_fmap. exists (fd, e). split; [done|].
    by apply elem_of_map_to_list.
  - unfold names_descriptor. rewrite strtol_fd_name by lia.
    destruct (fd_name_head fd) as (c & s & -> & Hc); [lia|].
    rewrite Hc. simpl. by apply Z.leb_le.
  - apply strtol_fd_name. lia.
Qed.

Lemma markDescriptorsCloseOnExec_listed w :
  table_ok w → fd_dir w = true →
  ∃ w', markDescriptorsCloseOnExec w = Ret 0 w'
    ∧ quarantined (fdtab w')
    ∧ marked_from (fdtab w) (fdtab w')
    ∧ trace w' = trace w.
Proof.
  intros Hok Hdir. unfold markDescriptorsCloseOnExec, opendir_FD_DIR.
  unfold bind. rewrite Hdir.
  destruct (mark_entries_marks
              ("."%string :: ".."%string
                :: ((fun kv => fd_name kv.1) <$> map_to_list (fdtab w))) w)
    as (w' & E & Hmf & Hmax & Htr & Hall).
  { intros name Hin Hname. by apply listing_names_open. }
  exists w'. split; [done|]. split; [|done].
  intros fd e' He' Hfd.
  destruct (marked_from_flag _ _ _ _ Hmf He') as (e & He & _).
  destruct (listing_covers w fd e Hok He Hfd) as (Hin & Hname & Hstr).
  apply (Hall (fd_name fd)); [done | done | by rewrite Hstr].
Qed.

Lemma markDescriptorsCloseOnExec_unavailable w :
  fd_dir w = false →
  markDescriptorsCloseOnExec w = Ret (-1) (set_errno ENOENT w).
Proof.
  intros Hdir. unfold markDescriptorsCloseOnExec, opendir_FD_DIR, bind.
  by rewrite Hdir.
Qed.

(** On a table that lies inside the descriptor limit the quarantine
    goes through, with either strategy, and leaves every descriptor
    from [STDERR_FILENO + 1] on close-on-exec. *)
Lemma close_everything_marks :
  ∀ w, table_ok w →
    ∃ w', close_everything w = Ret false w'
      ∧ quarantined (fdtab w')
      ∧ marked_from (fdtab w) (fdtab w')
      ∧ trace w' = trace w
      ∧ (if fd_dir w
         then markDescriptorsCloseOnExec w = Ret 0 w'
         else markDescriptorsCloseOnExec w = Ret (-1) (set_errno ENOENT w)).
Proof.
  intros w Hok. unfold close_everything.
  destruct (fd_dir w) eqn:Hdir.
  - destruct (markDescriptorsCloseOnExec_listed w Hok Hdir)
      as (w' & E & Hq & Hmf & Htr).
    erewrite bind_Ret by exact E. simpl (0 =? -1). cbv iota.
    exists w'. done.
  - rewrite (bind_Ret _ _ _ _ _ (markDescriptorsCloseOnExec_unavailable w Hdir)).
    simpl (-1 =? -1). cbv iota. unfold sysconf_OPEN_MAX. unfold bind at 1.
    simpl open_max.
    destruct (scan_descriptors_marks
                (Z.to_nat (open_max w - (STDERR_FILENO + 1)))
                (STDERR_FILENO + 1) (set_errno ENOENT w))
      as (w' & E & Hmf & Hmax & Htr & Hall); [lia|].
    exists w'. split; [done|].
    split; [|split; [done|split;
                [done | by apply markDescriptorsCloseOnExec_unavailable]]].
    intros fd e' He' Hfd.
    destruct (marked_from_flag _ _ _ _ Hmf He') as (e & He & _).
    simpl in He. pose proof (Hok fd e He).
    apply (Hall fd); [lia | done].
Qed.
(** ** What the stages of [childProcess] leave alone *)

Ltac unfold_program :=
  unfold closeSafely, markCloseOnExec, markDescriptorsCloseOnExec,
    moveDescriptor, restartableDup2, writeFully,
    execve_as_traditional_shell_script, execve_with_shell_fallback,
    JDK_execvpe, or_failed, failed, WhyCantJohnnyExec, alive_ping,
    close_parent_sides, move_child_sides, close_everything, change_directory,
    reset_signal_mask, execve, execvp.

#[local] Hint Extern 5 (preserves _ _) => solve [leaf] : frame.
#[local] Hint Extern 1 (PreOrder _) => apply _ : frame.

Section Loops.
Context (R : relation World) `{!PreOrder R}.

Lemma preserves_RESTARTABLE fuel cmd :
  preserves R cmd → preserves R (RESTARTABLE fuel cmd).
Proof.
  intros Hcmd. induction fuel as [|fuel IH]; simpl.
  - intros w. simpl. reflexivity.
  - apply preserves_bind; [apply _ | done |]. intros r.
    apply preserves_bind; [apply _ | intros w; simpl; reflexivity |].
    intros e. destruct ((r =? -1) && (e =? EINTR)); [done|].
    apply preserves_ret, _.
Qed.

Lemma preserves_writeFully_loop fuel : ∀ fd buf nbyte remaining,
  (∀ fd buf n, preserves R (write fd buf n)) →
  preserves R (writeFully_loop fuel fd buf nbyte remaining).
Proof.
  induction fuel as [|fuel IH]; intros fd buf nbyte remaining Hw; simpl.
  - intros w. simpl. reflexivity.
  - apply preserves_bind; [apply _ | done |]. intros n.
    destruct (0 <? n).
    + destruct (remaining - n <=? 0); [apply preserves_ret, _ | by apply IH].
    + apply preserves_bind; [apply _ | intros w; simpl; reflexivity |].
      intros e. destruct ((n =? -1) && (e =? EINTR)); [by apply IH|].
      apply preserves_ret, _.
Qed.

Lemma preserves_mark_entries entries :
  (∀ fd, preserves R (markCloseOnExec fd)) →
  preserves R (mark_entries entries).
Proof.
  intros Hm. induction entries as [|name rest IH]; simpl.
  - apply preserves_ret, _.
  - case_match; [|done].
    apply preserves_bind; [apply _ | done |]. intros r.
    destruct (r =? -1); [apply preserves_ret, _ | done].
Qed.

Lemma preserves_scan_descriptors n : ∀ fd,
  (∀ fd, preserves R (markCloseOnExec fd)) →
  preserves R (scan_descriptors n fd).
Proof.
  induction n as [|n IH]; intros fd Hm; simpl.
  - apply preserves_ret, _.
  - apply preserves_bind; [apply _ | done |]. intros r.
    apply preserves_bind; [apply _ | intros w; simpl; reflexivity |].
    intros e. destruct ((r =? -1) && negb (e =? EBADF));
      [apply preserves_ret, _ | by apply IH].
Qed.

Lemma preserves_path_search mode file envp dirs : ∀ argv sticky,
  (∀ e, preserves R (put_errno e)) →
  (∀ path argv, preserves R (execve_with_shell_fallback mode path argv envp)) →
  preserves R (path_search mode file argv envp dirs sticky).
Proof.
  intros argv sticky Hp He. revert argv sticky.
  induction dirs as [|dir rest IH]; intros argv sticky; simpl.
  - apply preserves_bind; [apply _ | |intros; apply preserves_ret, _].
    destruct (negb (sticky =? 0)); [done | apply preserves_ret, _].
  - case_match.
    + apply preserves_bind; [apply _ | done | done].
    + apply preserves_bind; [apply _ | done |]. intros argv'.
      apply preserves_bind; [apply _ | intros w; simpl; reflexivity |].
      intros e. destruct (try_other_directories e); [done|].
      apply preserves_ret, _.
Qed.
End Loops.

#[local] Hint Resolve preserves_RESTARTABLE preserves_writeFully_loop
  preserves_mark_entries preserves_scan_descriptors preserves_path_search
  : frame.

Ltac frames :=
  repeat first [ progress unfold_program | progress frame ].

Lemma markCloseOnExec_silent fd : preserves silent (markCloseOnExec fd).
Proof. unfold silent. frames. Qed.
Lemma markCloseOnExec_mask_kept fd : preserves mask_kept (markCloseOnExec fd).
Proof. unfold mask_kept. frames. Qed.
Lemma markCloseOnExec_no_exec fd : preserves no_exec (markCloseOnExec fd).
Proof. unfold no_exec. frames. Qed.
#[local] Hint Resolve markCloseOnExec_silent markCloseOnExec_mask_kept
  markCloseOnExec_no_exec : frame.

Lemma execve_with_shell_fallback_silent mode path argv envp :
  preserves silent (execve_with_shell_fallback mode path argv envp).
Proof. unfold silent. frames. Qed.
Lemma execve_with_shell_fallback_mask_kept mode path argv envp :
  preserves mask_kept (execve_with_shell_fallback mode path argv envp).
Proof. unfold mask_kept. frames. Qed.
#[local] Hint Resolve execve_with_shell_fallback_silent
  execve_with_shell_fallback_mask_kept : frame.

Lemma close_parent_sides_silent p : preserves silent (close_parent_sides p).
Proof. unfold silent. frames. Qed.
Lemma move_child_sides_silent fuel p : preserves silent (move_child_sides fuel p).
Proof. unfold silent. frames. Qed.
Lemma close_everything_silent : preserves silent close_everything.
Proof. unfold silent. frames. Qed.
Lemma change_directory_silent p : preserves silent (change_directory p).
Proof. unfold silent. frames. Qed.
Lemma reset_signal_mask_silent p : preserves silent (reset_signal_mask p).
Proof. unfold silent. frames. Qed.
Lemma JDK_execvpe_silent mode file argv envp :
  preserves silent (JDK_execvpe mode file argv envp).
Proof.
  unfold JDK_execvpe.
  apply preserves_bind; [apply _ | unfold silent; frames |]. intros env.
  repeat case_match; [unfold silent; frames.. | |].
  - apply execve_with_shell_fallback_silent.
  - apply preserves_bind; [apply _ | unfold silent; frames |]. intros dirs.
    apply preserves_path_search; [apply _ | unfold silent; frames |].
    intros. apply execve_with_shell_fallback_silent.
Qed.

(** ** The stages return *)

(** An interrupted [dup2] has used up one scheduled answer. *)
Lemma dup2_interrupted fd_from fd_to w :
  ∃ r w', dup2 fd_from fd_to w = Ret r w' ∧ pending_le w w'
    ∧ (r = -1 → errno w' = EINTR →
       (length (pending w') < length (pending w))%nat).
Proof.
  unfold dup2, kernel_says, pending_le.
  destruct (pending w) as [|k q] eqn:Hq; simpl;
    repeat case_match; simplify_eq/=; eexists _, _;
    (split; [reflexivity|]); simpl; rewrite ?Hq; simpl;
    (split; [lia|]); intros; try lia; try done.
Qed.

Lemma RESTARTABLE_dup2_returns fd_from fd_to n : ∀ w,
  (length (pending w) < n)%nat →
  ∃ r w', RESTARTABLE n (dup2 fd_from fd_to) w = Ret r w' ∧ pending_le w w'.
Proof.
  induction n as [|n IH]; intros w Hw; [lia|]. simpl.
  destruct (dup2_interrupted fd_from fd_to w) as (r & w1 & E & Hle & Hint).
  erewrite bind_Ret by exact E. unfold get_errno at 1. unfold bind at 1.
  destruct (Z.eqb_spec r (-1)) as [->|Hr]; simpl;
    [destruct (Z.eqb_spec (errno w1) EINTR) as [He|He]|].
  - destruct (IH w1) as (a & w2 & E2 & Hle2);
      [specialize (Hint eq_refl He); lia|].
    exists a, w2. split; [done|]. unfold pending_le in *. lia.
  - by exists (-1), w1.
  - by exists r, w1.
Qed.

Lemma returning_restartableDup2 fuel fd_from fd_to :
  returning fuel (restartableDup2 fuel fd_from fd_to).
Proof. intros w Hw. by apply RESTARTABLE_dup2_returns. Qed.

Lemma returning_markCloseOnExec fuel fd : returning fuel (markCloseOnExec fd).
Proof. unfold markCloseOnExec. returns. Qed.
#[local] Hint Resolve returning_markCloseOnExec returning_restartableDup2
  : returns.

Lemma returning_mark_entries fuel entries : returning fuel (mark_entries entries).
Proof. induction entries as [|name rest IH]; simpl; returns. Qed.

Lemma returning_scan_descriptors fuel n : ∀ fd,
  returning fuel (scan_descriptors n fd).
Proof. induction n as [|n IH]; intros fd; simpl; returns. Qed.
#[local] Hint Resolve returning_mark_entries returning_scan_descriptors
  : returns.

Ltac stage_returns :=
  repeat first [ progress unfold_program | progress returns ].

Lemma returning_close_parent_sides fuel p :
  returning fuel (close_parent_sides p).
Proof. stage_returns. Qed.

Lemma returning_move_child_sides fuel p :
  returning fuel (move_child_sides fuel p).
Proof. stage_returns. Qed.

Lemma returning_close_everything fuel : returning fuel close_everything.
Proof. stage_returns. Qed.

Lemma returning_change_directory fuel p : returning fuel (change_directory p).
Proof. stage_returns. Qed.

Lemma returning_reset_signal_mask fuel p : returning fuel (reset_signal_mask p).
Proof. stage_returns. Qed.

(** ** The failure channel *)

(** Whatever the kernel answers, [writeFully] returns, having written
    a prefix of the bytes at the pointer: all of them when it returns
    [nbyte], and otherwise it returns -1. *)
Lemma writeFully_loop_writes_prefix fd nbyte fuel : ∀ w buf remaining,
  0 < remaining ≤ Z.of_nat (length buf) →
  (length (pending w) < fuel)%nat →
  ∃ r w' k,
    writeFully_loop fuel fd buf nbyte remaining w = Ret r w'
    ∧ pending_le w w'
    ∧ (k ≤ Z.to_nat remaining)%nat
    ∧ wire (trace w') = wire (trace w) ++ take k buf
    ∧ (r = nbyte ∧ k = Z.to_nat remaining ∨ r = -1).
Proof.
  induction fuel as [|fuel IH]; intros w buf remaining Hrem Hfuel; [lia|].
  simpl writeFully_loop.
  destruct (fdtab w !! fd) as [e|] eqn:He.
  2:{ destruct (write_closed fd buf remaining w He) as (w1 & E & Herr & Hw & Hp).
      erewrite bind_Ret by exact E. simpl (0 <? -1).
      unfold get_errno at 1. unfold bind at 1. simpl. rewrite Herr. simpl.
      exists (-1), w1, 0%nat. split; [done|]. split; [done|]. split; [lia|].
      rewrite Hw, take_0, app_nil_r. auto. }
  pose proof (write_cases fd buf remaining w ltac:(eauto) ltac:(lia)) as Hw.
  unfold pending_le.
  destruct (pending w) as [|[|er|j] q] eqn:Hq.
  - erewrite bind_Ret by exact Hw.
    assert ((0 <? remaining) = true) as -> by lia.
    assert ((remaining - remaining <=? 0) = true) as -> by lia.
    eexists _, _, (Z.to_nat remaining). split; [done|]. simpl.
    rewrite Hq. split; [done|]. split; [done|].
    rewrite wire_app. simpl. rewrite app_nil_r. auto.
  - erewrite bind_Ret by exact Hw.
    assert ((0 <? remaining) = true) as -> by lia.
    assert ((remaining - remaining <=? 0) = true) as -> by lia.
    eexists _, _, (Z.to_nat remaining). split; [done|]. simpl.
    split; [lia|]. split; [done|].
    rewrite wire_app. simpl. rewrite app_nil_r. auto.
  - erewrite bind_Ret by exact Hw. simpl (0 <? -1).
    unfold get_errno at 1. unfold bind at 1. simpl.
    destruct (Z.eqb_spec er EINTR) as [->|Hne].
    + destruct (IH (set_errno EINTR (log (EvWrite fd []) (set_pending q w)))
                  buf remaining) as (r & w' & k & E & Hle & Hk & Hwire & Hres);
        [done | simpl in *; lia |].
      exists r, w', k. split; [done|]. unfold pending_le in Hle. simpl in Hle.
      split; [lia|]. split; [done|]. split; [|done].
      rewrite Hwire. simpl. rewrite wire_app. simpl. by rewrite app_nil_r.
    + eexists (-1), _, 0%nat. split; [done|]. simpl. split; [lia|].
      split; [lia|]. rewrite wire_app, take_0. simpl. auto.
  - erewrite bind_Ret by exact Hw.
    set (n := (j `min` Z.to_nat remaining)%nat) in *.
    assert (Z.of_nat j `min` remaining = Z.of_nat n) as Hn by lia.
    rewrite Hn.
    destruct (Z.ltb_spec 0 (Z.of_nat n)) as [Hpos|Hzero].
    + destruct (Z.leb_spec (remaining - Z.of_nat n) 0) as [Hle|Hgt].
      * eexists _, _, n. split; [done|]. simpl. split; [lia|]. split; [lia|].
        rewrite wire_app. simpl. rewrite app_nil_r. split; [done|].
        left. split; [done | lia].
      * rewrite Nat2Z.id.
        destruct (IH (log (EvWrite fd (take n buf)) (set_pending q w))
                    (drop n buf) (remaining - Z.of_nat n))
          as (r & w' & k & E & Hle & Hk & Hwire & Hres);
          [rewrite length_drop; lia | simpl in *; lia |].
        exists r, w', (n + k)%nat. split; [done|].
        unfold pending_le in Hle. simpl in Hle.
        split; [simpl; lia|]. split; [lia|].
        split.
        -- rewrite Hwire. simpl. rewrite wire_app. simpl.
           by rewrite app_nil_r, <- app_assoc, take_take_drop.
        -- destruct Hres as [[-> ->]| ->]; [left; split; [done|lia] | by right].
    + unfold get_errno, bind.
      assert ((Z.of_nat n =? -1) = false) as -> by lia. simpl.
      eexists (-1), _, 0%nat. split; [done|]. simpl. split; [lia|].
      split; [lia|]. rewrite wire_app. simpl.
      replace n with 0%nat by lia. rewrite !take_0. auto.
Qed.

Lemma length_int_bytes v : length (int_bytes v) = 4%nat.
Proof. reflexivity. Qed.

(** The alive ping goes on only when the whole sentinel is out. *)
Lemma alive_ping_outcome fuel p w :
  (length (pending w) < fuel)%nat →
  ∃ x w' A,
    alive_ping fuel p w = Ret x w'
    ∧ pending_le w w'
    ∧ wire (trace w') = wire (trace w) ++ A
    ∧ A `prefix_of` ping p
    ∧ (x = false → A = ping p).
Proof.
  intros Hf. unfold alive_ping, ping. destruct (sendAlivePing p).
  - destruct (writeFully_loop_writes_prefix (fail1 p) sizeof_int fuel w
                (int_bytes CHILD_IS_ALIVE) sizeof_int)
      as (r & w' & k & E & Hle & Hk & Hwire & Hres);
      [rewrite length_int_bytes; unfold sizeof_int; lia | done |].
    unfold writeFully. erewrite bind_Ret by exact E.
    eexists _, w', _. split; [done|]. split; [done|]. split; [done|].
    split; [apply prefix_take|].
    destruct Hres as [[-> ->]| ->]; [|done]. intros _.
    apply take_ge. rewrite length_int_bytes. unfold sizeof_int. lia.
  - exists false, w, []. split; [done|]. split; [reflexivity|].
    by rewrite app_nil_r.
Qed.

(** The failure tail: one [writeFully] of the captured [errno], whose
    result is not looked at, then [close], then [_exit(-1)]. *)
Lemma WhyCantJohnnyExec_outcome fuel fd w :
  (length (pending w) < fuel)%nat →
  ∃ w' E t,
    WhyCantJohnnyExec fuel fd w = Exited (-1) w'
    ∧ wire (trace w') = wire (trace w) ++ E
    ∧ E `prefix_of` int_bytes (errno w)
    ∧ trace w' = t ++ [EvClose fd; EvExit (-1)]
    ∧ fdtab w' !! fd = None.
Proof.
  intros Hf. unfold WhyCantJohnnyExec, writeFully.
  unfold get_errno at 1. unfold bind at 1.
  destruct (writeFully_loop_writes_prefix fd sizeof_int fuel w
              (int_bytes (errno w)) sizeof_int)
    as (r & w1 & k & E & Hle & Hk & Hwire & Hres);
    [rewrite length_int_bytes; unfold sizeof_int; lia | done |].
  erewrite bind_Ret by exact E.
  assert (∃ c w2, close fd w1 = Ret c w2
                  ∧ trace w2 = trace w1 ++ [EvClose fd]
                  ∧ fdtab w2 !! fd = None) as (c & w2 & Ec & Htr & Hfd).
  { unfold close, kernel_says.
    destruct (pending w1); simpl; destruct (fdtab w1 !! fd) eqn:Hx;
      repeat case_match; eexists _, _; (split; [done|]); simpl;
      rewrite ?lookup_delete_eq; done. }
  erewrite bind_Ret by exact Ec. unfold _exit, bind.
  eexists _, (take k (int_bytes (errno w))), (trace w1).
  split; [done|]. simpl. rewrite Htr, <- app_assoc. simpl.
  rewrite !wire_app. simpl. rewrite !app_nil_r.
  split; [done|]. split; [apply prefix_take|]. done.
Qed.

(** When the kernel takes the write, what goes out is the whole
    integer. *)
Lemma WhyCantJohnnyExec_reports fuel fd w :
  is_Some (fdtab w !! fd) →
  Forall interrupts_or_progresses (pending w) →
  (length (pending w) < fuel)%nat →
  ∃ w', WhyCantJohnnyExec fuel fd w = Exited (-1) w'
        ∧ wire (trace w') = wire (trace w) ++ int_bytes (errno w).
Proof.
  intros Hopen Hs Hf. unfold WhyCantJohnnyExec, writeFully.
  unfold get_errno at 1. unfold bind at 1.
  destruct (writeFully_loop_transfers fd sizeof_int fuel w
              (int_bytes (errno w)) sizeof_int Hopen Hs)
    as (w1 & E & _ & Hwire & _);
    [rewrite length_int_bytes; unfold sizeof_int; lia | done |].
  erewrite bind_Ret by exact E.
  assert (∃ c w2, close fd w1 = Ret c w2 ∧ wire (trace w2) = wire (trace w1))
    as (c & w2 & Ec & Htr).
  { unfold close, kernel_says.
    destruct (pending w1); simpl; destruct (fdtab w1 !! fd) eqn:Hx;
      repeat case_match; eexists _, _; (split; [done|]); simpl;
      rewrite wire_app; simpl; by rewrite app_nil_r. }
  erewrite bind_Ret by exact Ec. unfold _exit, bind.
  eexists. split; [done|]. simpl. rewrite wire_app. simpl.
  rewrite app_nil_r, Htr, Hwire. done.
Qed.

(** ** The outcome of a launch *)

Ltac execish_leaf :=
  let w := fresh "w" in
  intros w; unfold_calls; repeat case_match; done.

Lemma execish_exec_call prim path argv envp :
  execish (exec_call prim path argv envp).
Proof. execish_leaf. Qed.

Lemma execish_execve_with_shell_fallback mode path argv envp :
  execish (execve_with_shell_fallback mode path argv envp).
Proof.
  unfold execve_with_shell_fallback, execve_as_traditional_shell_script,
    execve, execvp.
  repeat first
    [ progress intros
    | apply execish_ret
    | apply execish_bind
    | apply execish_exec_call
    | match goal with |- execish (if ?b then _ else _) => destruct b end
    | solve [execish_leaf] ].
Qed.

Lemma execish_path_search mode file envp dirs : ∀ argv sticky,
  execish (path_search mode file argv envp dirs sticky).
Proof.
  induction dirs as [|dir rest IH]; intros argv sticky; simpl.
  - apply execish_bind; [|intros; apply execish_ret].
    destruct (negb (sticky =? 0)); [execish_leaf | apply execish_ret].
  - case_match.
    + apply execish_bind; [execish_leaf | done].
    + apply execish_bind; [apply execish_execve_with_shell_fallback|].
      intros argv'. apply execish_bind; [execish_leaf|]. intros e.
      destruct (try_other_directories e); [done | apply execish_ret].
Qed.

Lemma execish_JDK_execvpe mode file argv envp :
  execish (JDK_execvpe mode file argv envp).
Proof.
  unfold JDK_execvpe, execvp.
  apply execish_bind; [execish_leaf|]. intros env.
  repeat case_match.
  - apply execish_bind; [|intros; apply execish_ret].
    apply execish_bind; [execish_leaf | intros; apply execish_exec_call].
  - apply execish_bind; [execish_leaf | intros; apply execish_ret].
  - apply execish_execve_with_shell_fallback.
  - apply execish_bind; [execish_leaf|]. intros dirs.
    apply execish_path_search.
Qed.

Lemma execve_with_shell_fallback_pending_le mode path argv envp :
  preserves pending_le (execve_with_shell_fallback mode path argv envp).
Proof. frames. Qed.
#[local] Hint Resolve execve_with_shell_fallback_pending_le : frame.

Lemma JDK_execvpe_pending_le mode file argv envp :
  preserves pending_le (JDK_execvpe mode file argv envp).
Proof.
  unfold JDK_execvpe.
  apply preserves_bind; [apply _ | frames |]. intros env.
  repeat case_match; [frames.. | |].
  - apply execve_with_shell_fallback_pending_le.
  - apply preserves_bind; [apply _ | frames |]. intros dirs.
    apply preserves_path_search; [apply _ | frames |].
    intros. apply execve_with_shell_fallback_pending_le.
Qed.

Lemma bind_Replaced {A B} (m : M A) (k : A → M B) w w1 :
  m w = Replaced w1 → bind m k w = Replaced w1.
Proof. unfold bind. by intros ->. Qed.

(** ** A launch that replaces the image went through every stage *)

Lemma no_image_ret {A} (a : A) : no_image (ret a).
Proof. by intros w. Qed.

Lemma no_image_bind {A B} (m : M A) (k : A → M B) :
  no_image m → (∀ a, no_image (k a)) → no_image (bind m k).
Proof.
  intros Hm Hk w. unfold bind. specialize (Hm w).
  destruct (m w); try done. apply Hk.
Qed.

Lemma bind_Replaced_inv {A B} (m : M A) (k : A → M B) w w' :
  no_image m → bind m k w = Replaced w' →
  ∃ a w1, m w = Ret a w1 ∧ k a w1 = Replaced w'.
Proof.
  intros Hm. unfold bind. specialize (Hm w).
  destruct (m w) as [a w1| | |]; try done. eauto.
Qed.

Ltac no_image_leaf :=
  let w := fresh "w" in
  intros w; unfold_calls; repeat case_match; done.

Lemma no_image_RESTARTABLE fuel cmd :
  no_image cmd → no_image (RESTARTABLE fuel cmd).
Proof.
  intros Hcmd. induction fuel as [|fuel IH]; simpl; [by intros w|].
  apply no_image_bind; [done|]. intros r.
  apply no_image_bind; [by intros w|]. intros e.
  destruct ((r =? -1) && (e =? EINTR)); [done | apply no_image_ret].
Qed.

Lemma no_image_writeFully_loop fuel : ∀ fd buf nbyte remaining,
  no_image (writeFully_loop fuel fd buf nbyte remaining).
Proof.
  induction fuel as [|fuel IH]; intros fd buf nbyte remaining; simpl;
    [by intros w|].
  apply no_image_bind; [no_image_leaf|]. intros n.
  destruct (0 <? n).
  - destruct (remaining - n <=? 0); [apply no_image_ret | apply IH].
  - apply no_image_bind; [by intros w|]. intros e.
    destruct ((n =? -1) && (e =? EINTR)); [apply IH | apply no_image_ret].
Qed.

Lemma no_image_markCloseOnExec fd : no_image (markCloseOnExec fd).
Proof. unfold markCloseOnExec. no_image_leaf. Qed.

Lemma no_image_mark_entries entries : no_image (mark_entries entries).
Proof.
  induction entries as [|name rest IH]; simpl; [apply no_image_ret|].
  case_match; [|done].
  apply no_image_bind; [apply no_image_markCloseOnExec|]. intros r.
  destruct (r =? -1); [apply no_image_ret | done].
Qed.

Lemma no_image_scan_descriptors n : ∀ fd, no_image (scan_descriptors n fd).
Proof.
  induction n as [|n IH]; intros fd; simpl; [apply no_image_ret|].
  apply no_image_bind; [apply no_image_markCloseOnExec|]. intros r.
  apply no_image_bind; [by intros w|]. intros e.
  destruct ((r =? -1) && negb (e =? EBADF)); [apply no_image_ret | apply IH].
Qed.

Ltac no_images :=
  repeat first
    [ progress intros
    | progress unfold_program
    | apply no_image_ret
    | apply no_image_bind
    | apply no_image_RESTARTABLE
    | apply no_image_writeFully_loop
    | apply no_image_markCloseOnExec
    | apply no_image_mark_entries
    | apply no_image_scan_descriptors
    | match goal with
      | |- no_image (if ?b then _ else _) => destruct b
      | |- no_image (match ?x with _ => _ end) => destruct x
      end
    | solve [no_image_leaf] ].

Lemma no_image_alive_ping fuel p : no_image (alive_ping fuel p).
Proof. no_images. Qed.
Lemma no_image_close_parent_sides p : no_image (close_parent_sides p).
Proof. no_images. Qed.
Lemma no_image_move_child_sides fuel p : no_image (move_child_sides fuel p).
Proof. no_images. Qed.
Lemma no_image_close_everything : no_image close_everything.
Proof. no_images. Qed.
Lemma no_image_change_directory p : no_image (change_directory p).
Proof. no_images. Qed.
Lemma no_image_reset_signal_mask p : no_image (reset_signal_mask p).
Proof. no_images. Qed.
Lemma no_image_WhyCantJohnnyExec fuel fd : no_image (WhyCantJohnnyExec fuel fd).
Proof. no_images. Qed.

(** The stages of a launch that ended in the new program image. *)
Lemma childProcess_Replaced_inv fuel p w w' :
  childProcess fuel p w = Replaced w' →
  ∃ w1 w2 w3 w4 w5 w6,
    alive_ping fuel p w = Ret false w1
    ∧ close_parent_sides p w1 = Ret false w2
    ∧ move_child_sides fuel p w2 = Ret false w3
    ∧ close_everything w3 = Ret false w4
    ∧ change_directory p w4 = Ret false w5
    ∧ reset_signal_mask p w5 = Ret tt w6
    ∧ JDK_execvpe (mode p) (argv_0 p) (argv p) (envv p) w6 = Replaced w'.
Proof.
  unfold childProcess. intros H.
  pose proof (no_image_WhyCantJohnnyExec fuel) as Htail.
  assert (Hno : ∀ fd w0 w'', WhyCantJohnnyExec fuel fd w0 ≠ Replaced w'').
  { intros fd w0 w'' E. specialize (Htail fd w0). by rewrite E in Htail. }
  apply bind_Replaced_inv in H as ([|] & w1 & E1 & H);
    [by apply Hno in H | | apply no_image_alive_ping].
  apply bind_Replaced_inv in H as ([|] & w2 & E2 & H);
    [by apply Hno in H | | apply no_image_close_parent_sides].
  apply bind_Replaced_inv in H as ([|] & w3 & E3 & H);
    [by apply Hno in H | | apply no_image_move_child_sides].
  apply bind_Replaced_inv in H as ([|] & w4 & E4 & H);
    [by apply Hno in H | | apply no_image_close_everything].
  apply bind_Replaced_inv in H as ([|] & w5 & E5 & H);
    [by apply Hno in H | | apply no_image_change_directory].
  apply bind_Replaced_inv in H as ([] & w6 & E6 & H);
    [| apply no_image_reset_signal_mask].
  exists w1, w2, w3, w4, w5, w6. do 6 (split; [done|]).
  unfold bind in H.
  destruct (JDK_execvpe (mode p) (argv_0 p) (argv p) (envv p) w6)
    as [a w7|w7| |]; try done; [by apply Hno in H | congruence].
Qed.

(** ** The signal mask *)

Lemma alive_ping_mask_kept fuel p : preserves mask_kept (alive_ping fuel p).
Proof. unfold mask_kept. frames. Qed.
Lemma close_parent_sides_mask_kept p : preserves mask_kept (close_parent_sides p).
Proof. unfold mask_kept. frames. Qed.
Lemma move_child_sides_mask_kept fuel p :
  preserves mask_kept (move_child_sides fuel p).
Proof. unfold mask_kept. frames. Qed.
Lemma close_everything_mask_kept : preserves mask_kept close_everything.
Proof. unfold mask_kept. frames. Qed.
Lemma change_directory_mask_kept p : preserves mask_kept (change_directory p).
Proof. unfold mask_kept. frames. Qed.
Lemma WhyCantJohnnyExec_mask_kept fuel fd :
  preserves mask_kept (WhyCantJohnnyExec fuel fd).
Proof. unfold mask_kept. frames. Qed.

Lemma JDK_execvpe_mask_kept mode file argv envp :
  preserves mask_kept (JDK_execvpe mode file argv envp).
Proof.
  unfold JDK_execvpe.
  apply preserves_bind; [apply _ | unfold mask_kept; frames |]. intros env.
  repeat case_match; [unfold mask_kept; frames.. | |].
  - apply execve_with_shell_fallback_mask_kept.
  - apply preserves_bind; [apply _ | unfold mask_kept; frames |]. intros dirs.
    apply preserves_path_search; [apply _ | unfold mask_kept; frames |].
    intros. apply execve_with_shell_fallback_mask_kept.
Qed.

Lemma alive_ping_no_exec fuel p : preserves no_exec (alive_ping fuel p).
Proof. unfold no_exec. frames. Qed.
Lemma close_parent_sides_no_exec p : preserves no_exec (close_parent_sides p).
Proof. unfold no_exec. frames. Qed.
Lemma move_child_sides_no_exec fuel p :
  preserves no_exec (move_child_sides fuel p).
Proof. unfold no_exec. frames. Qed.
Lemma close_everything_no_exec : preserves no_exec close_everything.
Proof. unfold no_exec. frames. Qed.
Lemma change_directory_no_exec p : preserves no_exec (change_directory p).
Proof. unfold no_exec. frames. Qed.
Lemma reset_signal_mask_no_exec p : preserves no_exec (reset_signal_mask p).
Proof. unfold no_exec. frames. Qed.
Lemma WhyCantJohnnyExec_no_exec fuel fd :
  preserves no_exec (WhyCantJohnnyExec fuel fd).
Proof. unfold no_exec. frames. Qed.

Lemma reset_signal_mask_spec p w :
  reset_signal_mask p w =
    Ret tt (if mode p =? MODE_VFORK then w
            else set_sigmask [] (log (EvSigSetMask []) w)).
Proof. unfold reset_signal_mask. by destruct (mode p =? MODE_VFORK). Qed.

Lemma bind_cases {A B} (m : M A) (k : A → M B) w :
  (∃ a w1, m w = Ret a w1 ∧ bind m k w = k a w1)
  ∨ final (bind m k w) = final (m w).
Proof. unfold bind. destruct (m w); eauto. Qed.

(** A stage that attempts no exec either hands over to the next one
    or ends the run with no attempt made. *)
Ltac no_exec_stage Hframe x w1 E N :=
  match goal with
  | H : exec_attempts (trace (final (bind ?m ?k ?w))) ≠ _ |- _ =>
      pose proof (Hframe w) as N; unfold no_exec, kept in N;
      let Eb := fresh "Eb" in
      destruct (bind_cases m k w) as [(x & w1 & E & Eb) | Eb];
      rewrite Eb in *; clear Eb;
      [rewrite E in N; simpl in N | congruence]
  end.

(** C9: the signal mask is reset exactly in the modes other than
    MODE_VFORK.  In MODE_VFORK no run of [childProcess] changes the
    mask, however it ends; in any other mode the mask is empty by the
    time an exec is attempted, so the new program image starts with
    nothing blocked. *)
Theorem signal_mask_reset_unless_vfork :
  (∀ p w,
     reset_signal_mask p w =
       Ret tt (if mode p =? MODE_VFORK then w
               else set_sigmask [] (log (EvSigSetMask []) w)))
  ∧ (∀ fuel p w,
       mode p = MODE_VFORK →
       sigmask (final (childProcess fuel p w)) = sigmask w)
  ∧ (∀ fuel p w,
       mode p ≠ MODE_VFORK →
       exec_attempts (trace (final (childProcess fuel p w)))
         ≠ exec_attempts (trace w) →
       sigmask (final (childProcess fuel p w)) = [])
  ∧ (∀ fuel p w w',
       mode p ≠ MODE_VFORK →
       childProcess fuel p w = Replaced w' → sigmask w' = []).
Proof.
  split; [exact reset_signal_mask_spec|]. split; [|split].
  - intros fuel p w Hmode.
    assert (preserves mask_kept (childProcess fuel p)) as H; [|apply H].
    unfold childProcess, reset_signal_mask. rewrite Hmode, Z.eqb_refl.
    cbn [negb].
    pose proof alive_ping_mask_kept. pose proof close_parent_sides_mask_kept.
    pose proof move_child_sides_mask_kept. pose proof close_everything_mask_kept.
    pose proof change_directory_mask_kept. pose proof WhyCantJohnnyExec_mask_kept.
    pose proof JDK_execvpe_mask_kept.
    repeat first
      [ progress intros
      | match goal with H : _ |- _ => solve [apply H] end
      | apply preserves_ret; apply _
      | apply preserves_bind; [apply _ | |]
      | match goal with
        | |- preserves _ (if ?b then _ else _) => destruct b
        end ].
  - intros fuel p w Hmode Hexec. unfold childProcess in *. cbv zeta in *.
    no_exec_stage (alive_ping_no_exec fuel p) x1 w1 E1 N1.
    destruct x1.
    { pose proof (WhyCantJohnnyExec_no_exec fuel (fail1 p) w1) as T.
      unfold no_exec, kept in T. congruence. }
    no_exec_stage (close_parent_sides_no_exec p) x2 w2 E2 N2.
    destruct x2.
    { pose proof (WhyCantJohnnyExec_no_exec fuel (fail1 p) w2) as T.
      unfold no_exec, kept in T. congruence. }
    no_exec_stage (move_child_sides_no_exec fuel p) x3 w3 E3 N3.
    destruct x3.
    { pose proof (WhyCantJohnnyExec_no_exec fuel (fail1 p) w3) as T.
      unfold no_exec, kept in T. congruence. }
    no_exec_stage close_everything_no_exec x4 w4 E4 N4.
    destruct x4.
    { pose proof (WhyCantJohnnyExec_no_exec fuel FAIL_FILENO w4) as T.
      unfold no_exec, kept in T. congruence. }
    no_exec_stage (change_directory_no_exec p) x5 w5 E5 N5.
    destruct x5.
    { pose proof (WhyCantJohnnyExec_no_exec fuel FAIL_FILENO w5) as T.
      unfold no_exec, kept in T. congruence. }
    rewrite (bind_Ret _ _ _ _ _ (reset_signal_mask_spec p w5)).
    rewrite (proj2 (Z.eqb_neq _ _) Hmode).
    assert (preserves mask_kept
              (JDK_execvpe (mode p) (argv_0 p) (argv p) (envv p) ;;;
               WhyCantJohnnyExec fuel FAIL_FILENO)) as H.
    { apply preserves_bind; [apply _ | apply JDK_execvpe_mask_kept |].
      intros. apply WhyCantJohnnyExec_mask_kept. }
    rewrite (H _). done.
  - intros fuel p w w' Hmode H.
    apply childProcess_Replaced_inv in H
      as (w1 & w2 & w3 & w4 & w5 & w6 & _ & _ & _ & _ & _ & E6 & E7).
    rewrite reset_signal_mask_spec, (proj2 (Z.eqb_neq _ _) Hmode) in E6.
    injection E6 as <-.
    pose proof (JDK_execvpe_mask_kept (mode p) (argv_0 p) (argv p) (envv p)
                  (set_sigmask [] (log (EvSigSetMask []) w5))) as K.
    rewrite E7 in K. exact K.
Qed.

(** ** What the new program image inherits *)

#[local] Instance within_limit_preorder : PreOrder within_limit.
Proof.
  split; [by split|].
  intros x y z [H1 H2] [H3 H4]. split; [congruence | auto].
Qed.

Lemma within_limit_of_kept {A} (m : M A) :
  preserves (kept (fun w => (fdtab w, open_max w))) m →
  preserves within_limit m.
Proof.
  intros H w. specialize (H w). unfold kept in H.
  injection H as Ht Hm. split; [done|].
  intros Hok fd e. rewrite Ht, Hm. apply Hok.
Qed.

Lemma close_within_limit fd : preserves within_limit (close fd).
Proof.
  intros w. unfold close, kernel_says.
  repeat case_match; simplify_eq/=; (split; [done|]);
    intros Hok fd' ent Hent; simpl in *; try (by apply (Hok fd' ent));
    (destruct (decide (fd = fd')) as [->|Hne];
       [by rewrite lookup_delete_eq in Hent
       | rewrite lookup_delete_ne in Hent by done; by apply (Hok fd' ent)]).
Qed.

Lemma dup2_within_limit fd_from fd_to : preserves within_limit (dup2 fd_from fd_to).
Proof.
  intros w. unfold dup2, kernel_says.
  repeat case_match; simplify_eq/=; (split; [done|]);
    intros Hok fd' ent Hent; simpl in *; try (by apply (Hok fd' ent));
    (destruct (decide (fd_to = fd')) as [->|Hne];
       [lia | rewrite lookup_insert_ne in Hent by done; by apply (Hok fd' ent)]).
Qed.

#[local] Hint Resolve close_within_limit dup2_within_limit : frame.
#[local] Hint Extern 6 (preserves within_limit _) =>
  (apply within_limit_of_kept; solve [leaf]) : frame.

Lemma alive_ping_within_limit fuel p : preserves within_limit (alive_ping fuel p).
Proof. apply within_limit_of_kept. frames. Qed.
Lemma close_parent_sides_within_limit p :
  preserves within_limit (close_parent_sides p).
Proof. frames. Qed.
Lemma move_child_sides_within_limit fuel p :
  preserves within_limit (move_child_sides fuel p).
Proof. frames. Qed.

Lemma change_directory_keeps_table p : preserves (kept fdtab) (change_directory p).
Proof. frames. Qed.
Lemma reset_signal_mask_keeps_table p :
  preserves (kept fdtab) (reset_signal_mask p).
Proof. frames. Qed.

Lemma hands_over_ret {A} (a : A) : hands_over (ret a).
Proof. by intros w. Qed.

Lemma hands_over_bind {A B} (m : M A) (k : A → M B) :
  hands_over m → (∀ a, hands_over (k a)) → hands_over (bind m k).
Proof.
  intros Hm Hk w. unfold bind. specialize (Hm w).
  destruct (m w) as [a w1| | |]; try done.
  specialize (Hk a w1). rewrite Hm in Hk. exact Hk.
Qed.

Ltac hands_over_leaf :=
  let w := fresh "w" in
  intros w; unfold_calls; repeat case_match; simplify_eq/=; done.

Lemma hands_over_exec_call prim path argv envp :
  hands_over (exec_call prim path argv envp).
Proof. hands_over_leaf. Qed.

Lemma hands_over_execve_with_shell_fallback mode path argv envp :
  hands_over (execve_with_shell_fallback mode path argv envp).
Proof.
  unfold execve_with_shell_fallback, execve_as_traditional_shell_script,
    execve, execvp.
  repeat first
    [ progress intros
    | apply hands_over_ret
    | apply hands_over_bind
    | apply hands_over_exec_call
    | match goal with |- hands_over (if ?b then _ else _) => destruct b end
    | solve [hands_over_leaf] ].
Qed.

Lemma hands_over_path_search mode file envp dirs : ∀ argv sticky,
  hands_over (path_search mode file argv envp dirs sticky).
Proof.
  induction dirs as [|dir rest IH]; intros argv sticky; simpl.
  - apply hands_over_bind; [|intros; apply hands_over_ret].
    destruct (negb (sticky =? 0)); [hands_over_leaf | apply hands_over_ret].
  - case_match.
    + apply hands_over_bind; [hands_over_leaf | done].
    + apply hands_over_bind; [apply hands_over_execve_with_shell_fallback|].
      intros argv'. apply hands_over_bind; [hands_over_leaf|]. intros e.
      destruct (try_other_directories e); [done | apply hands_over_ret].
Qed.

Lemma hands_over_JDK_execvpe mode file argv envp :
  hands_over (JDK_execvpe mode file argv envp).
Proof.
  unfold JDK_execvpe, execvp.
  apply hands_over_bind; [hands_over_leaf|]. intros env.
  repeat case_match.
  - apply hands_over_bind; [|intros; apply hands_over_ret].
    apply hands_over_bind; [hands_over_leaf | intros; apply hands_over_exec_call].
  - apply hands_over_bind; [hands_over_leaf | intros; apply hands_over_ret].
  - apply hands_over_execve_with_shell_fallback.
  - apply hands_over_bind; [hands_over_leaf|]. intros dirs.
    apply hands_over_path_search.
Qed.
(** ** Vectors from blocks: [initVectorFromBlock] *)

Lemma skip_string_over s : ∀ rest p,
  strchr s zero = false →
  skip_string (list_ascii_of_string s ++ zero :: rest) p
    = Some (p + S (String.length s))%nat.
Proof.
  induction s as [|c s IH]; intros rest p Hs; simpl.
  - f_equal. lia.
  - simpl in Hs. rewrite Ascii.eqb_sym.
    destruct (Ascii.eqb zero c) eqn:Hc.
    + apply Ascii.eqb_eq in Hc. subst c. simpl in Hs. done.
    + assert (strchr s zero = false) as Hs'.
      { destruct (Ascii.eqb c zero); [done | exact Hs]. }
      rewrite IH by done. f_equal. lia.
Qed.

Lemma c_string_over s : ∀ rest,
  strchr s zero = false →
  c_string (list_ascii_of_string s ++ zero :: rest) = Some s.
Proof.
  induction s as [|c s IH]; intros rest Hs; simpl; [done|].
  simpl in Hs. destruct (Ascii.eqb c zero); [done|].
  by rewrite IH.
Qed.

Lemma length_list_ascii_of_string s :
  length (list_ascii_of_string s) = String.length s.
Proof. induction s as [|c s IH]; simpl; [done | by rewrite IH]. Qed.

(** The loop over a block that holds the strings [strs] at [p]. *)
Lemma initVector_loop_block_of strs : ∀ pre rest vector i,
  Forall (fun s => strchr s zero = false) strs →
  (i + length strs < length vector)%nat →
  initVector_loop (length strs) vector (pre ++ block_of strs ++ rest) i (length pre)
    = Some (take i vector ++ (Some <$> starts_from (length pre) strs)
              ++ None :: drop (S (i + length strs)) vector).
Proof.
  induction strs as [|s strs IH]; intros pre rest vector i Hnul Hlen; simpl.
  - simpl in Hlen. rewrite decide_True by lia. f_equal.
    rewrite Nat.add_0_r. by rewrite insert_take_drop by lia.
  - simpl in Hlen. rewrite decide_True by lia.
    apply Forall_cons in Hnul as [Hs Hnul].
    rewrite drop_app_length. rewrite <- !app_assoc. simpl.
    rewrite skip_string_over by done.
    specialize (IH (pre ++ list_ascii_of_string s ++ [zero]) rest
                   (<[i := Some (length pre)]> vector) (S i) Hnul).
    rewrite !length_app, length_list_ascii_of_string in IH. simpl in IH.
    rewrite <- !app_assoc in IH. simpl in IH.
    replace (length pre + (String.length s + 1))%nat
      with (length pre + S (String.length s))%nat in IH by lia.
    rewrite IH by (rewrite length_insert; lia).
    f_equal. rewrite drop_insert_lt by lia.
    rewrite (take_S_r _ _ (Some (length pre)))
      by (apply list_lookup_insert_eq; lia).
    rewrite take_insert_ge by lia.
    rewrite <- !app_assoc. csimpl.
    by replace (S (i + S (length strs))) with (S (S (i + length strs))) by lia.
Qed.

Lemma vec_of_starts strs : ∀ pre rest,
  Forall (fun s => strchr s zero = false) strs →
  vec_of (pre ++ block_of strs ++ rest) (Some <$> starts_from (length pre) strs)
    = Some <$> strs.
Proof.
  induction strs as [|s strs IH]; intros pre rest Hnul; [done|].
  apply Forall_cons in Hnul as [Hs Hnul].
  specialize (IH (pre ++ list_ascii_of_string s ++ [zero]) rest Hnul).
  rewrite !length_app, length_list_ascii_of_string in IH. simpl in IH.
  rewrite <- !app_assoc in IH. simpl in IH.
  replace (length pre + (String.length s + 1))%nat
    with (length pre + S (String.length s))%nat in IH by lia.
  simpl block_of. simpl starts_from. rewrite <- app_assoc. simpl app.
  unfold vec_of in *. rewrite !fmap_cons. f_equal; [|exact IH].
  simpl. unfold string_at. rewrite drop_app_length. by apply c_string_over.
Qed.

(** X1: a block that holds [count] strings one after the other, each
    with its NUL, is turned into the vector of their addresses, in
    order and NULL-terminated; read back through the pointers the
    vector is the strings.  Slots after the terminator are left as
    they were. *)
Theorem initVectorFromBlock_round_trip :
  ∀ strs vector rest,
    Forall (fun s => strchr s zero = false) strs →
    (length strs < length vector)%nat →
    let block := block_of strs ++ rest in
    ∃ v',
      initVectorFromBlock vector block (Z.of_nat (length strs)) = Some v'
      ∧ v' = (Some <$> starts_from 0 strs)
               ++ None :: drop (S (length strs)) vector
      ∧ cvector (vec_of block v') = strs.
Proof.
  intros strs vector rest Hnul Hlen block.
  unfold initVectorFromBlock.
  assert ((Z.of_nat (length strs) <? 0) = false) as -> by lia.
  rewrite Nat2Z.id.
  pose proof (initVector_loop_block_of strs [] rest vector 0%nat Hnul) as E.
  simpl in E. fold block in E. rewrite E by lia.
  eexists. split; [done|]. split; [done|].
  unfold vec_of. rewrite fmap_app.
  pose proof (vec_of_starts strs [] rest Hnul) as V. simpl in V.
  fold block in V. unfold vec_of in V. rewrite V. csimpl.
  apply cvector_Some.
Qed.

Lemma nuls_cons c mem :
  nuls (c :: mem) = ((if Ascii.eqb c zero then 1 else 0) + nuls mem)%nat.
Proof.
  unfold nuls. rewrite filter_cons.
  destruct (Ascii.eqb_spec c zero) as [->|Hc].
  - by rewrite decide_True.
  - by rewrite decide_False.
Qed.

Lemma skip_string_nuls mem : ∀ p,
  match skip_string mem p with
  | Some p' => ∃ k, p' = (p + S k)%nat ∧ S (nuls (drop (S k) mem)) = nuls mem
  | None => nuls mem = 0%nat
  end.
Proof.
  induction mem as [|c mem IH]; intros p; simpl; [done|].
  rewrite nuls_cons. destruct (Ascii.eqb c zero).
  - exists 0%nat. split; [lia|]. by rewrite drop_0.
  - specialize (IH (S p)). destruct (skip_string mem (S p)) as [p'|].
    + destruct IH as (k & -> & Hk). exists (S k). split; [lia|]. exact Hk.
    + exact IH.
Qed.

Lemma initVector_loop_defined n : ∀ vector block i p,
  is_Some (initVector_loop n vector block i p)
  ↔ (i + n < length vector)%nat ∧ (n ≤ nuls (drop p block))%nat.
Proof.
  induction n as [|n IH]; intros vector block i p; simpl.
  - destruct (decide (i < length vector)%nat).
    + split; [intros _; lia | intros _; by eexists].
    + split; [by intros [? ?] | lia].
  - destruct (decide (i < length vector)%nat) as [Hi|Hi].
    + pose proof (skip_string_nuls (drop p block) p) as Hs.
      destruct (skip_string (drop p block) p) as [p'|].
      * destruct Hs as (k & -> & Hk). rewrite IH, length_insert.
        rewrite drop_drop in Hk.
        replace (p + S k)%nat with (p + S k)%nat by done.
        split; intros [? ?]; (split; [lia|]); lia.
      * split; [by intros [? ?] | lia].
    + split; [by intros [? ?] | lia].
Qed.

(** X2: the call is defined exactly when the array has room for
    [count] pointers and the terminator and the block holds at least
    [count] NUL bytes: it stores nothing past [vector[count]] and
    reads nothing past the [count]-th NUL. *)
Theorem initVectorFromBlock_defined_iff :
  ∀ vector block count,
    is_Some (initVectorFromBlock vector block count)
    ↔ 0 ≤ count < Z.of_nat (length vector)
      ∧ (Z.to_nat count ≤ nuls block)%nat.
Proof.
  intros vector block count. unfold initVectorFromBlock.
  destruct (Z.ltb_spec count 0) as [Hneg|Hpos].
  - split; [by intros [? ?] | lia].
  - rewrite initVector_loop_defined. rewrite drop_0. lia.
Qed.

(** ** More on descriptors *)

(** X3: [markCloseOnExec] on an open descriptor returns 0 and leaves
    it close-on-exec, on the same file, touching nothing when the flag
    is already set; on a descriptor that is not open it returns -1
    with EBADF and changes nothing else; a second call finds nothing
    left to do. *)
Theorem markCloseOnExec_marks_and_settles :
  (∀ fd w e, fdtab w !! fd = Some e →
     markCloseOnExec fd w =
       Ret 0 (if fd_cloexec e then w
              else set_fdtab (<[fd := FdEnt (fd_file e) true]> (fdtab w)) w))
  ∧ (∀ fd w, fdtab w !! fd = None →
       markCloseOnExec fd w = Ret (-1) (set_errno EBADF w))
  ∧ (∀ fd w r w', markCloseOnExec fd w = Ret r w' →
       markCloseOnExec fd w' = Ret r w').
Proof.
  assert (Hopen : ∀ fd w e, fdtab w !! fd = Some e →
     markCloseOnExec fd w =
       Ret 0 (if fd_cloexec e then w
              else set_fdtab (<[fd := FdEnt (fd_file e) true]> (fdtab w)) w)).
  { intros fd w e He. unfold markCloseOnExec, fcntl_GETFD, fcntl_SETFD, bind, ret.
    rewrite He. destruct (fd_cloexec e); simpl; [done|].
    by rewrite He. }
  split; [exact Hopen|]. split; [exact markCloseOnExec_closed|].
  intros fd w r w' E.
  destruct (fdtab w !! fd) as [e|] eqn:He.
  - rewrite (Hopen _ _ _ He) in E.
    destruct (fd_cloexec e) eqn:Hc; simplify_eq.
    + rewrite (Hopen _ _ _ He). by rewrite Hc.
    + erewrite Hopen; [|simpl; apply lookup_insert_eq]. done.
  - rewrite markCloseOnExec_closed in E by done. simplify_eq.
    by rewrite markCloseOnExec_closed.
Qed.

(** A [dup2] the kernel interrupts changes nothing but [errno]. *)
Lemma dup2_fails fd_from fd_to w e q :
  pending w = KFail e :: q →
  dup2 fd_from fd_to w =
    Ret (-1) (set_errno e (log (EvDup2 fd_from fd_to) (set_pending q w))).
Proof. intros H. unfold dup2, kernel_says. by rewrite H. Qed.

Lemma RESTARTABLE_again fuel cmd w w1 :
  cmd w = Ret (-1) w1 → errno w1 = EINTR →
  RESTARTABLE (S fuel) cmd w = RESTARTABLE fuel cmd w1.
Proof.
  intros E He. simpl. erewrite bind_Ret by exact E.
  unfold get_errno, bind. by rewrite He.
Qed.

Lemma restartableDup2_interrupted n : ∀ fuel fd_from fd_to w e,
  pending w = replicate n (KFail EINTR) → (n < fuel)%nat →
  fdtab w !! fd_from = Some e → 0 ≤ fd_to < open_max w → fd_from ≠ fd_to →
  ∃ w', restartableDup2 fuel fd_from fd_to w = Ret fd_to w'
    ∧ fdtab w' = <[fd_to := FdEnt (fd_file e) false]> (fdtab w)
    ∧ trace w' = trace w ++ replicate (S n) (EvDup2 fd_from fd_to)
    ∧ pending w' = [] ∧ open_max w' = open_max w.
Proof.
  induction n as [|n IH]; intros fuel fd_from fd_to w e Hp Hfuel He Hto Hne;
    (destruct fuel as [|fuel]; [lia|]); unfold restartableDup2 in *.
  - erewrite RESTARTABLE_once;
      [|by eapply dup2_undisturbed|apply andb_false_intro1; lia].
    eexists. split; [done|]. done.
  - simpl in Hp.
    erewrite RESTARTABLE_again; [|by eapply dup2_fails|done].
    destruct (IH fuel fd_from fd_to
                (set_errno EINTR (log (EvDup2 fd_from fd_to)
                                      (set_pending (replicate n (KFail EINTR)) w))) e)
      as (w' & -> & Ht & Htr & Hq & Hm); [done | lia | done | done | done |].
    exists w'. split; [done|]. split; [done|]. split; [|done].
    rewrite Htr. simpl. by rewrite <- app_assoc.
Qed.

(** X4: [restartableDup2] goes through any number of interruptions:
    after [n] calls that fail with EINTR the next one is made and the
    target is open on the source's file, close-on-exec clear; any
    other error is returned at once, with one call made and the table
    as it was. *)
Theorem restartableDup2_retries_only_EINTR :
  (∀ n fuel fd_from fd_to w e,
     pending w = replicate n (KFail EINTR) → (n < fuel)%nat →
     fdtab w !! fd_from = Some e → 0 ≤ fd_to < open_max w → fd_from ≠ fd_to →
     ∃ w', restartableDup2 fuel fd_from fd_to w = Ret fd_to w'
       ∧ fdtab w' = <[fd_to := FdEnt (fd_file e) false]> (fdtab w)
       ∧ trace w' = trace w ++ replicate (S n) (EvDup2 fd_from fd_to))
  ∧ (∀ fuel fd_from fd_to w e q,
       pending w = KFail e :: q → e ≠ EINTR →
       ∃ w', restartableDup2 (S fuel) fd_from fd_to w = Ret (-1) w'
         ∧ errno w' = e ∧ fdtab w' = fdtab w
         ∧ trace w' = trace w ++ [EvDup2 fd_from fd_to]).
Proof.
  split.
  - intros n fuel fd_from fd_to w e Hp Hfuel He Hto Hne.
    destruct (restartableDup2_interrupted n fuel fd_from fd_to w e)
      as (w' & E & Ht & Htr & _); try done.
    by exists w'.
  - intros fuel fd_from fd_to w e q Hp He. unfold restartableDup2.
    erewrite RESTARTABLE_once; [|by eapply dup2_fails|].
    + eexists. split; [done|]. done.
    + simpl. by apply Z.eqb_neq.
Qed.

(** A [dup2] from a descriptor that is not open fails, whatever the
    kernel says, and leaves the table alone. *)
Lemma dup2_closed fd_from fd_to w :
  fdtab w !! fd_from = None →
  ∃ w', dup2 fd_from fd_to w = Ret (-1) w'
    ∧ fdtab w' = fdtab w
    ∧ trace w' = trace w ++ [EvDup2 fd_from fd_to]
    ∧ (errno w' = EINTR → (length (pending w') < length (pending w))%nat)
    ∧ (length (pending w') ≤ length (pending w))%nat.
Proof.
  intros Hc. unfold dup2, kernel_says.
  destruct (pending w) as [|k q] eqn:Hp; simpl; [|destruct k; simpl];
    rewrite ?Hc; eexists; (split; [done|]); simpl; rewrite ?Hp; simpl;
    repeat split; try done; try lia;
    intros He; vm_compute in He; done.
Qed.

Lemma restartableDup2_closed fuel : ∀ fd_from fd_to w,
  fdtab w !! fd_from = None → (length (pending w) < fuel)%nat →
  ∃ w' k, restartableDup2 fuel fd_from fd_to w = Ret (-1) w'
    ∧ fdtab w' = fdtab w
    ∧ trace w' = trace w ++ replicate k (EvDup2 fd_from fd_to).
Proof.
  induction fuel as [|fuel IH]; intros fd_from fd_to w Hc Hfuel; [lia|].
  unfold restartableDup2 in *.
  destruct (dup2_closed fd_from fd_to w Hc) as (w1 & E & Ht & Htr & Hint & Hle).
  destruct (Z.eqb_spec (errno w1) EINTR) as [He|He].
  - erewrite RESTARTABLE_again by done.
    destruct (IH fd_from fd_to w1) as (w' & k & -> & Ht' & Htr');
      [congruence | specialize (Hint He); lia |].
    exists w', (S k). split; [done|]. split; [congruence|].
    rewrite Htr', Htr. simpl. by rewrite <- app_assoc.
  - erewrite RESTARTABLE_once; [|exact E|].
    + exists w1, 1%nat. done.
    + apply andb_false_intro2. by apply Z.eqb_neq.
Qed.

(** X5: two ways [moveDescriptor] fails.  A source that is not open
    makes it return -1 with nothing duplicated or closed: the table,
    the target included, is as it was.  And [close] is not retried:
    when it reports an error, be it an interruption, the call returns
    -1 although the descriptor has been moved. *)
Theorem moveDescriptor_failures :
  (∀ fuel fd_from fd_to w,
     fd_from ≠ fd_to → fdtab w !! fd_from = None →
     (length (pending w) < fuel)%nat →
     ∃ w' k, moveDescriptor fuel fd_from fd_to w = Ret (-1) w'
       ∧ fdtab w' = fdtab w
       ∧ trace w' = trace w ++ replicate k (EvDup2 fd_from fd_to))
  ∧ (∀ fuel fd_from fd_to w e er q,
       fd_from ≠ fd_to → fdtab w !! fd_from = Some e →
       0 ≤ fd_to < open_max w → pending w = KOk :: KFail er :: q →
       ∃ w', moveDescriptor (S fuel) fd_from fd_to w = Ret (-1) w'
         ∧ errno w' = er
         ∧ fdtab w' = delete fd_from (<[fd_to := FdEnt (fd_file e) false]> (fdtab w))
         ∧ trace w' = trace w ++ [EvDup2 fd_from fd_to; EvClose fd_from]).
Proof.
  split.
  - intros fuel fd_from fd_to w Hne Hc Hfuel. unfold moveDescriptor.
    rewrite (proj2 (Z.eqb_neq _ _) Hne). cbn [negb].
    destruct (restartableDup2_closed fuel fd_from fd_to w Hc Hfuel)
      as (w' & k & E & Ht & Htr).
    erewrite bind_Ret by exact E. simpl. by exists w', k.
  - intros fuel fd_from fd_to w e er q Hne He Hto Hp. unfold moveDescriptor.
    rewrite (proj2 (Z.eqb_neq _ _) Hne). cbn [negb].
    unfold restartableDup2.
    assert (dup2 fd_from fd_to w =
              Ret fd_to (set_fdtab (<[fd_to := FdEnt (fd_file e) false]> (fdtab w))
                           (log (EvDup2 fd_from fd_to)
                                (set_pending (KFail er :: q) w)))) as Ed.
    { unfold dup2, kernel_says. rewrite Hp. simpl. rewrite He.
      destruct Hto as [H0 Hmax].
      rewrite (proj2 (Z.ltb_ge _ _) H0), (proj2 (Z.leb_gt _ _) Hmax).
      by rewrite (proj2 (Z.eqb_neq _ _) Hne). }
    erewrite bind_Ret; last first.
    { apply RESTARTABLE_once; [exact Ed|]. apply andb_false_intro1. lia. }
    assert ((fd_to =? (-1)) = false) as -> by lia.
    unfold close, kernel_says, bind, ret. simpl.
    rewrite lookup_insert_ne by done. rewrite He. simpl.
    eexists. split; [done|]. simpl. by rewrite <- app_assoc.
Qed.

(** What one [closeSafely] does to the table. *)
Lemma closeSafely_inv a w r w' :
  closeSafely a w = Ret r w' →
  (∀ fd, fd ≠ a ∨ a = -1 → fdtab w' !! fd = fdtab w !! fd)
  ∧ (∀ fd, fdtab w !! fd = None → fdtab w' !! fd = None)
  ∧ (a ≠ -1 → fdtab w' !! a = None)
  ∧ (a ≠ -1 → r ≠ -1 → is_Some (fdtab w !! a)).
Proof.
  unfold closeSafely. destruct (Z.eqb_spec a (-1)) as [->|Ha].
  - intros [= <- <-]. done.
  - unfold close, kernel_says.
    destruct (pending w) as [|k q]; simpl;
      destruct (fdtab w !! a) as [e|] eqn:He; simpl;
      try destruct k; intros [= <- <-]; simpl;
      (split; [intros fd [Hfd|Hfd]; [by rewrite ?lookup_delete_ne|done]|]);
      (split; [intros fd Hfd;
               destruct (decide (fd = a)) as [->|];
               [by rewrite ?lookup_delete_eq | by rewrite ?lookup_delete_ne]|]);
      (split; [intros _; by rewrite ?lookup_delete_eq|]);
      intros _ Hr; try done; by eexists.
Qed.

Lemma close_chain_inv l : ∀ w r w',
  close_chain l w = Ret r w' →
  (∀ fd, fd ∉ l → fdtab w' !! fd = fdtab w !! fd)
  ∧ (∀ fd, fdtab w !! fd = None → fdtab w' !! fd = None)
  ∧ (r = false → ∀ fd, fd ∈ l → fd ≠ -1 →
       is_Some (fdtab w !! fd) ∧ fdtab w' !! fd = None).
Proof.
  assert (Hone : ∀ a w r w', failed (closeSafely a) w = Ret r w' →
    (∀ fd, fd ≠ a → fdtab w' !! fd = fdtab w !! fd)
    ∧ (∀ fd, fdtab w !! fd = None → fdtab w' !! fd = None)
    ∧ (r = false → a ≠ -1 →
         is_Some (fdtab w !! a) ∧ fdtab w' !! a = None)).
  { intros a w r w' E. unfold failed, bind, ret in E.
    destruct (closeSafely a w) as [r1 w1| | |] eqn:E1; simplify_eq.
    destruct (closeSafely_inv _ _ _ _ E1) as (Hsame & Hmono & Hgone & Hwas).
    split; [intros fd Hfd; apply Hsame; by left|].
    split; [done|].
    intros Hr Hne. apply Z.eqb_neq in Hr. auto. }
  induction l as [|a l IH]; intros w r w' E.
  - simpl in E. unfold ret in E. simplify_eq.
    split; [done|]. split; [done|]. intros _ fd Hfd. by apply elem_of_nil in Hfd.
  - destruct l as [|b l].
    { destruct (Hone _ _ _ _ E) as (Hsame1 & Hmono1 & Hgone1).
      split; [|split; [done|]].
      - intros fd Hfd. apply Hsame1. intros ->. apply Hfd. by left.
      - intros Hr fd Hfd Hne. apply list_elem_of_singleton in Hfd as ->. auto. }
    rewrite close_chain_cons in E. unfold or_failed, bind, ret in E.
    destruct (failed (closeSafely a) w) as [x w1| | |] eqn:E1; try done.
    destruct (Hone _ _ _ _ E1) as (Hsame1 & Hmono1 & Hgone1).
    destruct x.
    + simplify_eq. split; [|split; [done|done]].
      intros fd Hfd. apply Hsame1. intros ->. apply Hfd. by left.
    + destruct (IH _ _ _ E) as (Hsame & Hmono & Hgone).
      split; [|split].
      * intros fd Hfd. apply not_elem_of_cons in Hfd as [Hfa Hfl].
        rewrite Hsame by done. by apply Hsame1.
      * auto.
      * intros Hr fd Hfd Hne. apply elem_of_cons in Hfd as [->|Hfd].
        -- destruct (Hgone1 eq_refl Hne) as [Hwas Hnow].
           split; [done|]. by apply Hmono.
        -- destruct (Hgone Hr fd Hfd Hne) as [Hwas Hnow]. split; [|done].
           destruct (fdtab w !! fd) eqn:Hw; [by eexists|].
           rewrite (Hmono1 _ Hw) in Hwas. by destruct Hwas.
Qed.

(** X6: closing the parent sides touches no descriptor but those six;
    when the step succeeds, each of them that is not the sentinel -1
    was open and is closed now. *)
Theorem close_parent_sides_closes_exactly :
  ∀ p w r w',
    close_parent_sides p w = Ret r w' →
    (∀ fd, fd ∉ leftover_pipe_ends p → fdtab w' !! fd = fdtab w !! fd)
    ∧ (r = false → ∀ fd, fd ∈ leftover_pipe_ends p → fd ≠ -1 →
         is_Some (fdtab w !! fd) ∧ fdtab w' !! fd = None).
Proof.
  intros p w r w' E. rewrite close_parent_sides_chain in E.
  destruct (close_chain_inv _ _ _ _ E) as (Hsame & _ & Hgone). done.
Qed.

(** ** More on program resolution *)

(** X7: with the environment inherited ([envp] NULL or [environ]
    itself) [JDK_execvpe] is one [execvp] of the name as given, in
    every mode and for every name, the empty one included: the saved
    PATH is not consulted, [environ] and the vector are not touched,
    and [errno] is what that call left. *)
Theorem JDK_execvpe_inherited_environment :
  ∀ mode file argv envp w,
    envp = 0 ∨ envp = environ w →
    let ev := EvExec Execvp file (cvector argv) (environ w) in
    match loader w Execvp file with
    | None =>
        JDK_execvpe mode file argv envp w =
          Replaced (set_fdtab (inherited (fdtab w)) (log ev w))
    | Some e =>
        JDK_execvpe mode file argv envp w = Ret argv (set_errno e (log ev w))
    end.
Proof.
  intros mode file argv envp w Henv ev.
  assert (JDK_execvpe mode file argv envp w = (execvp file argv ;;; ret argv) w)
    as ->.
  { unfold JDK_execvpe, get_environ, bind at 1.
    assert ((envp =? 0) || (envp =? environ w) = true) as ->; [|done].
    destruct Henv as [->| ->]; [done|]. rewrite Z.eqb_refl. apply orb_true_r. }
  unfold execvp, get_environ, bind, ret.
  destruct (loader w Execvp file) as [e|] eqn:Hl.
  - by rewrite (exec_call_fails _ _ _ _ _ e).
  - by rewrite exec_call_loads.
Qed.

Lemma JDK_execvpe_direct mode file argv envp w :
  envp ≠ 0 → envp ≠ environ w → strchr file "/" = true →
  JDK_execvpe mode file argv envp w =
    execve_with_shell_fallback mode file argv envp w.
Proof.
  intros H0 Henv Hslash. unfold JDK_execvpe, get_environ, bind.
  rewrite (proj2 (Z.eqb_neq _ _) H0), (proj2 (Z.eqb_neq _ _) Henv). simpl.
  destruct file as [|c file]; [done|]. simpl String.eqb.
  by rewrite Hslash.
Qed.

Lemma attempt_fails_copied mode path argv envp w e :
  mode ≠ MODE_VFORK → loader w Execvp path = Some e →
  execve_with_shell_fallback mode path argv envp w =
    Ret argv (set_errno e (attempted mode path argv envp w)).
Proof.
  intros Hm Hl. unfold execve_with_shell_fallback, attempted, prim_of.
  rewrite (proj2 (Z.eqb_neq _ _) Hm).
  unfold put_environ, execvp, get_environ, bind. simpl environ.
  by rewrite (exec_call_fails _ _ _ _ _ e) by done.
Qed.

(** X8: a name with a separator in it is tried once, as given: the
    saved PATH plays no part, whatever the error, also one that would
    let a search go on; the program loads, or [JDK_execvpe] returns
    with the [errno] of that one attempt. *)
Theorem JDK_execvpe_path_with_separator :
  ∀ mode file argv envp w,
    envp ≠ 0 → envp ≠ environ w → strchr file "/" = true →
    match loader w (prim_of mode) file with
    | None =>
        JDK_execvpe mode file argv envp w =
          Replaced (set_fdtab (inherited (fdtab w))
                              (attempted mode file argv envp w))
    | Some e =>
        e ≠ ENOEXEC ∨ mode ≠ MODE_VFORK →
        JDK_execvpe mode file argv envp w =
          Ret argv (set_errno e (attempted mode file argv envp w))
    end
    ∧ exec_attempts (trace (attempted mode file argv envp w))
      = exec_attempts (trace w) ++ [(prim_of mode, file)].
Proof.
  intros mode file argv envp w H0 Henv Hslash. split.
  - rewrite JDK_execvpe_direct by done.
    destruct (loader w (prim_of mode) file) as [e|] eqn:Hl.
    + intros [He|Hm]; [by apply attempt_fails|].
      apply attempt_fails_copied; [done|].
      unfold prim_of in Hl. by rewrite (proj2 (Z.eqb_neq _ _) Hm) in Hl.
    + by apply attempt_loads.
  - unfold attempted. simpl. rewrite exec_attempts_app.
    by destruct (mode =? MODE_VFORK).
Qed.

(** A search none of whose attempts sees EACCES ends with the [errno]
    of the last entry of the path. *)
Lemma path_search_last mode file argv envp d pre : ∀ w,
  (∀ dir, dir ∈ pre ++ [d] → too_long file dir = false →
     ∃ e, loader w (prim_of mode) (expanded_file dir file) = Some e
          ∧ try_other_directories e = true ∧ e ≠ EACCES) →
  ∃ w', path_search mode file argv envp (pre ++ [d]) 0 w = Ret argv w'
    ∧ errno w' =
        if too_long file d then ENAMETOOLONG
        else default 0 (loader w (prim_of mode) (expanded_file d file)).
Proof.
  assert (Hkeep : ∀ e w path dir,
    loader (set_errno e (attempted mode path argv envp w)) (prim_of mode) dir
    = loader w (prim_of mode) dir).
  { intros. unfold attempted. by destruct (mode =? MODE_VFORK). }
  induction pre as [|dir pre IH]; intros w Hall.
  - simpl app. destruct (too_long file d) eqn:Hfit.
    + rewrite path_search_skip by done. rewrite path_search_done.
      eexists. split; [done|]. done.
    + destruct (Hall d) as (e & Hl & Htry & Hne); [by left | done |].
      pose proof (try_other_directories_not_ENOEXEC _ Htry).
      erewrite path_search_turn; [|done|by apply attempt_fails].
      simpl errno. rewrite Htry, (proj2 (Z.eqb_neq _ _) Hne).
      rewrite path_search_done. eexists. split; [done|]. simpl. by rewrite Hl.
  - rewrite <- app_comm_cons. destruct (too_long file dir) eqn:Hfit.
    + rewrite path_search_skip by done.
      destruct (IH (set_errno ENAMETOOLONG w)) as (w' & -> & He).
      { intros x Hx Hf. apply Hall; [by right | done]. }
      by exists w'.
    + destruct (Hall dir) as (e & Hl & Htry & Hne); [by left | done |].
      pose proof (try_other_directories_not_ENOEXEC _ Htry).
      erewrite path_search_turn; [|done|by apply attempt_fails].
      simpl errno. rewrite Htry, (proj2 (Z.eqb_neq _ _) Hne).
      destruct (IH (set_errno e (attempted mode (expanded_file dir file) argv envp w)))
        as (w' & -> & He).
      { intros x Hx Hf. rewrite Hkeep. apply Hall; [by right | done]. }
      exists w'. split; [done|]. rewrite He. by rewrite Hkeep.
Qed.

(** X9: how a search that finds nothing ends, when no attempt saw
    EACCES.  With an empty saved PATH nothing is attempted and the
    world, [errno] included, is as it was; otherwise [errno] is that
    of the last entry: the error of its attempt, or ENAMETOOLONG when
    the entry was passed over. *)
Theorem JDK_execvpe_search_exhausted :
  (∀ mode file argv envp w,
     envp ≠ 0 → envp ≠ environ w → file ≠ EmptyString → strchr file "/" = false →
     parentPathv w = [] →
     JDK_execvpe mode file argv envp w = Ret argv w)
  ∧ (∀ mode file argv envp w pre d,
       envp ≠ 0 → envp ≠ environ w → file ≠ EmptyString →
       strchr file "/" = false →
       parentPathv w = pre ++ [d] →
       (∀ dir, dir ∈ pre ++ [d] → too_long file dir = false →
          ∃ e, loader w (prim_of mode) (expanded_file dir file) = Some e
               ∧ try_other_directories e = true ∧ e ≠ EACCES) →
       ∃ w', JDK_execvpe mode file argv envp w = Ret argv w'
         ∧ errno w' =
             if too_long file d then ENAMETOOLONG
             else default 0 (loader w (prim_of mode) (expanded_file d file))).
Proof.
  split.
  - intros mode file argv envp w H0 Henv Hfile Hslash Hpath.
    rewrite JDK_execvpe_searches by done. rewrite Hpath.
    by rewrite path_search_done.
  - intros mode file argv envp w pre d H0 Henv Hfile Hslash Hpath Hall.
    rewrite JDK_execvpe_searches by done. rewrite Hpath.
    by apply path_search_last.
Qed.

(** *** The argument vector across a resolution *)

Lemma take_vec_end (v : vec) : ∀ v' : vec,
  (vec_end v < length v)%nat →
  take (S (vec_end v)) v' = take (S (vec_end v)) v →
  vec_end v' = vec_end v ∧ cvector v' = cvector v.
Proof.
  induction v as [|[s|] v IH]; intros v' Hlt Ht; simpl in *; [lia | |].
  - destruct v' as [|o v']; simpl in Ht; [done|]. injection Ht as -> Ht.
    destruct (IH v') as [E1 E2]; [lia | done |]. simpl. by rewrite E1, E2.
  - destruct v' as [|o v']; simpl in Ht; [done|]. by injection Ht as ->.
Qed.

Lemma spare_slot_shape (argv : vec) :
  (0 < vec_end argv)%nat → (vec_end argv + 2 ≤ length argv)%nat →
  ∃ a0 args x rest,
    argv = Some a0 :: (Some <$> args) ++ None :: x :: rest
    ∧ vec_end argv = S (length args).
Proof.
  intros Hpos Hcap.
  destruct (vec_shape argv) as [Hshape Hlen]; [lia|].
  destruct (cvector argv) as [|a0 args] eqn:Hcv; [simpl in Hlen; lia|].
  simpl in Hlen.
  assert (∃ x rest, drop (S (vec_end argv)) argv = x :: rest) as (x & rest & Hdrop).
  { destruct (drop (S (vec_end argv)) argv) as [|x rest] eqn:Hd; [|eauto].
    apply (f_equal length) in Hd. rewrite length_drop in Hd. simpl in Hd. lia. }
  rewrite Hdrop in Hshape. csimpl in Hshape.
  exists a0, args, x, rest. split; [done | lia].
Qed.

(** The shell attempt on a vector with its spare slot, and the vector
    it leaves when the shell cannot be run. *)
Lemma shell_script_outcome file a0 args x rest envp w :
  execve_as_traditional_shell_script file
      (Some a0 :: (Some <$> args) ++ None :: x :: rest) envp w
  = (execve "/bin/sh"
       (Some "/bin/sh"%string :: Some file :: (Some <$> args) ++ None :: rest) envp ;;;
     ret (Some a0 :: (Some <$> args) ++ None :: None :: rest)) w.
Proof.
  unfold execve_as_traditional_shell_script.
  assert (vec_end (Some a0 :: (Some <$> args) ++ None :: x :: rest)
          = S (length args)) as -> by (csimpl; by rewrite vec_end_Some).
  change (default None ((Some a0 :: (Some <$> args) ++ None :: x :: rest) !! 0%nat))
    with (Some a0).
  by rewrite reshape_for_shell, restore_after_shell.
Qed.

Lemma fallback_keeps_argv mode file (argv : vec) envp w argv' w' :
  (0 < vec_end argv)%nat → (vec_end argv + 2 ≤ length argv)%nat →
  execve_with_shell_fallback mode file argv envp w = Ret argv' w' →
  take (S (vec_end argv)) argv' = take (S (vec_end argv)) argv
  ∧ length argv' = length argv.
Proof.
  intros Hpos Hcap E. unfold execve_with_shell_fallback in E.
  destruct (mode =? MODE_VFORK).
  - unfold bind at 1 in E.
    destruct (execve file argv envp w) as [r w1| | |]; try done.
    unfold get_errno, bind at 1 in E.
    destruct (errno w1 =? ENOEXEC); [|by injection E as <- <-].
    destruct (spare_slot_shape argv Hpos Hcap) as (a0 & args & x & rest & -> & Hn).
    rewrite shell_script_outcome in E. unfold bind, ret in E.
    destruct (execve _ _ envp w1) as [r2 w2| | |]; try done.
    injection E as <- <-. rewrite Hn. split.
    + simpl. f_equal.
      replace (S (length args)) with (length (Some <$> args) + 1)%nat
        by (rewrite length_fmap; lia).
      by rewrite !take_app_add.
    + simpl. by rewrite !length_app.
  - unfold bind, ret, put_environ in E.
    destruct (execvp file argv _) as [r w1| | |]; try done.
    by injection E as <- <-.
Qed.

Lemma path_search_keeps_argv mode file envp dirs : ∀ (argv : vec) sticky w argv' w',
  (0 < vec_end argv)%nat → (vec_end argv + 2 ≤ length argv)%nat →
  path_search mode file argv envp dirs sticky w = Ret argv' w' →
  take (S (vec_end argv)) argv' = take (S (vec_end argv)) argv
  ∧ length argv' = length argv.
Proof.
  induction dirs as [|dir rest IH]; intros argv sticky w argv' w' Hpos Hcap E.
  - rewrite path_search_done in E. by injection E as <- <-.
  - simpl in E. destruct (PATH_MAX <=? strlen file + strlen dir + 2).
    + unfold bind at 1, put_errno in E. by eapply IH.
    + unfold bind at 1 in E.
      destruct (execve_with_shell_fallback mode (expanded_file dir file) argv envp w)
        as [argv1 w1| | |] eqn:E1; try done.
      destruct (fallback_keeps_argv _ _ _ _ _ _ _ Hpos Hcap E1) as [Ht Hl].
      destruct (take_vec_end argv argv1) as [Hend _]; [lia | done |].
      unfold get_errno, bind at 1 in E.
      destruct (try_other_directories (errno w1)).
      * apply IH in E as [Ht2 Hl2]; [|lia..].
        rewrite Hend in Ht2. split; congruence.
      * by injection E as <- <-.
Qed.

(** X10: whenever [JDK_execvpe] returns, the caller's argument vector
    is as it was handed in, from [argv[0]] to its terminating NULL,
    whatever attempts and shell retries were made on the way; only the
    slot reserved after the terminator may have been written. *)
Theorem JDK_execvpe_keeps_argv :
  ∀ mode file (argv : vec) envp w argv' w',
    (0 < vec_end argv)%nat → (vec_end argv + 2 ≤ length argv)%nat →
    JDK_execvpe mode file argv envp w = Ret argv' w' →
    cvector argv' = cvector argv
    ∧ take (S (vec_end argv)) argv' = take (S (vec_end argv)) argv
    ∧ length argv' = length argv.
Proof.
  intros mode file argv envp w argv' w' Hpos Hcap E.
  assert (take (S (vec_end argv)) argv' = take (S (vec_end argv)) argv
          ∧ length argv' = length argv) as [Ht Hl].
  { unfold JDK_execvpe, get_environ, bind at 1 in E.
    destruct ((envp =? 0) || (envp =? environ w)).
    { unfold bind, ret in E.
      destruct (execvp file argv w) as [r w1| | |]; try done.
      by injection E as <- <-. }
    destruct (String.eqb file EmptyString).
    { unfold bind, ret, put_errno in E. by injection E as <- <-. }
    destruct (strchr file "/").
    - by eapply fallback_keeps_argv.
    - unfold get_parentPathv, bind at 1 in E. by eapply path_search_keeps_argv. }
  destruct (take_vec_end argv argv') as [_ Hcv]; [lia | done |]. done.
Qed.

(** ** What a launch as a whole leaves alone *)

(** A relation every part of [childProcess] keeps is kept by it. *)
Lemma preserves_childProcess R `{!PreOrder R} fuel p :
  preserves R (alive_ping fuel p) →
  preserves R (close_parent_sides p) →
  preserves R (move_child_sides fuel p) →
  preserves R close_everything →
  preserves R (change_directory p) →
  preserves R (reset_signal_mask p) →
  preserves R (JDK_execvpe (mode p) (argv_0 p) (argv p) (envv p)) →
  (∀ fd, preserves R (WhyCantJohnnyExec fuel fd)) →
  preserves R (childProcess fuel p).
Proof.
  intros. unfold childProcess.
  repeat first
    [ progress intros
    | match goal with H : _ |- _ => solve [apply H] end
    | apply preserves_ret; apply _
    | apply preserves_bind; [apply _ | |]
    | match goal with
      | |- preserves _ (if ?b then _ else _) => destruct b
      end ].
Qed.

(** A run either ends while the descriptors are being prepared, or
    gets to the change of directory. *)
Lemma childProcess_prelude R `{!PreOrder R} fuel p :
  preserves R (alive_ping fuel p) →
  preserves R (close_parent_sides p) →
  preserves R (move_child_sides fuel p) →
  preserves R close_everything →
  (∀ fd, preserves R (WhyCantJohnnyExec fuel fd)) →
  ∀ w,
    R w (final (childProcess fuel p w))
    ∨ ∃ w4, R w w4
        ∧ childProcess fuel p w =
            (x <- change_directory p ;;
             if x : bool then WhyCantJohnnyExec fuel FAIL_FILENO else
             reset_signal_mask p ;;;
             JDK_execvpe (mode p) (argv_0 p) (argv p) (envv p) ;;;
             WhyCantJohnnyExec fuel FAIL_FILENO) w4.
Proof.
  intros H1 H2 H3 H4 Hw w. unfold childProcess. cbv zeta.
  match goal with |- context [bind ?m ?k w] =>
    destruct (bind_cases m k w) as [(x1 & w1 & E1 & ->) | ->] end;
    [|left; apply H1].
  pose proof (H1 w) as R1. rewrite E1 in R1. simpl in R1.
  destruct x1; [left; etrans; [exact R1 | apply Hw]|].
  match goal with |- context [bind ?m ?k w1] =>
    destruct (bind_cases m k w1) as [(x2 & w2 & E2 & ->) | ->] end;
    [|left; etrans; [exact R1 | apply H2]].
  pose proof (H2 w1) as R2. rewrite E2 in R2. simpl in R2.
  assert (R w w2) as R12 by (etrans; eauto).
  destruct x2; [left; etrans; [exact R12 | apply Hw]|].
  match goal with |- context [bind ?m ?k w2] =>
    destruct (bind_cases m k w2) as [(x3 & w3 & E3 & ->) | ->] end;
    [|left; etrans; [exact R12 | apply H3]].
  pose proof (H3 w2) as R3. rewrite E3 in R3. simpl in R3.
  assert (R w w3) as R13 by (etrans; eauto).
  destruct x3; [left; etrans; [exact R13 | apply Hw]|].
  match goal with |- context [bind ?m ?k w3] =>
    destruct (bind_cases m k w3) as [(x4 & w4 & E4 & ->) | ->] end;
    [|left; etrans; [exact R13 | apply H4]].
  pose proof (H4 w3) as R4. rewrite E4 in R4. simpl in R4.
  assert (R w w4) as R14 by (etrans; eauto).
  destruct x4; [left; etrans; [exact R14 | apply Hw]|].
  right. exists w4. done.
Qed.

(** The same, up to the point where resolution begins. *)
Lemma childProcess_before_exec R `{!PreOrder R} fuel p :
  preserves R (alive_ping fuel p) →
  preserves R (close_parent_sides p) →
  preserves R (move_child_sides fuel p) →
  preserves R close_everything →
  preserves R (change_directory p) →
  preserves R (reset_signal_mask p) →
  (∀ fd, preserves R (WhyCantJohnnyExec fuel fd)) →
  ∀ w,
    R w (final (childProcess fuel p w))
    ∨ ∃ w6, R w w6
        ∧ childProcess fuel p w =
            (JDK_execvpe (mode p) (argv_0 p) (argv p) (envv p) ;;;
             WhyCantJohnnyExec fuel FAIL_FILENO) w6.
Proof.
  intros H1 H2 H3 H4 H5 H6 Hw w.
  destruct (childProcess_prelude R fuel p H1 H2 H3 H4 Hw w)
    as [Hend | (w4 & R4 & ->)]; [by left|].
  match goal with |- context [bind ?m ?k w4] =>
    destruct (bind_cases m k w4) as [(x5 & w5 & E5 & ->) | ->] end;
    [|left; etrans; [exact R4 | apply H5]].
  pose proof (H5 w4) as R5. rewrite E5 in R5. simpl in R5.
  assert (R w w5) as R15 by (etrans; eauto).
  destruct x5; [left; etrans; [exact R15 | apply Hw]|].
  match goal with |- context [bind ?m ?k w5] =>
    destruct (bind_cases m k w5) as [(x6 & w6 & E6 & ->) | ->] end;
    [|left; etrans; [exact R15 | apply H6]].
  pose proof (H6 w5) as R6. rewrite E6 in R6. simpl in R6.
  right. exists w6. split; [etrans; eauto | done].
Qed.

Lemma exec_kinds_app t1 t2 :
  exec_kinds (t1 ++ t2) = exec_kinds t1 ++ exec_kinds t2.
Proof.
  induction t1 as [|ev t1 IH]; simpl; [done|].
  destruct ev; rewrite ?IH; done.
Qed.

Ltac leaf ::=
  let w := fresh "w" in
  intros w; unfold kept, pending_le; unfold_calls;
  repeat case_match; simplify_eq/=;
  rewrite ?wire_app, ?wire_of_app, ?exec_attempts_app, ?exec_kinds_app; simpl;
  rewrite ?app_nil_r; rewrite_pending; simpl; try done; try lia.

#[local] Hint Extern 4 (preserves _ (markCloseOnExec _)) =>
  (unfold markCloseOnExec; solve [frame]) : frame.

(** *** [environ] *)

Lemma fallback_vfork_keeps_environ path argv envp :
  preserves (kept environ) (execve_with_shell_fallback MODE_VFORK path argv envp).
Proof. unfold execve_with_shell_fallback. rewrite Z.eqb_refl. frames. Qed.

Lemma JDK_execvpe_vfork_keeps_environ file argv envp :
  preserves (kept environ) (JDK_execvpe MODE_VFORK file argv envp).
Proof.
  unfold JDK_execvpe.
  apply preserves_bind; [apply _ | frames |]. intros env.
  repeat case_match; [frames.. | |].
  - apply fallback_vfork_keeps_environ.
  - apply preserves_bind; [apply _ | frames |]. intros dirs.
    apply preserves_path_search; [apply _ | frames |].
    intros. apply fallback_vfork_keeps_environ.
Qed.

(** X11: in MODE_VFORK, where the address space is the parent's, no
    run of [childProcess] writes to [environ], however it ends. *)
Theorem childProcess_vfork_keeps_environ :
  ∀ fuel p w,
    mode p = MODE_VFORK →
    environ (final (childProcess fuel p w)) = environ w.
Proof.
  intros fuel p w Hmode.
  assert (preserves (kept environ) (childProcess fuel p)) as H; [|apply H].
  apply preserves_childProcess; [apply _ | frames..| |frames].
  rewrite Hmode. apply JDK_execvpe_vfork_keeps_environ.
Qed.

(** *** The kind of exec attempted *)

#[local] Instance execs_of_preorder k : PreOrder (execs_of k).
Proof.
  split.
  - intros w. exists 0%nat. simpl. by rewrite app_nil_r.
  - intros x y z [n1 H1] [n2 H2]. exists (n1 + n2)%nat.
    rewrite H2, H1, <- app_assoc. by rewrite replicate_add.
Qed.

Lemma execs_of_kept {A} (m : M A) k :
  preserves (kept (fun w => exec_kinds (trace w))) m → preserves (execs_of k) m.
Proof.
  intros H w. exists 0%nat. simpl. rewrite app_nil_r. apply H.
Qed.

Lemma exec_call_execs prim path argv envp :
  preserves (execs_of (prim, envp)) (exec_call prim path argv envp).
Proof.
  intros w. exists 1%nat. unfold exec_call.
  destruct (loader _ prim path); simpl; by rewrite exec_kinds_app.
Qed.

Lemma fallback_execs mode path argv envp :
  preserves (execs_of (prim_of mode, envp))
            (execve_with_shell_fallback mode path argv envp).
Proof.
  unfold execve_with_shell_fallback, prim_of. destruct (mode =? MODE_VFORK).
  - apply preserves_bind; [apply _ | apply exec_call_execs |]. intros _.
    apply preserves_bind; [apply _ | apply execs_of_kept; frames |]. intros e.
    destruct (e =? ENOEXEC); [|apply preserves_ret; apply _].
    unfold execve_as_traditional_shell_script.
    apply preserves_bind; [apply _ | apply exec_call_execs |]. intros _.
    apply preserves_ret; apply _.
  - intros w. exists 1%nat.
    unfold put_environ, execvp, get_environ, exec_call, bind, ret. simpl.
    destruct (loader _ Execvp path); simpl; by rewrite exec_kinds_app.
Qed.

Lemma JDK_execvpe_execs mode file argv envp w :
  execs_of (exec_kind mode envp w) w (final (JDK_execvpe mode file argv envp w)).
Proof.
  unfold JDK_execvpe, exec_kind, get_environ, bind at 1.
  destruct ((envp =? 0) || (envp =? environ w)).
  { exists 1%nat. unfold execvp, get_environ, exec_call, bind, ret. simpl.
    destruct (loader _ Execvp file); simpl; by rewrite exec_kinds_app. }
  destruct (String.eqb file EmptyString).
  { exists 0%nat. simpl. by rewrite app_nil_r. }
  destruct (strchr file "/"); [apply fallback_execs|].
  unfold get_parentPathv, bind at 1.
  apply preserves_path_search; [apply _ | | intros; apply fallback_execs].
  intros e. apply execs_of_kept. frames.
Qed.

(** X12: every exec a launch attempts is made the way it was asked
    for.  With [envv] NULL, or [environ] itself, each is an [execvp]
    under the inherited environment; otherwise each runs under [envv]
    and is an [execve] in MODE_VFORK and an [execvp] in the other
    modes. *)
Theorem childProcess_execs_as_asked :
  ∀ fuel p w,
    ∃ n, exec_kinds (trace (final (childProcess fuel p w)))
         = exec_kinds (trace w) ++ replicate n (exec_kind (mode p) (envv p) w).
Proof.
  intros fuel p w.
  destruct (childProcess_before_exec
              (kept (fun w => (environ w, exec_kinds (trace w)))) fuel p)
    with (w := w) as [Hend | (w6 & R6 & ->)]; [frames.. | |].
  - exists 0%nat. rewrite app_nil_r. unfold kept in Hend. congruence.
  - unfold kept in R6. injection R6 as Henv Hk.
    assert (exec_kind (mode p) (envv p) w = exec_kind (mode p) (envv p) w6) as ->.
    { unfold exec_kind. by rewrite Henv. }
    rewrite <- Hk.
    pose proof (JDK_execvpe_execs (mode p) (argv_0 p) (argv p) (envv p) w6) as J.
    match goal with |- context [bind ?m ?k w6] =>
      destruct (bind_cases m k w6) as [(a & w7 & E7 & ->) | ->] end;
      [|exact J].
    rewrite E7 in J. simpl in J.
    assert (preserves (kept (fun w => exec_kinds (trace w)))
              (WhyCantJohnnyExec fuel FAIL_FILENO)) as K by frames.
    specialize (K w7). unfold kept in K. rewrite K. exact J.
Qed.

(** *** The working directory *)

Lemma preserves_JDK_execvpe R `{!PreOrder R} mode file argv envp :
  (∀ e, preserves R (put_errno e)) →
  preserves R get_environ → preserves R get_parentPathv →
  preserves R (execvp file argv) →
  (∀ path argv, preserves R (execve_with_shell_fallback mode path argv envp)) →
  preserves R (JDK_execvpe mode file argv envp).
Proof.
  intros Hp He Hd Hx Hf. unfold JDK_execvpe.
  apply preserves_bind; [apply _ | done |]. intros env.
  repeat case_match.
  - apply preserves_bind; [apply _ | done |]. intros. apply preserves_ret; apply _.
  - apply preserves_bind; [apply _ | done |]. intros. apply preserves_ret; apply _.
  - apply Hf.
  - apply preserves_bind; [apply _ | done |]. intros dirs.
    by apply preserves_path_search.
Qed.

Lemma JDK_execvpe_keeps_cwd mode file argv envp :
  preserves (kept cwd) (JDK_execvpe mode file argv envp).
Proof. apply preserves_JDK_execvpe; [apply _ | frames..]. Qed.

Lemma after_chdir_keeps_cwd fuel p :
  preserves (kept cwd)
    (reset_signal_mask p ;;;
     JDK_execvpe (mode p) (argv_0 p) (argv p) (envv p) ;;;
     WhyCantJohnnyExec fuel FAIL_FILENO).
Proof.
  apply preserves_bind; [apply _ | frames |]. intros _.
  apply preserves_bind; [apply _ | apply JDK_execvpe_keeps_cwd |]. intros _.
  frames.
Qed.

(** X13: the working directory.  Without [pdir] no run changes it.
    With [pdir], every exec attempt is made after [chdir(pdir)] has
    succeeded, so whenever an exec was attempted the directory is
    [pdir]; and when the kernel refuses the directory, the launch ends
    with no exec attempted and the directory as it was. *)
Theorem childProcess_working_directory :
  (∀ fuel p w,
     pdir p = None → cwd (final (childProcess fuel p w)) = cwd w)
  ∧ (∀ fuel p w d,
       pdir p = Some d →
       exec_attempts (trace (final (childProcess fuel p w)))
         ≠ exec_attempts (trace w) →
       cwd (final (childProcess fuel p w)) = d)
  ∧ (∀ fuel p w d e,
       pdir p = Some d → chdir_verdict w d = Some e →
       exec_attempts (trace (final (childProcess fuel p w)))
         = exec_attempts (trace w)
       ∧ cwd (final (childProcess fuel p w)) = cwd w).
Proof.
  assert (Hpre : ∀ fuel p w,
    let R := kept (fun w => (cwd w, exec_attempts (trace w), chdir_verdict w)) in
    R w (final (childProcess fuel p w))
    ∨ ∃ w4, R w w4
        ∧ childProcess fuel p w =
            (x <- change_directory p ;;
             if x : bool then WhyCantJohnnyExec fuel FAIL_FILENO else
             reset_signal_mask p ;;;
             JDK_execvpe (mode p) (argv_0 p) (argv p) (envv p) ;;;
             WhyCantJohnnyExec fuel FAIL_FILENO) w4).
  { intros fuel p w R. apply childProcess_prelude; [apply _ | subst R; frames..]. }
  assert (Htail : ∀ fuel fd,
    preserves (kept (fun w => (cwd w, exec_attempts (trace w))))
              (WhyCantJohnnyExec fuel fd)) by (intros; frames).
  split; [|split].
  - intros fuel p w Hdir.
    assert (preserves (kept cwd) (childProcess fuel p)) as H; [|apply H].
    apply preserves_childProcess;
      [apply _ | frames.. | | frames | apply JDK_execvpe_keeps_cwd | frames].
    unfold change_directory. rewrite Hdir. frames.
  - intros fuel p w d Hdir Hexec.
    destruct (Hpre fuel p w) as [Hend | (w4 & R4 & E)].
    { unfold kept in Hend. exfalso. apply Hexec. congruence. }
    rewrite E in *. unfold kept in R4. injection R4 as Hc Ha Hv.
    unfold change_directory, chdir in *. rewrite Hdir in *.
    unfold bind at 1 2 in Hexec. unfold bind at 1 2.
    simpl chdir_verdict in *.
    destruct (chdir_verdict w4 d) as [e|]; simpl in *.
    + exfalso. apply Hexec. rewrite <- Ha.
      pose proof (Htail fuel FAIL_FILENO
                    (set_errno e (log (EvChdir d) w4))) as T.
      unfold kept in T. injection T as _ T. rewrite T. simpl.
      by rewrite exec_attempts_app, app_nil_r.
    + by rewrite (after_chdir_keeps_cwd fuel p _).
  - intros fuel p w d e Hdir Hno.
    destruct (Hpre fuel p w) as [Hend | (w4 & R4 & E)].
    { unfold kept in Hend. by injection Hend as -> -> _. }
    unfold kept in R4. injection R4 as Hc Ha Hv.
    assert (childProcess fuel p w
            = WhyCantJohnnyExec fuel FAIL_FILENO
                (set_errno e (log (EvChdir d) w4))) as ->.
    { rewrite E. unfold change_directory, chdir. rewrite Hdir.
      unfold bind at 1 2. simpl chdir_verdict. by rewrite Hv, Hno. }
    pose proof (Htail fuel FAIL_FILENO
                  (set_errno e (log (EvChdir d) w4))) as T.
    unfold kept in T. injection T as T1 T2. rewrite T1, T2. simpl.
    by rewrite exec_attempts_app, app_nil_r.
Qed.

(** ** The standard descriptors of the new program *)

Lemma bind_Ret_inv {A B} (m : M A) (k : A → M B) w b w' :
  bind m k w = Ret b w' → ∃ a w1, m w = Ret a w1 ∧ k a w1 = Ret b w'.
Proof.
  unfold bind. destruct (m w) as [a w1| | |]; try done. intros E. eauto.
Qed.

Lemma failed_inv (m : M Z) w w' :
  failed m w = Ret false w' → ∃ r, m w = Ret r w' ∧ r ≠ -1.
Proof.
  unfold failed. intros E. apply bind_Ret_inv in E as (r & w1 & E & K).
  unfold ret in K. injection K as K <-. exists r. split; [done|].
  by apply Z.eqb_neq.
Qed.

Lemma or_failed_inv (a b : M bool) w w' :
  or_failed a b w = Ret false w' →
  ∃ w1, a w = Ret false w1 ∧ b w1 = Ret false w'.
Proof.
  unfold or_failed. intros E. apply bind_Ret_inv in E as (x & w1 & E & K).
  destruct x; [done|]. eauto.
Qed.

(** A [dup2] that does not fail found its source open and opened the
    target on the same file. *)
Lemma dup2_inv fd_from fd_to w r w' :
  dup2 fd_from fd_to w = Ret r w' →
  (r = -1 ∧ fdtab w' = fdtab w)
  ∨ (r = fd_to ∧ 0 ≤ fd_to
     ∧ ∃ e, fdtab w !! fd_from = Some e
        ∧ fdtab w' = if fd_from =? fd_to then fdtab w
                     else <[fd_to := FdEnt (fd_file e) false]> (fdtab w)).
Proof.
  unfold dup2, kernel_says.
  destruct (pending w) as [|k q]; simpl;
    [|destruct k; simpl; try (intros [= <- <-]; by left)];
    (destruct (fdtab w !! fd_from) as [e|]; [|intros [= <- <-]; by left]);
    (destruct (Z.ltb_spec fd_to 0); simpl; [intros [= <- <-]; by left|]);
    (destruct (open_max w <=? fd_to); simpl; [intros [= <- <-]; by left|]);
    (destruct (fd_from =? fd_to); intros [= <- <-]; right;
     (split; [done|]); (split; [done|]); by exists e).
Qed.

Lemma restartableDup2_inv fuel : ∀ fd_from fd_to w r w',
  restartableDup2 fuel fd_from fd_to w = Ret r w' → r ≠ -1 →
  ∃ e, fdtab w !! fd_from = Some e
    ∧ fdtab w' = if fd_from =? fd_to then fdtab w
                 else <[fd_to := FdEnt (fd_file e) false]> (fdtab w).
Proof.
  unfold restartableDup2.
  induction fuel as [|fuel IH]; intros fd_from fd_to w r w' E Hr; [done|].
  simpl in E. apply bind_Ret_inv in E as (r1 & w1 & E1 & E).
  unfold get_errno, bind at 1 in E.
  apply dup2_inv in E1 as [[-> Ht]|(-> & Hpos & e & He & Ht)].
  - simpl in E. destruct (errno w1 =? EINTR).
    + rewrite <- Ht. by eapply IH.
    + unfold ret in E. injection E as <- <-. done.
  - assert ((fd_to =? (-1)) = false) as Hn by lia. rewrite Hn in E. simpl in E.
    unfold ret in E. injection E as _ <-. by exists e.
Qed.

Lemma close_inv fd w r w' :
  close fd w = Ret r w' → fdtab w' = delete fd (fdtab w).
Proof.
  unfold close, kernel_says.
  destruct (pending w) as [|k q]; simpl;
    destruct (fdtab w !! fd) as [e|] eqn:He; simpl;
    try destruct k; intros [= <- <-]; simpl; try done;
    by rewrite delete_id.
Qed.

(** A move that succeeds. *)
Lemma moveDescriptor_inv fuel fd_from fd_to w w' :
  moveDescriptor fuel fd_from fd_to w = Ret 0 w' →
  fdtab w' !! fd_to = landed fd_from fd_to <$> fdtab w !! fd_from
  ∧ (fd_from ≠ fd_to →
       fdtab w' !! fd_from = None ∧ is_Some (fdtab w !! fd_from))
  ∧ (∀ fd, fd ≠ fd_from → fd ≠ fd_to → fdtab w' !! fd = fdtab w !! fd).
Proof.
  unfold moveDescriptor, landed. destruct (Z.eqb_spec fd_from fd_to) as [->|Hne].
  - simpl. intros [= <-]. split; [by destruct (fdtab w !! fd_to)|]. done.
  - cbn [negb]. intros E. apply bind_Ret_inv in E as (r & w1 & E1 & E).
    destruct (Z.eqb_spec r (-1)) as [->|Hr]; [done|].
    apply restartableDup2_inv in E1 as (e & He & Ht); [|done].
    rewrite (proj2 (Z.eqb_neq _ _) Hne) in Ht.
    apply bind_Ret_inv in E as (c & w2 & E2 & E).
    apply close_inv in E2.
    assert (w' = w2) as -> by (destruct (c =? -1); by injection E).
    rewrite E2, Ht, He. simpl. split; [|split].
    + rewrite lookup_delete_ne by done. by rewrite lookup_insert_eq.
    + intros _. split; [apply lookup_delete_eq | by eexists].
    + intros fd H1 H2. rewrite lookup_delete_ne by done.
      by rewrite lookup_insert_ne.
Qed.

Lemma failed_moveDescriptor_inv fuel fd_from fd_to w w' :
  failed (moveDescriptor fuel fd_from fd_to) w = Ret false w' →
  moveDescriptor fuel fd_from fd_to w = Ret 0 w'.
Proof.
  intros E. apply failed_inv in E as (r & E & Hr). rewrite E. f_equal.
  unfold moveDescriptor in E. destruct (negb (fd_from =? fd_to)).
  - apply bind_Ret_inv in E as (r1 & w1 & _ & E).
    destruct (r1 =? -1); [by injection E as <- |].
    apply bind_Ret_inv in E as (c & w2 & _ & E).
    destruct (c =? -1); by injection E as <-.
  - by injection E as <-.
Qed.

Lemma fmap_landed_file src tgt (o : option fdent) e :
  landed src tgt <$> o = Some e → ∃ e0, o = Some e0 ∧ fd_file e = fd_file e0.
Proof.
  destruct o as [e0|]; [|done]. intros [= <-]. exists e0. split; [done|].
  unfold landed. by destruct (src =? tgt).
Qed.

(** The table a rewiring that went through leaves. *)
Lemma move_child_sides_lands fuel p w w3 ea eb ec :
  move_child_sides fuel p w = Ret false w3 →
  2 < FAIL_FILENO → 2 < fail1 p →
  stdin_source p = 0 ∨ 2 < stdin_source p →
  stdout_source p = 1 ∨ 2 < stdout_source p →
  fdtab w !! stdin_source p = Some ea →
  fdtab w !! stdout_source p = Some eb →
  (if redirectErrorStream p then err1 p = -1 ∨ 2 < err1 p
   else (stderr_source p = 2 ∨ 2 < stderr_source p)
        ∧ fdtab w !! stderr_source p = Some ec) →
  fdtab w3 !! 0 = Some (landed (stdin_source p) 0 ea)
  ∧ fdtab w3 !! 1 = Some (landed (stdout_source p) 1 eb)
  ∧ fdtab w3 !! 2 =
      Some (if redirectErrorStream p then FdEnt (fd_file eb) false
            else landed (stderr_source p) 2 ec)
  ∧ (∀ ef, fdtab w !! fail1 p = Some ef →
       fail1 p ≠ stdin_source p → fail1 p ≠ stdout_source p →
       fail1 p ≠ (if redirectErrorStream p then err1 p else stderr_source p) →
       fdtab w3 !! FAIL_FILENO = Some (landed (fail1 p) FAIL_FILENO ef)).
Proof.
  intros E HF Hf Ha Hb Hea Heb Hc.
  unfold move_child_sides in E.
  change (if negb (in0 p =? -1) then in0 p else fds0 p)
    with (stdin_source p) in E.
  change (if negb (out1 p =? -1) then out1 p else fds1 p)
    with (stdout_source p) in E.
  change (if negb (err1 p =? -1) then err1 p else fds2 p)
    with (stderr_source p) in E.
  unfold STDIN_FILENO, STDOUT_FILENO, STDERR_FILENO in E.
  set (a := stdin_source p) in *. set (b := stdout_source p) in *.
  set (c := stderr_source p) in *. set (f := fail1 p) in *.
  apply bind_Ret_inv in E as (x & wb & E12 & E). destruct x; [done|].
  apply or_failed_inv in E12 as (wa & Ea & Eb).
  apply failed_moveDescriptor_inv, moveDescriptor_inv in Ea as (A1 & A2 & A3).
  apply failed_moveDescriptor_inv, moveDescriptor_inv in Eb as (B1 & B2 & B3).
  apply bind_Ret_inv in E as (y & wc & Ec & E). destruct y; [done|].
  apply failed_moveDescriptor_inv, moveDescriptor_inv in E as (F1 & F2 & F3).
  assert (Hab : a ≠ b).
  { intros Heq. destruct (A2 ltac:(lia)) as [Hgone _].
    destruct (B2 ltac:(lia)) as [_ [e He]]. congruence. }
  assert (Hwab : fdtab wa !! b = Some eb) by (rewrite A3 by lia; done).
  assert (Hwb0 : fdtab wb !! 0 = Some (landed a 0 ea)).
  { rewrite B3 by lia. by rewrite A1, Hea. }
  assert (Hwb1 : fdtab wb !! 1 = Some (landed b 1 eb)) by (by rewrite B1, Hwab).
  assert (Hwbf : f ≠ a → f ≠ b → fdtab wb !! f = fdtab w !! f).
  { intros. rewrite B3 by lia. by rewrite A3 by lia. }
  assert (fdtab wc !! 0 = Some (landed a 0 ea)
          ∧ fdtab wc !! 1 = Some (landed b 1 eb)
          ∧ fdtab wc !! 2 =
              Some (if redirectErrorStream p then FdEnt (fd_file eb) false
                    else landed c 2 ec)
          ∧ (f ≠ (if redirectErrorStream p then err1 p else c) →
             fdtab wc !! f = fdtab wb !! f)) as (Hwc0 & Hwc1 & Hwc2 & Hwcf).
  { destruct (redirectErrorStream p).
    - apply or_failed_inv in Ec as (wc1 & Ec1 & Ec2).
      apply failed_inv in Ec1 as (r1 & Ec1 & _).
      apply closeSafely_inv in Ec1 as (C1 & _).
      apply failed_inv in Ec2 as (r2 & Ec2 & Hr2).
      apply restartableDup2_inv in Ec2 as (e1 & He1 & Ht); [|done].
      simpl in Ht. rewrite Ht.
      rewrite C1 in He1 by lia. rewrite Hwb1 in He1. injection He1 as <-.
      split; [|split; [|split]].
      + rewrite lookup_insert_ne by lia. by rewrite C1 by lia.
      + rewrite lookup_insert_ne by lia. by rewrite C1 by lia.
      + rewrite lookup_insert_eq. do 2 f_equal.
        unfold landed. by destruct (b =? 1).
      + intros Hfe. rewrite lookup_insert_ne by lia. by rewrite C1 by lia.
    - destruct Hc as (Hc & Hec).
      apply failed_moveDescriptor_inv, moveDescriptor_inv in Ec
        as (C1 & C2 & C3).
      assert (Hac : c ≠ a).
      { intros Heq. destruct (C2 ltac:(lia)) as [_ [e He]].
        rewrite B3 in He by lia. destruct (A2 ltac:(lia)) as [Hgone _].
        congruence. }
      assert (Hbc : c ≠ b).
      { intros Heq. destruct (C2 ltac:(lia)) as [_ [e He]].
        destruct (B2 ltac:(lia)) as [Hgone _]. congruence. }
      split; [|split; [|split]].
      + by rewrite C3 by lia.
      + by rewrite C3 by lia.
      + rewrite C1, B3, A3 by lia. by rewrite Hec.
      + intros Hfc. by rewrite C3 by lia. }
  split; [|split; [|split]].
  - by rewrite F3 by lia.
  - by rewrite F3 by lia.
  - by rewrite F3 by lia.
  - intros ef Hef Hfa Hfb Hfc. by rewrite F1, Hwcf, Hwbf, Hef.
Qed.

(** X14: what a rewiring that went through leaves.  When the sources
    of the three streams are the standard descriptors themselves or
    lie beyond them, and the failure channel is none of them, then
    after [move_child_sides] has succeeded, under whatever
    interruptions, descriptors 0, 1 and 2 are open on the files the
    sources were open on (with [redirectErrorStream], 2 on the file
    of 1), and FAIL_FILENO on the file of the failure channel. *)
Theorem move_child_sides_rewires :
  ∀ fuel p w w3 ea eb ec ef,
    move_child_sides fuel p w = Ret false w3 →
    2 < FAIL_FILENO → 2 < fail1 p →
    stdin_source p = 0 ∨ 2 < stdin_source p →
    stdout_source p = 1 ∨ 2 < stdout_source p →
    fdtab w !! stdin_source p = Some ea →
    fdtab w !! stdout_source p = Some eb →
    fdtab w !! fail1 p = Some ef →
    fail1 p ≠ stdin_source p → fail1 p ≠ stdout_source p →
    (if redirectErrorStream p
     then (err1 p = -1 ∨ 2 < err1 p) ∧ fail1 p ≠ err1 p
     else (stderr_source p = 2 ∨ 2 < stderr_source p)
          ∧ fail1 p ≠ stderr_source p
          ∧ fdtab w !! stderr_source p = Some ec) →
    fdtab w3 !! 0 = Some (landed (stdin_source p) 0 ea)
    ∧ fdtab w3 !! 1 = Some (landed (stdout_source p) 1 eb)
    ∧ fdtab w3 !! 2 =
        Some (if redirectErrorStream p then FdEnt (fd_file eb) false
              else landed (stderr_source p) 2 ec)
    ∧ fdtab w3 !! FAIL_FILENO = Some (landed (fail1 p) FAIL_FILENO ef).
Proof.
  intros fuel p w w3 ea eb ec ef E HF Hf Ha Hb Hea Heb Hef Hfa Hfb Hc.
  destruct (move_child_sides_lands fuel p w w3 ea eb ec E HF Hf Ha Hb Hea Heb)
    as (H0 & H1 & H2 & H3).
  { destruct (redirectErrorStream p); tauto. }
  split; [done|]. split; [done|]. split; [done|].
  apply H3; try done. destruct (redirectErrorStream p); tauto.
Qed.

Lemma inherited_lookup t fd : inherited t !! fd = (t !! fd) ≫= survives.
Proof.
  unfold inherited. destruct (t !! fd) as [e|] eqn:He; simpl.
  - unfold survives. destruct (fd_cloexec e) eqn:Hc.
    + apply map_lookup_filter_None. right. intros x Hx. simpl. congruence.
    + apply map_lookup_filter_Some. done.
  - apply map_lookup_filter_None. by left.
Qed.

Lemma alive_ping_keeps_table fuel p : preserves (kept fdtab) (alive_ping fuel p).
Proof. frames. Qed.

(** X15: the descriptors of the program a launch ends in.  On a
    launch whose pipe ends lie beyond the standard descriptors, with
    the sources of the three streams the standard descriptors
    themselves or beyond them too, the new program finds 0, 1 and 2
    open on the files of those sources (with [redirectErrorStream], 2
    on the file of 1) and nothing else; a standard descriptor handed
    in in place survives only if it was not close-on-exec. *)
Theorem launched_program_descriptors :
  ∀ fuel p w w' ea eb ec,
    childProcess fuel p w = Replaced w' →
    table_ok w → 2 < FAIL_FILENO → 2 < fail1 p →
    (∀ fd, fd ∈ leftover_pipe_ends p → fd = -1 ∨ 2 < fd) →
    stdin_source p ∉ leftover_pipe_ends p →
    stdout_source p ∉ leftover_pipe_ends p →
    stdin_source p = 0 ∨ 2 < stdin_source p →
    stdout_source p = 1 ∨ 2 < stdout_source p →
    fdtab w !! stdin_source p = Some ea →
    fdtab w !! stdout_source p = Some eb →
    (if redirectErrorStream p then err1 p = -1 ∨ 2 < err1 p
     else (stderr_source p = 2 ∨ 2 < stderr_source p)
          ∧ (stderr_source p ∉ leftover_pipe_ends p)
          ∧ fdtab w !! stderr_source p = Some ec) →
    fdtab w' !! 0 = survives (landed (stdin_source p) 0 ea)
    ∧ fdtab w' !! 1 = survives (landed (stdout_source p) 1 eb)
    ∧ fdtab w' !! 2 =
        survives (if redirectErrorStream p then FdEnt (fd_file eb) false
                  else landed (stderr_source p) 2 ec)
    ∧ (∀ fd, 2 < fd → fdtab w' !! fd = None).
Proof.
  intros fuel p w w' ea eb ec E Hok HF Hf Hends Hal Hbl Ha Hb Hea Heb Hc.
  apply childProcess_Replaced_inv in E
    as (w1 & w2 & w3 & w4 & w5 & w6 & E1 & E2 & E3 & E4 & E5 & E6 & E7).
  (* the table stays inside the limit *)
  pose proof (alive_ping_within_limit fuel p w) as L1. rewrite E1 in L1.
  pose proof (close_parent_sides_within_limit p w1) as L2. rewrite E2 in L2.
  pose proof (move_child_sides_within_limit fuel p w2) as L3. rewrite E3 in L3.
  simpl in L1, L2, L3.
  assert (Hok3 : table_ok w3).
  { apply L3, L2, L1, Hok. }
  (* the three sources are still what they were when the rewiring starts *)
  pose proof (alive_ping_keeps_table fuel p w) as K1. rewrite E1 in K1.
  unfold kept in K1. simpl in K1.
  rewrite close_parent_sides_chain in E2.
  destruct (close_chain_inv _ _ _ _ E2) as (Hsame & _ & _).
  edestruct (move_child_sides_lands fuel p w2 w3 ea eb ec E3 HF Hf Ha Hb)
    as (H0 & H1 & H2 & _).
  { by rewrite Hsame, K1. }
  { by rewrite Hsame, K1. }
  { destruct (redirectErrorStream p); [done|].
    destruct Hc as (? & ? & ?). split; [done|]. by rewrite Hsame, K1. }
  (* the quarantine *)
  destruct (close_everything_marks w3 Hok3) as (w4' & E4' & Hq & Hm & _).
  rewrite E4 in E4'. injection E4' as <-.
  pose proof (change_directory_keeps_table p w4) as K5. rewrite E5 in K5.
  pose proof (reset_signal_mask_keeps_table p w5) as K6. rewrite E6 in K6.
  unfold kept in K5, K6. simpl in K5, K6.
  pose proof (hands_over_JDK_execvpe (mode p) (argv_0 p) (argv p) (envv p) w6)
    as K7. rewrite E7 in K7. rewrite K7, K6, K5.
  assert (Hstd : ∀ fd e, fd < 3 → fdtab w3 !! fd = Some e →
                         fdtab w4 !! fd = Some e).
  { intros fd e Hfd He. specialize (Hm fd). rewrite He in Hm.
    destruct (fdtab w4 !! fd) as [e'|]; [|done].
    destruct Hm as (_ & _ & Hm). f_equal. apply Hm.
    unfold STDERR_FILENO. lia. }
  rewrite !inherited_lookup.
  rewrite (Hstd 0 _ ltac:(lia) H0), (Hstd 1 _ ltac:(lia) H1),
    (Hstd 2 _ ltac:(lia) H2). simpl.
  split; [done|]. split; [done|]. split; [done|].
  intros fd Hfd. rewrite inherited_lookup.
  destruct (fdtab w4 !! fd) as [e|] eqn:He; [|done]. simpl.
  unfold survives. rewrite (Hq fd e He); [done|]. unfold STDERR_FILENO. lia.
Qed.

(** ** Launches that are set up well, on a kernel that lets them run *)

Lemma closeSafely_runs a w :
  pending w = [] → a = -1 ∨ is_Some (fdtab w !! a) →
  ∃ w', closeSafely a w = Ret 0 w' ∧ pending w' = [] ∧ open_max w' = open_max w.
Proof.
  intros Hp Ha. unfold closeSafely. destruct (Z.eqb_spec a (-1)) as [->|Hne].
  - by exists w.
  - destruct Ha as [?|[e He]]; [done|].
    rewrite (close_undisturbed _ _ e) by done. eexists. split; [done|]. done.
Qed.

Lemma close_chain_runs l : ∀ w,
  pending w = [] →
  (∀ fd, fd ∈ l → fd = -1 ∨ is_Some (fdtab w !! fd)) →
  NoDup (filter (fun fd => fd ≠ -1) l) →
  ∃ w', close_chain l w = Ret false w' ∧ pending w' = [].
Proof.
  induction l as [|a l IH]; intros w Hp Hopen Hnd; [by exists w|].
  destruct (closeSafely_runs a w Hp) as (w1 & E1 & Hp1 & _);
    [apply Hopen; by left|].
  assert (failed (closeSafely a) w = Ret false w1) as F1.
  { unfold failed. by erewrite bind_Ret by exact E1. }
  destruct l as [|b l]; [by exists w1|].
  rewrite close_chain_cons. unfold or_failed. erewrite bind_Ret by exact F1.
  apply IH; [done | |].
  - intros fd Hfd. destruct (decide (fd = -1)) as [|Hfd1]; [by left|]. right.
    destruct (Hopen fd) as [?|Hs]; [by right | done |].
    destruct (closeSafely_inv _ _ _ _ E1) as (Hsame & _).
    rewrite Hsame; [done|].
    destruct (decide (a = -1)) as [|Ha1]; [by right|]. left. intros ->.
    rewrite filter_cons_True in Hnd by done.
    apply NoDup_cons in Hnd as [Hnotin _]. apply Hnotin.
    by apply list_elem_of_filter.
  - rewrite filter_cons in Hnd.
    destruct (decide (a ≠ -1)); [by apply NoDup_cons in Hnd as [_ ?] | done].
Qed.

Lemma alive_ping_runs fuel p w :
  pending w = [] → is_Some (fdtab w !! fail1 p) → (0 < fuel)%nat →
  ∃ w1, alive_ping fuel p w = Ret false w1
    ∧ wire (trace w1) = wire (trace w) ++ ping p.
Proof.
  intros Hp Hf Hfuel. unfold alive_ping, ping. destruct (sendAlivePing p).
  - destruct (writeFully_loop_transfers (fail1 p) sizeof_int fuel w
                (int_bytes CHILD_IS_ALIVE) sizeof_int) as (w1 & E & _ & Hw & _).
    + done.
    + rewrite Hp. constructor.
    + rewrite length_int_bytes. unfold sizeof_int. lia.
    + rewrite Hp. simpl. lia.
    + unfold writeFully. erewrite bind_Ret by exact E. exists w1.
      split; [by rewrite Z.eqb_refl|]. rewrite Hw. reflexivity.
  - exists w. by rewrite app_nil_r.
Qed.

Lemma moveDescriptor_runs fuel fd_from fd_to w e :
  pending w = [] → fdtab w !! fd_from = Some e → 0 ≤ fd_to < open_max w →
  ∃ w', moveDescriptor (S fuel) fd_from fd_to w = Ret 0 w'
    ∧ pending w' = [] ∧ open_max w' = open_max w.
Proof.
  intros Hp He Hto. unfold moveDescriptor.
  destruct (Z.eqb_spec fd_from fd_to) as [->|Hne]; [by exists w|].
  cbn [negb]. unfold restartableDup2.
  erewrite bind_Ret; last first.
  { apply RESTARTABLE_once; [by eapply dup2_undisturbed|].
    apply andb_false_intro1. lia. }
  assert ((fd_to =? (-1)) = false) as -> by lia.
  erewrite bind_Ret; last first.
  { eapply close_undisturbed; simpl; [done|].
    rewrite lookup_insert_ne by done. exact He. }
  eexists. split; [done|]. done.
Qed.

Lemma failed_Ret (m : M Z) w w' :
  m w = Ret 0 w' → failed m w = Ret false w'.
Proof. intros E. unfold failed. by erewrite bind_Ret by exact E. Qed.

(** The rewiring of a well-formed launch goes through. *)
Lemma move_child_sides_runs fuel p w ea eb ef :
  pending w = [] → 2 < open_max w →
  2 < FAIL_FILENO < open_max w →
  (stdin_source p = 0 ∨ 2 < stdin_source p) →
  (stdout_source p = 1 ∨ 2 < stdout_source p) →
  stdout_source p ≠ stdin_source p →
  fdtab w !! stdin_source p = Some ea →
  fdtab w !! stdout_source p = Some eb →
  (if redirectErrorStream p
   then err1 p = -1
        ∨ (2 < err1 p ∧ is_Some (fdtab w !! err1 p)
           ∧ err1 p ≠ stdin_source p ∧ err1 p ≠ stdout_source p)
   else (stderr_source p = 2 ∨ 2 < stderr_source p)
        ∧ is_Some (fdtab w !! stderr_source p)
        ∧ stderr_source p ≠ stdin_source p
        ∧ stderr_source p ≠ stdout_source p) →
  2 < fail1 p → fdtab w !! fail1 p = Some ef →
  fail1 p ≠ stdin_source p → fail1 p ≠ stdout_source p →
  fail1 p ≠ third_source p →
  ∃ w3, move_child_sides (S fuel) p w = Ret false w3 ∧ pending w3 = [].
Proof.
  intros Hp Hmax HF Ha Hb Hba Hea Heb Hc Hf Hef Hfa Hfb Hfc.
  unfold move_child_sides, third_source in *.
  change (if negb (in0 p =? -1) then in0 p else fds0 p)
    with (stdin_source p).
  change (if negb (out1 p =? -1) then out1 p else fds1 p)
    with (stdout_source p).
  change (if negb (err1 p =? -1) then err1 p else fds2 p)
    with (stderr_source p).
  unfold STDIN_FILENO, STDOUT_FILENO, STDERR_FILENO.
  set (a := stdin_source p) in *. set (b := stdout_source p) in *.
  set (c := stderr_source p) in *. set (f := fail1 p) in *.
  destruct (moveDescriptor_runs fuel a 0 w ea) as (wa & Ea & Hpa & Hma);
    [done | done | lia |].
  pose proof (moveDescriptor_inv _ _ _ _ _ Ea) as (A1 & A2 & A3).
  destruct (moveDescriptor_runs fuel b 1 wa eb) as (wb & Eb & Hpb & Hmb);
    [done | by rewrite A3 by lia | lia |].
  pose proof (moveDescriptor_inv _ _ _ _ _ Eb) as (B1 & B2 & B3).
  assert (or_failed (failed (moveDescriptor (S fuel) a 0))
                    (failed (moveDescriptor (S fuel) b 1)) w = Ret false wb) as E12.
  { unfold or_failed. erewrite bind_Ret by (apply failed_Ret; exact Ea).
    by apply failed_Ret. }
  erewrite bind_Ret by exact E12. cbv iota beta.
  assert (∃ wc, (if redirectErrorStream p
                 then or_failed (failed (closeSafely (err1 p)))
                                (failed (restartableDup2 (S fuel) 1 2))
                 else failed (moveDescriptor (S fuel) c 2)) wb = Ret false wc
                ∧ pending wc = [] ∧ open_max wc = open_max w
                ∧ fdtab wc !! f = Some ef) as (wc & Ec & Hpc & Hmc & Hcf).
  { destruct (redirectErrorStream p).
    - destruct (closeSafely_runs (err1 p) wb Hpb) as (wc1 & Ec1 & Hpc1 & Hmc1).
      { destruct Hc as [?|(? & ? & ? & ?)]; [by left|right].
        rewrite B3, A3 by lia. done. }
      pose proof (closeSafely_inv _ _ _ _ Ec1) as (C1 & _).
      assert (Herr : err1 p ≠ 1 ∧ err1 p ≠ f) by (split; [lia | done]).
      assert (is_Some (fdtab wc1 !! 1)) as [e1 He1].
      { rewrite C1 by lia. rewrite B1. rewrite A3 by lia. rewrite Heb. by eexists. }
      destruct (restartableDup2_interrupted 0 (S fuel) 1 2 wc1 e1)
        as (wc & Ec2 & Ht & _ & Hpc & Hmc); [done | lia | done | lia | lia |].
      exists wc. split.
      { unfold or_failed. erewrite bind_Ret by (apply failed_Ret; exact Ec1).
        unfold failed. by erewrite bind_Ret by exact Ec2. }
      split; [done|]. split; [congruence|].
      rewrite Ht. rewrite lookup_insert_ne by lia.
      rewrite C1 by lia. rewrite B3, A3 by lia. done.
    - destruct Hc as (Hc & [ec Hec] & Hca & Hcb).
      destruct (moveDescriptor_runs fuel c 2 wb ec) as (wc & Ec & Hpc & Hmc);
        [done | by rewrite B3, A3 by lia | lia |].
      pose proof (moveDescriptor_inv _ _ _ _ _ Ec) as (C1 & C2 & C3).
      exists wc. split; [by apply failed_Ret|].
      split; [done|]. split; [congruence|].
      rewrite C3, B3, A3 by lia. done. }
  erewrite bind_Ret by exact Ec. cbv iota beta.
  destruct (moveDescriptor_runs fuel f FAIL_FILENO wc ef) as (w3 & E3 & Hp3 & _);
    [done | done | lia |].
  exists w3. split; [by apply failed_Ret | done].
Qed.

Lemma stages_relate R `{!PreOrder R} fuel p w w1 w2 w3 w4 :
  preserves R (alive_ping fuel p) →
  preserves R (close_parent_sides p) →
  preserves R (move_child_sides fuel p) →
  preserves R close_everything →
  alive_ping fuel p w = Ret false w1 →
  close_parent_sides p w1 = Ret false w2 →
  move_child_sides fuel p w2 = Ret false w3 →
  close_everything w3 = Ret false w4 →
  R w w1 ∧ R w w2 ∧ R w w3 ∧ R w w4.
Proof.
  intros H1 H2 H3 H4 E1 E2 E3 E4.
  pose proof (H1 w) as R1. rewrite E1 in R1.
  pose proof (H2 w1) as R2. rewrite E2 in R2.
  pose proof (H3 w2) as R3. rewrite E3 in R3.
  pose proof (H4 w3) as R4. rewrite E4 in R4. simpl in *.
  assert (R w w2) by (etrans; eauto). assert (R w w3) by (etrans; eauto).
  assert (R w w4) by (etrans; eauto). done.
Qed.

(** On a well-formed launch that the kernel lets run, the descriptors
    get prepared and control reaches the change of directory, with the
    failure channel open at FAIL_FILENO and nothing but the alive ping
    written. *)
Lemma prelude_stages fuel p w :
  well_formed p w → pending w = [] → (0 < fuel)%nat →
  ∃ w1 w2 w3 w4,
    alive_ping fuel p w = Ret false w1
    ∧ close_parent_sides p w1 = Ret false w2
    ∧ move_child_sides fuel p w2 = Ret false w3
    ∧ close_everything w3 = Ret false w4
    ∧ pending w4 = [] ∧ is_Some (fdtab w4 !! FAIL_FILENO)
    ∧ wire (trace w4) = wire (trace w) ++ ping p
    ∧ setting w4 = setting w.
Proof.
  intros [Hok HF Hends Hnd (Ha & [ea Hea] & Hal) (Hb & [eb Heb] & Hbl & Hba)
            Hc (Hf & [ef Hef] & Hfl & Hfa & Hfb & Hfc)] Hp Hfuel.
  destruct fuel as [|fuel]; [lia|].
  (* the alive ping *)
  destruct (alive_ping_runs (S fuel) p w Hp) as (w1 & E1 & Hw1);
    [by eexists | lia |].
  pose proof (alive_ping_keeps_table (S fuel) p w) as K1. rewrite E1 in K1.
  unfold kept in K1. simpl in K1.
  assert (Hp1 : pending w1 = []).
  { assert (preserves pending_le (alive_ping (S fuel) p)) as P by frames.
    specialize (P w). rewrite E1 in P. unfold pending_le in P. simpl in P.
    rewrite Hp in P. destruct (pending w1); [done | simpl in P; lia]. }
  (* the parent sides *)
  destruct (close_chain_runs (leftover_pipe_ends p) w1 Hp1) as (w2 & E2 & Hp2);
    [|done|].
  { intros fd Hfd. rewrite K1. destruct (Hends fd Hfd) as [?|[_ ?]]; auto. }
  destruct (close_chain_inv _ _ _ _ E2) as (Hsame & _ & _).
  rewrite <- close_parent_sides_chain in E2.
  assert (Hm2 : open_max w2 = open_max w).
  { pose proof (alive_ping_within_limit (S fuel) p w) as L1. rewrite E1 in L1.
    pose proof (close_parent_sides_within_limit p w1) as L2. rewrite E2 in L2.
    destruct L1 as [L1 _], L2 as [L2 _]. simpl in *. congruence. }
  (* the child sides *)
  assert (Hc2 :
    if redirectErrorStream p
    then err1 p = -1
         ∨ (2 < err1 p ∧ is_Some (fdtab w2 !! err1 p)
            ∧ err1 p ≠ stdin_source p ∧ err1 p ≠ stdout_source p)
    else (stderr_source p = 2 ∨ 2 < stderr_source p)
         ∧ is_Some (fdtab w2 !! stderr_source p)
         ∧ stderr_source p ≠ stdin_source p
         ∧ stderr_source p ≠ stdout_source p).
  { destruct (redirectErrorStream p).
    - destruct Hc as [?|(? & ? & ? & ? & ?)]; [by left|right].
      rewrite Hsame, K1 by done. done.
    - destruct Hc as (? & ? & ? & ? & ?). rewrite Hsame, K1 by done. done. }
  destruct (move_child_sides_runs fuel p w2 ea eb ef) as (w3 & E3 & Hp3);
    try done; try (by rewrite Hsame, K1); try lia.
  destruct (move_child_sides_lands (S fuel) p w2 w3 ea eb
              (default ea (fdtab w2 !! stderr_source p)) E3)
    as (_ & _ & _ & HFAIL); try done; try (by rewrite Hsame, K1); try lia.
  { destruct (redirectErrorStream p).
    - destruct Hc2 as [?|(? & _)]; auto.
    - destruct Hc2 as (? & [ec Hec] & _). split; [done|]. by rewrite Hec. }
  specialize (HFAIL ef). rewrite Hsame, K1 in HFAIL by done.
  specialize (HFAIL Hef Hfa Hfb Hfc).
  (* the quarantine *)
  assert (Hok3 : table_ok w3).
  { pose proof (alive_ping_within_limit (S fuel) p w) as L1. rewrite E1 in L1.
    pose proof (close_parent_sides_within_limit p w1) as L2. rewrite E2 in L2.
    pose proof (move_child_sides_within_limit (S fuel) p w2) as L3.
    rewrite E3 in L3. apply L3, L2, L1, Hok. }
  destruct (close_everything_marks w3 Hok3) as (w4 & E4 & _ & Hm & Htr & _).
  assert (Hp4 : pending w4 = []).
  { destruct (returning_close_everything 1 w3) as (x & w4' & E4' & P);
      [rewrite Hp3; simpl; lia|].
    rewrite E4 in E4'. injection E4' as _ <-. unfold pending_le in P.
    rewrite Hp3 in P. destruct (pending w4); [done | simpl in P; lia]. }
  exists w1, w2, w3, w4. do 4 (split; [done|]).
  split; [done|split; [|split]].
  - apply (marked_from_open _ _ _ Hm). by eexists.
  - rewrite Htr.
    pose proof (close_parent_sides_silent p w1) as S2. rewrite E2 in S2.
    pose proof (move_child_sides_silent (S fuel) p w2) as S3. rewrite E3 in S3.
    unfold silent, kept in S2, S3. simpl in S2, S3. congruence.
  - destruct (stages_relate (kept setting) (S fuel) p w w1 w2 w3 w4)
      as (_ & _ & _ & K); try done; unfold setting; frames.
Qed.

Lemma prelude_runs fuel p w :
  well_formed p w → pending w = [] → (0 < fuel)%nat →
  ∃ w4,
    childProcess fuel p w =
      (x <- change_directory p ;;
       if x : bool then WhyCantJohnnyExec fuel FAIL_FILENO else
       reset_signal_mask p ;;;
       JDK_execvpe (mode p) (argv_0 p) (argv p) (envv p) ;;;
       WhyCantJohnnyExec fuel FAIL_FILENO) w4
    ∧ pending w4 = [] ∧ is_Some (fdtab w4 !! FAIL_FILENO)
    ∧ wire (trace w4) = wire (trace w) ++ ping p
    ∧ setting w4 = setting w.
Proof.
  intros Hwf Hp Hfuel.
  destruct (prelude_stages fuel p w Hwf Hp Hfuel)
    as (w1 & w2 & w3 & w4 & E1 & E2 & E3 & E4 & H).
  exists w4. split; [|done].
  unfold childProcess. cbv zeta.
  erewrite bind_Ret by exact E1. cbv iota.
  erewrite bind_Ret by exact E2. cbv iota.
  erewrite bind_Ret by exact E3. cbv iota.
  erewrite bind_Ret by exact E4. cbv iota. done.
Qed.

(** X16: a well-formed launch whose directory the kernel refuses.
    The process exits with -1 after telling the parent why: what went
    out on the failure channel is the alive ping, when asked for, and
    then the [errno] of [chdir], whole; no exec was attempted. *)
Theorem launch_reports_chdir_error :
  ∀ fuel p w d e,
    well_formed p w → pending w = [] → (0 < fuel)%nat →
    pdir p = Some d → chdir_verdict w d = Some e →
    ∃ w', childProcess fuel p w = Exited (-1) w'
      ∧ wire (trace w') = wire (trace w) ++ ping p ++ int_bytes e
      ∧ exec_attempts (trace w') = exec_attempts (trace w).
Proof.
  intros fuel p w d e Hwf Hp Hfuel Hdir Hno.
  destruct (prelude_runs fuel p w Hwf Hp Hfuel)
    as (w4 & -> & Hp4 & HF4 & Hw4 & Hs4).
  unfold setting in Hs4. injection Hs4 as _ Hv _ _ _ _ _ Ha.
  unfold change_directory, chdir. rewrite Hdir.
  unfold bind at 1 2. simpl chdir_verdict. rewrite Hv, Hno. simpl.
  destruct (WhyCantJohnnyExec_reports fuel FAIL_FILENO
              (set_errno e (log (EvChdir d) w4))) as (w' & E & Hw');
    [done | simpl; rewrite Hp4; constructor | simpl; rewrite Hp4; simpl; lia |].
  exists w'. split; [done|]. split.
  - rewrite Hw'. simpl. rewrite wire_app, Hw4. simpl.
    by rewrite app_nil_r, <- app_assoc.
  - pose proof (WhyCantJohnnyExec_no_exec fuel FAIL_FILENO
                  (set_errno e (log (EvChdir d) w4))) as N.
    rewrite E in N. unfold no_exec, kept in N. simpl in N.
    rewrite N, exec_attempts_app. simpl. by rewrite app_nil_r.
Qed.

(** X17: the fate of a well-formed launch of a program named by a
    path, with an environment of its own, is the loader's verdict on
    that path.  When the loader takes the program the process image is
    replaced, after one exec attempt and with nothing but the alive
    ping written; when it refuses with an error (other than ENOEXEC in
    MODE_VFORK, where the shell is tried next) the process exits with
    -1 and the parent is sent the ping and then that error, whole. *)
Theorem launch_fate_is_the_loaders_verdict :
  ∀ fuel p w,
    well_formed p w → pending w = [] → (0 < fuel)%nat →
    (∀ d, pdir p = Some d → chdir_verdict w d = None) →
    envv p ≠ 0 → envv p ≠ environ w → strchr (argv_0 p) "/" = true →
    match loader w (prim_of (mode p)) (argv_0 p) with
    | None =>
        ∃ w', childProcess fuel p w = Replaced w'
          ∧ wire (trace w') = wire (trace w) ++ ping p
          ∧ exec_attempts (trace w')
            = exec_attempts (trace w) ++ [(prim_of (mode p), argv_0 p)]
    | Some e =>
        e ≠ ENOEXEC ∨ mode p ≠ MODE_VFORK →
        ∃ w', childProcess fuel p w = Exited (-1) w'
          ∧ wire (trace w') = wire (trace w) ++ ping p ++ int_bytes e
          ∧ exec_attempts (trace w')
            = exec_attempts (trace w) ++ [(prim_of (mode p), argv_0 p)]
    end.
Proof.
  intros fuel p w Hwf Hp Hfuel Hdir H0 Henv Hslash.
  destruct (prelude_runs fuel p w Hwf Hp Hfuel)
    as (w4 & -> & Hp4 & HF4 & Hw4 & Hs4).
  unfold setting in Hs4. injection Hs4 as Hl Hv He _ _ _ _ Ha.
  (* the directory and the signal mask *)
  set (w5 := match pdir p with
             | Some d => set_cwd d (log (EvChdir d) w4)
             | None => w4
             end).
  assert (E5 : change_directory p w4 = Ret false w5).
  { unfold change_directory, w5. destruct (pdir p) as [d|]; [|done].
    unfold chdir, bind. simpl chdir_verdict. by rewrite Hv, (Hdir d). }
  set (w6 := if mode p =? MODE_VFORK then w5
             else set_sigmask [] (log (EvSigSetMask []) w5)).
  erewrite bind_Ret by exact E5. cbv iota.
  erewrite bind_Ret by apply reset_signal_mask_spec. fold w6.
  assert (loader w6 = loader w ∧ environ w6 = environ w
                ∧ pending w6 = [] ∧ fdtab w6 = fdtab w4
                ∧ wire (trace w6) = wire (trace w) ++ ping p
                ∧ exec_attempts (trace w6) = exec_attempts (trace w))
    as (Hl6 & He6 & Hp6 & Ht6 & Hwire6 & Ha6).
  { unfold w6, w5. destruct (mode p =? MODE_VFORK), (pdir p); simpl;
      rewrite ?wire_app, ?exec_attempts_app; simpl; rewrite ?app_nil_r; done. }
  clearbody w6. clear w5 E5.
  assert (Hat : ∀ e',
    let w7 := set_errno e' (attempted (mode p) (argv_0 p) (argv p) (envv p) w6) in
    pending w7 = [] ∧ fdtab w7 = fdtab w4
    ∧ wire (trace w7) = wire (trace w) ++ ping p
    ∧ exec_attempts (trace w7)
      = exec_attempts (trace w) ++ [(prim_of (mode p), argv_0 p)]).
  { intros e'. unfold attempted. destruct (mode p =? MODE_VFORK) eqn:Hm; simpl;
      rewrite wire_app, exec_attempts_app; simpl; rewrite app_nil_r;
      unfold prim_of; rewrite Hm, Ha6; done. }
  rewrite <- Hl6.
  rewrite <- He6 in Henv.
  pose proof (JDK_execvpe_direct (mode p) (argv_0 p) (argv p) (envv p) w6
                H0 Henv Hslash) as Ed.
  destruct (loader w6 (prim_of (mode p)) (argv_0 p)) as [e|] eqn:Hld.
  - intros Hcase.
    assert (JDK_execvpe (mode p) (argv_0 p) (argv p) (envv p) w6
            = Ret (argv p)
                (set_errno e (attempted (mode p) (argv_0 p) (argv p) (envv p) w6)))
      as E7.
    { rewrite Ed. destruct Hcase as [Hne|Hm]; [by apply attempt_fails|].
      apply attempt_fails_copied; [done|].
      unfold prim_of in Hld. by rewrite (proj2 (Z.eqb_neq _ _) Hm) in Hld. }
    erewrite bind_Ret by exact E7.
    destruct (Hat e) as (Hp7 & Ht7 & Hw7 & Ha7). cbv zeta in *.
    destruct (WhyCantJohnnyExec_reports fuel FAIL_FILENO
                (set_errno e (attempted (mode p) (argv_0 p) (argv p) (envv p) w6)))
      as (w' & E & Hw');
      [by rewrite Ht7 | rewrite Hp7; constructor | rewrite Hp7; simpl; lia |].
    exists w'. split; [done|]. split.
    + rewrite Hw', Hw7. simpl. by rewrite <- app_assoc.
    + pose proof (WhyCantJohnnyExec_no_exec fuel FAIL_FILENO
                    (set_errno e (attempted (mode p) (argv_0 p) (argv p)
                                            (envv p) w6))) as N.
      rewrite E in N. unfold no_exec, kept in N. simpl in N. by rewrite N.
  - erewrite bind_Replaced; last first.
    { rewrite Ed. by apply attempt_loads. }
    eexists. split; [done|].
    destruct (Hat 0) as (_ & _ & Hw7 & Ha7). cbv zeta in *. simpl in *. done.
Qed.

(** ** More on reads and writes *)

(** Whatever the kernel answers, the loop ends with everything written
    or with -1 and less than that written, in order. *)
Lemma writeFully_loop_all_or_less fd nbyte fuel : ∀ w buf remaining,
  0 < remaining ≤ Z.of_nat (length buf) →
  (length (pending w) < fuel)%nat →
  ∃ r w' k,
    writeFully_loop fuel fd buf nbyte remaining w = Ret r w'
    ∧ pending_le w w'
    ∧ wire (trace w') = wire (trace w) ++ take k buf
    ∧ (r = nbyte ∧ k = Z.to_nat remaining
       ∨ r = -1 ∧ (k < Z.to_nat remaining)%nat).
Proof.
  induction fuel as [|fuel IH]; intros w buf remaining Hrem Hfuel; [lia|].
  simpl writeFully_loop.
  destruct (fdtab w !! fd) as [e|] eqn:He.
  2:{ destruct (write_closed fd buf remaining w He) as (w1 & E & Herr & Hw & Hp).
      erewrite bind_Ret by exact E. simpl (0 <? -1).
      unfold get_errno at 1. unfold bind at 1. simpl. rewrite Herr. simpl.
      exists (-1), w1, 0%nat. split; [done|]. split; [done|].
      rewrite Hw, take_0, app_nil_r. split; [done|]. right. split; [done|lia]. }
  pose proof (write_cases fd buf remaining w ltac:(eauto) ltac:(lia)) as Hw.
  unfold pending_le.
  destruct (pending w) as [|[|er|j] q] eqn:Hq.
  - erewrite bind_Ret by exact Hw.
    assert ((0 <? remaining) = true) as -> by lia.
    assert ((remaining - remaining <=? 0) = true) as -> by lia.
    eexists _, _, (Z.to_nat remaining). split; [done|]. simpl.
    rewrite Hq. split; [done|].
    rewrite wire_app. simpl. rewrite app_nil_r. auto.
  - erewrite bind_Ret by exact Hw.
    assert ((0 <? remaining) = true) as -> by lia.
    assert ((remaining - remaining <=? 0) = true) as -> by lia.
    eexists _, _, (Z.to_nat remaining). split; [done|]. simpl.
    split; [lia|].
    rewrite wire_app. simpl. rewrite app_nil_r. auto.
  - erewrite bind_Ret by exact Hw. simpl (0 <? -1).
    unfold get_errno at 1. unfold bind at 1. simpl.
    destruct (Z.eqb_spec er EINTR) as [->|Hne].
    + destruct (IH (set_errno EINTR (log (EvWrite fd []) (set_pending q w)))
                  buf remaining) as (r & w' & k & E & Hle & Hwire & Hres);
        [done | simpl in *; lia |].
      exists r, w', k. split; [done|]. unfold pending_le in Hle. simpl in Hle.
      split; [lia|]. split; [|done].
      rewrite Hwire. simpl. rewrite wire_app. simpl. by rewrite app_nil_r.
    + eexists (-1), _, 0%nat. split; [done|]. simpl. split; [lia|].
      rewrite wire_app, take_0. simpl. split; [done|]. right. split; [done|lia].
  - erewrite bind_Ret by exact Hw.
    set (n := (j `min` Z.to_nat remaining)%nat) in *.
    assert (Z.of_nat j `min` remaining = Z.of_nat n) as Hn by lia.
    rewrite Hn.
    destruct (Z.ltb_spec 0 (Z.of_nat n)) as [Hpos|Hzero].
    + destruct (Z.leb_spec (remaining - Z.of_nat n) 0) as [Hle|Hgt].
      * eexists _, _, n. split; [done|]. simpl. split; [lia|].
        rewrite wire_app. simpl. rewrite app_nil_r. split; [done|].
        left. split; [done | lia].
      * rewrite Nat2Z.id.
        destruct (IH (log (EvWrite fd (take n buf)) (set_pending q w))
                    (drop n buf) (remaining - Z.of_nat n))
          as (r & w' & k & E & Hle & Hwire & Hres);
          [rewrite length_drop; lia | simpl in *; lia |].
        exists r, w', (n + k)%nat. split; [done|].
        unfold pending_le in Hle. simpl in Hle.
        split; [simpl; lia|].
        split.
        -- rewrite Hwire. simpl. rewrite wire_app. simpl.
           by rewrite app_nil_r, <- app_assoc, take_take_drop.
        -- destruct Hres as [[-> ->]|[-> Hk]];
             [left; split; [done|lia] | right; split; [done|lia]].
    + unfold get_errno, bind.
      assert ((Z.of_nat n =? -1) = false) as -> by lia. simpl.
      eexists (-1), _, 0%nat. split; [done|]. simpl. split; [lia|].
      rewrite wire_app. simpl.
      replace n with 0%nat by lia. rewrite !take_0.
      split; [done|]. right. split; [done|lia].
Qed.

(** X18: [writeFully] never reports a short count.  Whatever the
    kernel does, on whatever descriptor, it returns [nbyte] with the
    [nbyte] bytes of the buffer written, or -1 with a proper prefix of
    them written; nothing else is written, and nothing out of order. *)
Theorem writeFully_returns_nbyte_or_fails :
  ∀ fuel fd buf nbyte w,
    0 < nbyte ≤ Z.of_nat (length buf) → (length (pending w) < fuel)%nat →
    ∃ r w' k,
      writeFully fuel fd buf nbyte w = Ret r w'
      ∧ wire (trace w') = wire (trace w) ++ take k buf
      ∧ (r = nbyte ∧ k = Z.to_nat nbyte
         ∨ r = -1 ∧ (k < Z.to_nat nbyte)%nat).
Proof.
  intros fuel fd buf nbyte w Hn Hfuel. unfold writeFully.
  destruct (writeFully_loop_all_or_less fd nbyte fuel w buf nbyte Hn Hfuel)
    as (r & w' & k & E & _ & Hw & Hr).
  by exists r, w', k.
Qed.

(** X19: requests for no bytes.  [write] returns 0 for them, which
    [writeFully] takes for an error: it returns -1 although nothing
    failed, with [errno] as it found it.  [readFully] returns 0 and
    leaves buffer and stream alone. *)
Theorem zero_length_transfers :
  (∀ fuel fd buf w,
     is_Some (fdtab w !! fd) → pending w = [] →
     writeFully (S fuel) fd buf 0 w = Ret (-1) (log (EvWrite fd []) w))
  ∧ (∀ fuel fd buf w e,
       fdtab w !! fd = Some e → pending w = [] →
       ∃ w', readFully (S fuel) fd buf 0 w = Ret (0, buf) w'
         ∧ default [] (inbox w' !! fd_file e) = default [] (inbox w !! fd_file e)
         ∧ errno w' = errno w).
Proof.
  split.
  - intros fuel fd buf w [e He] Hp.
    unfold writeFully. simpl writeFully_loop.
    unfold write, kernel_says, bind, get_errno, ret. rewrite Hp, He. done.
  - intros fuel fd buf w e He Hp.
    unfold readFully. simpl readFully_loop.
    unfold read, kernel_says, bind, ret. rewrite Hp. simpl. rewrite He. simpl.
    eexists. split; [done|]. simpl. rewrite lookup_insert_eq. simpl.
    by rewrite drop_0.
Qed.

(** Whatever the kernel answers, what the loop has taken off the
    stream is in the buffer, in order, from the offset on. *)
Lemma readFully_loop_keeps_bytes fd nbyte e fuel : ∀ w buf off remaining,
  fdtab w !! fd = Some e →
  0 ≤ remaining →
  (off + Z.to_nat remaining ≤ length buf)%nat →
  (length (pending w) + eof_probe (default [] (inbox w !! fd_file e)) < fuel)%nat →
  ∃ r buf' w' got,
    readFully_loop fuel fd buf off nbyte remaining w = Ret (r, buf') w'
    ∧ default [] (inbox w !! fd_file e)
      = got ++ default [] (inbox w' !! fd_file e)
    ∧ buf' = store buf off got
    ∧ (length got ≤ Z.to_nat remaining)%nat
    ∧ (r = -1 ∨ r = nbyte - remaining + Z.of_nat (length got)).
Proof.
  induction fuel as [|fuel IH]; intros w buf off remaining He Hrem Hcap Hfuel;
    [lia|].
  set (avail := default [] (inbox w !! fd_file e)) in *.
  pose proof (read_cases fd remaining w e He) as Hr. cbv beta zeta in Hr.
  fold avail in Hr.
  assert (Hdeliver : ∀ n w1,
    (n ≤ Z.to_nat remaining)%nat →
    fdtab w1 = fdtab w → inbox w1 = inbox w →
    (avail ≠ [] → (length (take n avail) < Z.to_nat remaining)%nat →
     (length (pending w1) + eof_probe (drop n avail) < fuel)%nat) →
    read fd remaining w =
      Ret (Z.of_nat (length (take n avail)), take n avail)
          (set_inbox (<[fd_file e := drop n avail]> (inbox w)) w1) →
    ∃ r buf' w' got,
      readFully_loop (S fuel) fd buf off nbyte remaining w = Ret (r, buf') w'
      ∧ avail = got ++ default [] (inbox w' !! fd_file e)
      ∧ buf' = store buf off got
      ∧ (length got ≤ Z.to_nat remaining)%nat
      ∧ (r = -1 ∨ r = nbyte - remaining + Z.of_nat (length got))).
  { intros n w1 Hn Hfd Hin Hf1 E.
    simpl readFully_loop. erewrite bind_Ret by exact E. cbn [fst snd].
    set (d1 := take n avail).
    assert (Hlen : (length d1 ≤ n)%nat) by (unfold d1; rewrite length_take; lia).
    destruct (Z.eqb_spec (Z.of_nat (length d1)) 0) as [H0|H0].
    - (* nothing delivered: taken for the end of the stream *)
      assert (d1 = []) as Hd1 by (destruct d1; [done | simpl in H0; lia]).
      exists (nbyte - remaining), buf, 
        (set_inbox (<[fd_file e := drop n avail]> (inbox w)) w1), [].
      split; [done|]. simpl. rewrite lookup_insert_eq. simpl.
      split; [|split; [by rewrite store_nil | split; [lia | right; lia]]].
      unfold d1 in Hd1. apply take_nil_inv in Hd1 as [->|Ha]; [done|].
      by rewrite Ha, drop_nil.
    - assert ((0 <? Z.of_nat (length d1)) = true) as -> by lia.
      assert (Hne : avail ≠ []).
      { intros Ha. unfold d1 in H0. rewrite Ha, take_nil in H0. done. }
      destruct (Z.leb_spec (remaining - Z.of_nat (length d1)) 0) as [Hle|Hgt].
      + (* the request is complete *)
        exists nbyte, (store buf off d1),
          (set_inbox (<[fd_file e := drop n avail]> (inbox w)) w1), d1.
        split; [done|]. simpl. rewrite lookup_insert_eq. simpl.
        split; [unfold d1; by rewrite take_drop|].
        split; [done|]. split; [lia|]. right. lia.
      + (* a partial read: go on behind it *)
        rewrite Nat2Z.id.
        destruct (IH (set_inbox (<[fd_file e := drop n avail]> (inbox w)) w1)
                    (store buf off d1) (off + length d1)%nat
                    (remaining - Z.of_nat (length d1)))
          as (r & buf' & w' & got & E' & Hav & Hbuf & Hgl & Hres); simpl;
          [by rewrite Hfd | lia
          | unfold store; rewrite !length_app, length_take, length_drop; lia
          | rewrite lookup_insert_eq; simpl; apply Hf1; [done|];
            fold d1; lia |].
        simpl in Hav. rewrite lookup_insert_eq in Hav. simpl in Hav.
        exists r, buf', w', (d1 ++ got). split; [done|].
        split; [unfold d1; by rewrite <- app_assoc, <- Hav, take_drop|].
        split; [by rewrite Hbuf, store_store by lia|].
        rewrite length_app. split; [lia|].
        destruct Hres as [->| ->]; [by left | right; lia]. }
  pose proof (eof_probe_drop (Z.to_nat remaining) avail) as Hp.
  assert (Hshort : avail ≠ [] →
    (length (take (Z.to_nat remaining) avail) < Z.to_nat remaining)%nat →
    eof_probe avail = 1%nat ∧ eof_probe (drop (Z.to_nat remaining) avail) = 0%nat).
  { intros Hne Hlt. rewrite length_take in Hlt. unfold eof_probe.
    rewrite decide_False by done. rewrite drop_ge by lia. done. }
  destruct (pending w) as [|[|er|k] q] eqn:Hq.
  - eapply (Hdeliver (Z.to_nat remaining) w); [lia | done | done | | exact Hr].
    intros Hne Hlt. destruct (Hshort Hne Hlt) as [H1 H2].
    rewrite Hq, H2. simpl in *. lia.
  - eapply (Hdeliver (Z.to_nat remaining) (set_pending q w));
      [lia | done | done | | exact Hr].
    intros Hne Hlt. destruct (Hshort Hne Hlt) as [H1 H2].
    rewrite H2. simpl in *. lia.
  - simpl readFully_loop. erewrite bind_Ret by exact Hr. cbn [fst snd].
    simpl (-1 =? 0). simpl (0 <? -1). cbv iota.
    unfold get_errno at 1. unfold bind at 1. simpl.
    destruct (Z.eqb_spec er EINTR) as [->|Hne].
    + destruct (IH (set_errno EINTR (set_pending q w)) buf off remaining)
        as (r & buf' & w' & got & E' & Hav & Hbuf & Hgl & Hres); simpl;
        [done | done | done | fold avail; simpl in *; lia |].
      by exists r, buf', w', got.
    + exists (-1), buf, (set_errno er (set_pending q w)), [].
      split; [done|]. simpl. fold avail.
      split; [done|]. split; [by rewrite store_nil|]. split; [lia | by left].
  - pose proof (eof_probe_drop (k `min` Z.to_nat remaining) avail).
    eapply (Hdeliver (k `min` Z.to_nat remaining)%nat (set_pending q w));
      [lia | done | done | | exact Hr].
    intros _ _. simpl in *. lia.
Qed.

(** X20: [readFully] loses no byte.  Whatever the kernel does, be it
    interruptions, short reads or an error in the middle, the bytes
    taken off the stream are at the front of the buffer, in order,
    with the rest of the buffer as it was; unless it is -1, the count
    returned is the number of those bytes. *)
Theorem readFully_loses_no_byte :
  ∀ fuel fd buf nbyte w e,
    fdtab w !! fd = Some e →
    0 ≤ nbyte ≤ Z.of_nat (length buf) →
    (length (pending w) + 1 < fuel)%nat →
    ∃ r buf' w' got,
      readFully fuel fd buf nbyte w = Ret (r, buf') w'
      ∧ default [] (inbox w !! fd_file e)
        = got ++ default [] (inbox w' !! fd_file e)
      ∧ buf' = got ++ drop (length got) buf
      ∧ (length got ≤ Z.to_nat nbyte)%nat
      ∧ (r = -1 ∨ r = Z.of_nat (length got)).
Proof.
  intros fuel fd buf nbyte w e He Hn Hfuel. unfold readFully.
  destruct (readFully_loop_keeps_bytes fd nbyte e fuel w buf 0%nat nbyte)
    as (r & buf' & w' & got & E & Hav & Hbuf & Hgl & Hres);
    [done | lia | lia | |].
  { unfold eof_probe. case_match; lia. }
  exists r, buf', w', got. split; [done|]. split; [done|].
  split; [done|]. split; [done|].
  destruct Hres as [->| ->]; [by left | right; lia].
Qed.

(** ** The order of the calls *)

#[local] Instance trace_grows_preorder : PreOrder trace_grows.
Proof.
  split.
  - intros w. unfold trace_grows. reflexivity.
  - intros x y z. unfold trace_grows. intros. by etrans.
Qed.

Ltac grows_leaf :=
  let w := fresh "w" in
  intros w; unfold trace_grows; unfold_calls;
  repeat case_match; simplify_eq/=;
  repeat apply prefix_app_r; reflexivity.

#[local] Hint Extern 4 (preserves trace_grows _) => solve [grows_leaf] : frame.

Lemma starts_with_write_write fd buf n : starts_with_write fd (write fd buf n).
Proof.
  intros w. unfold write, kernel_says.
  repeat case_match; simplify_eq/=; by eexists _, [].
Qed.

Lemma starts_with_write_bind {A B} fd (m : M A) (k : A → M B) :
  starts_with_write fd m → (∀ a, preserves trace_grows (k a)) →
  starts_with_write fd (bind m k).
Proof.
  intros Hm Hk w. destruct (Hm w) as (data & rest & E). unfold bind.
  destruct (m w) as [a w1| | |] eqn:Em; simpl in *; try by eexists _, _.
  destruct (Hk a w1) as [more Hmore]. rewrite Hmore, E.
  exists data, (rest ++ more). by rewrite <- app_assoc.
Qed.

Lemma JDK_execvpe_trace_grows mode file argv envp :
  preserves trace_grows (JDK_execvpe mode file argv envp).
Proof. apply preserves_JDK_execvpe; [apply _ | frames..]. Qed.

(** X21: the alive ping comes first.  When one is asked for, the
    first call a launch issues, before any descriptor is closed or
    moved, is the [write] of the ping on the failure channel. *)
Theorem alive_ping_comes_first :
  ∀ fuel p w,
    sendAlivePing p = true → (0 < fuel)%nat →
    ∃ data rest,
      trace (final (childProcess fuel p w))
      = trace w ++ EvWrite (fail1 p) data :: rest.
Proof.
  intros fuel p w Hping Hfuel. destruct fuel as [|fuel]; [lia|].
  assert (starts_with_write (fail1 p) (childProcess (S fuel) p)) as H;
    [|apply H].
  unfold childProcess. cbv zeta. apply starts_with_write_bind.
  - unfold alive_ping. rewrite Hping. apply starts_with_write_bind.
    + unfold writeFully. simpl writeFully_loop. apply starts_with_write_bind.
      * apply starts_with_write_write.
      * intros n. frames.
    + intros r. frames.
  - pose proof (JDK_execvpe_trace_grows (mode p) (argv_0 p) (argv p) (envv p)).
    assert (∀ fd, preserves trace_grows (WhyCantJohnnyExec (S fuel) fd))
      by (intros; frames).
    assert (preserves trace_grows (close_parent_sides p)) by frames.
    assert (preserves trace_grows (move_child_sides (S fuel) p)) by frames.
    assert (preserves trace_grows close_everything) by frames.
    assert (preserves trace_grows (change_directory p)) by frames.
    assert (preserves trace_grows (reset_signal_mask p)) by frames.
    repeat first
      [ progress intros
      | match goal with H : _ |- _ => solve [apply H] end
      | apply preserves_ret; apply _
      | apply preserves_bind; [apply _ | |]
      | match goal with
        | |- preserves _ (if ?b then _ else _) => destruct b
        end ].
Qed.

(** ** Descriptors that are "absent" *)

Lemma close_logs fd w :
  ∃ r w', close fd w = Ret r w' ∧ trace w' = trace w ++ [EvClose fd].
Proof.
  unfold close, kernel_says.
  destruct (pending w); simpl; destruct (fdtab w !! fd);
    repeat case_match; eexists _, _; (split; [done|]); done.
Qed.

(** C7, as the code has it: only the sentinel -1 ("absent") counts as
    success without a call; every other number is handed to [close],
    which is issued whatever the number, so a leftover pipe end that
    is not open fails with [EBADF] and sends [childProcess], with or
    without an alive ping, to the failure tail: the process exits
    with -1 and no exec was attempted. *)
Theorem closeSafely_only_absent_is_success :
  (∀ w, closeSafely (-1) w = Ret 0 w)
  ∧ (∀ fd w, fd ≠ -1 →
       closeSafely fd w = close fd w
       ∧ ∃ r w', closeSafely fd w = Ret r w'
                 ∧ trace w' = trace w ++ [EvClose fd])
  ∧ (∀ p w, Forall (fun fd => fd = -1) (leftover_pipe_ends p) →
            close_parent_sides p w = Ret false w)
  ∧ (∀ fd w, fd ≠ -1 → fdtab w !! fd = None →
       ∃ w', closeSafely fd w = Ret (-1) w' ∧ errno w' = EBADF)
  ∧ (∀ p w fd, fd ∈ leftover_pipe_ends p → fd ≠ -1 → fdtab w !! fd = None →
       ∃ w', close_parent_sides p w = Ret true w')
  ∧ (∀ fuel p w fd,
       (length (pending w) < fuel)%nat →
       fd ∈ leftover_pipe_ends p → fd ≠ -1 → fdtab w !! fd = None →
       ∃ w1 w',
         childProcess fuel p w = WhyCantJohnnyExec fuel (fail1 p) w1
         ∧ childProcess fuel p w = Exited (-1) w'
         ∧ exec_attempts (trace w') = exec_attempts (trace w)).
Proof.
  split; [exact closeSafely_absent|].
  split.
  { intros fd w Hne. rewrite closeSafely_present by done.
    split; [done | apply close_logs]. }
  split; [intros p w H; rewrite close_parent_sides_chain;
          by apply close_chain_all_absent|].
  split.
  { intros fd w Hne Hc.
    destruct (closeSafely_cases fd w) as (r & w1 & E & _ & Hbad).
    destruct (Hbad Hne Hc) as [-> He]. eauto. }
  split.
  { intros p w fd Hin Hne Hc. rewrite close_parent_sides_chain.
    eapply close_chain_bad; eauto. }
  intros fuel p w fd Hf Hin Hne Hc.
  assert (∃ w1, childProcess fuel p w = WhyCantJohnnyExec fuel (fail1 p) w1
                ∧ (length (pending w1) < fuel)%nat
                ∧ exec_attempts (trace w1) = exec_attempts (trace w))
    as (w1 & E & Hf1 & Hx1).
  { destruct (alive_ping_outcome fuel p w Hf) as (x & w0 & A & E0 & Hle0 & _).
    pose proof (alive_ping_keeps_table fuel p w) as Ht.
    pose proof (alive_ping_no_exec fuel p w) as Hx0.
    rewrite E0 in Ht, Hx0. unfold kept, no_exec in Ht, Hx0. simpl in Ht, Hx0.
    unfold childProcess. erewrite bind_Ret by exact E0.
    unfold pending_le in Hle0. destruct x.
    - exists w0. split; [done|]. split; [lia | done].
    - destruct (close_chain_bad (leftover_pipe_ends p) w0 fd Hin Hne)
        as [w1 E1]; [by rewrite Ht|].
      rewrite <- close_parent_sides_chain in E1.
      destruct (returning_close_parent_sides fuel p w0) as (x & w1' & E1' & Hle1);
        [lia|].
      pose proof (close_parent_sides_no_exec p w0) as Hx1.
      rewrite E1 in Hx1. unfold kept, no_exec in Hx1. simpl in Hx1.
      assert (w1' = w1) as -> by congruence.
      erewrite bind_Ret by exact E1. exists w1. split; [done|].
      unfold pending_le in Hle1. split; [lia | congruence]. }
  destruct (WhyCantJohnnyExec_outcome fuel (fail1 p) w1 Hf1)
    as (w' & _ & _ & E' & _).
  pose proof (WhyCantJohnnyExec_no_exec fuel (fail1 p) w1) as Hx.
  rewrite E' in Hx. unfold kept, no_exec in Hx. simpl in Hx.
  exists w1, w'. split; [done|]. split; [congruence | congruence].
Qed.
(** ** The sticky [errno] of the search *)

(** The loop over directories that all let it go on: it arrives at the
    rest of the path having made one attempt for each directory that
    fits, in order, with EACCES sticky when one of them saw it. *)
Lemma path_search_passes mode file argv envp rest pre : ∀ sticky w,
  (∀ dir, dir ∈ pre → too_long file dir = false →
     ∃ e, loader w (prim_of mode) (expanded_file dir file) = Some e
          ∧ try_other_directories e = true) →
  ∃ sticky' w',
    path_search mode file argv envp (pre ++ rest) sticky w =
      path_search mode file argv envp rest sticky' w'
    ∧ loader w' = loader w
    ∧ exec_attempts (trace w') =
        exec_attempts (trace w)
        ++ ((fun dir => (prim_of mode, expanded_file dir file))
              <$> filter (fun dir => too_long file dir = false) pre)
    ∧ (sticky' = sticky ∨ sticky' = EACCES)
    ∧ (sticky = EACCES
       ∨ (∃ dir, dir ∈ pre ∧ too_long file dir = false
            ∧ loader w (prim_of mode) (expanded_file dir file) = Some EACCES) →
       sticky' = EACCES).
Proof.
  assert (Hkeep : ∀ e w path,
    loader (set_errno e (attempted mode path argv envp w)) = loader w).
  { intros. unfold attempted. by destruct (mode =? MODE_VFORK). }
  induction pre as [|dir pre IH]; intros sticky w Hall.
  - exists sticky, w. split; [done|]. split; [done|].
    split; [by rewrite app_nil_r|]. split; [by left|].
    intros [->|(dir & Hin & _)]; [done | by apply elem_of_nil in Hin].
  - rewrite <- app_comm_cons, filter_cons.
    destruct (too_long file dir) eqn:Hfit.
    + rewrite path_search_skip by done.
      destruct (IH sticky (set_errno ENAMETOOLONG w))
        as (s' & w' & E & Hl & Ht & Hs & Hseen).
      { intros d Hd Hf. apply Hall; [by right | done]. }
      exists s', w'. split; [done|]. split; [done|].
      rewrite decide_False by done. split; [done|]. split; [done|].
      intros [->|(d & Hd & Hf & Hacc)]; apply Hseen; [by left|].
      apply elem_of_cons in Hd as [->|Hd]; [congruence|]. right. eauto.
    + destruct (Hall dir) as (e & Hld & Htry); [by left | done |].
      pose proof (try_other_directories_not_ENOEXEC _ Htry) as Hne.
      erewrite path_search_turn; [|done|by apply attempt_fails].
      simpl errno. rewrite Htry.
      destruct (IH (if e =? EACCES then e else sticky)
                  (set_errno e (attempted mode (expanded_file dir file) argv envp w)))
        as (s' & w' & E & Hl & Ht & Hs & Hseen).
      { intros d Hd Hf. rewrite Hkeep. apply Hall; [by right | done]. }
      exists s', w'. split; [done|]. split; [by rewrite Hl, Hkeep|].
      rewrite decide_True by done. split.
      { rewrite Ht. unfold attempted. simpl. rewrite exec_attempts_app. simpl.
        rewrite <- app_assoc. by destruct (mode =? MODE_VFORK). }
      split.
      { destruct (Z.eqb_spec e EACCES) as [->|_]; [|done].
        destruct Hs as [->| ->]; by right. }
      intros Hcase. apply Hseen.
      destruct Hcase as [->|(d & Hd & Hf & Hacc)].
      * left. by destruct (Z.eqb_spec e EACCES).
      * apply elem_of_cons in Hd as [->|Hd].
        -- left. assert (e = EACCES) as -> by congruence. done.
        -- right. exists d. split; [done|]. split; [done|]. by rewrite Hkeep.
Qed.

Lemma goes_on_iff e :
  try_other_directories e = true ↔
  e ∈ [EACCES; ENOENT; ENOTDIR; ELOOP; ESTALE; ENODEV; ETIMEDOUT].
Proof.
  unfold try_other_directories. rewrite !orb_true_iff, !Z.eqb_eq.
  set_unfold. tauto.
Qed.

(** C2: the search is what [JDK_execvpe] runs for a bare name under an
    environment of its own.  A candidate that fails with EACCES makes
    EACCES sticky and the search goes on; ENOENT, ENOTDIR, ELOOP,
    ESTALE, ENODEV and ETIMEDOUT let it go on with the sticky value
    untouched; any other [errno] ends [JDK_execvpe] at once with that
    [errno], the directories further down never attempted; a loop that
    runs out of directories restores the sticky [errno]; so a search
    whose attempts all fail with such errors, one of them EACCES, has
    attempted every directory that fits, in order, and returns with
    [errno = EACCES]. *)
Theorem path_search_sticky_EACCES :
  (∀ mode file argv envp w,
     envp ≠ 0 → envp ≠ environ w → file ≠ EmptyString → strchr file "/" = false →
     JDK_execvpe mode file argv envp w =
       path_search mode file argv envp (parentPathv w) 0 w)
  ∧ (∀ mode file argv envp dir rest sticky w argv' w',
     too_long file dir = false →
     execve_with_shell_fallback mode (expanded_file dir file) argv envp w
       = Ret argv' w' →
     (errno w' = EACCES →
        path_search mode file argv envp (dir :: rest) sticky w =
          path_search mode file argv' envp rest EACCES w')
     ∧ (errno w' ∈ [ENOENT; ENOTDIR; ELOOP; ESTALE; ENODEV; ETIMEDOUT] →
        path_search mode file argv envp (dir :: rest) sticky w =
          path_search mode file argv' envp rest sticky w')
     ∧ (errno w' ∉ [EACCES; ENOENT; ENOTDIR; ELOOP; ESTALE; ENODEV; ETIMEDOUT] →
        path_search mode file argv envp (dir :: rest) sticky w = Ret argv' w'))
  ∧ (∀ mode file argv envp sticky w,
       path_search mode file argv envp [] sticky w =
         Ret argv (if sticky =? 0 then w else set_errno sticky w))
  ∧ (∀ mode file argv envp w,
       envp ≠ 0 → envp ≠ environ w → file ≠ EmptyString → strchr file "/" = false →
       (∀ dir, dir ∈ parentPathv w → too_long file dir = false →
          ∃ e, loader w (prim_of mode) (expanded_file dir file) = Some e
               ∧ e ∈ [EACCES; ENOENT; ENOTDIR; ELOOP; ESTALE; ENODEV; ETIMEDOUT]) →
       (∃ dir, dir ∈ parentPathv w ∧ too_long file dir = false
          ∧ loader w (prim_of mode) (expanded_file dir file) = Some EACCES) →
       ∃ w', JDK_execvpe mode file argv envp w = Ret argv w'
         ∧ errno w' = EACCES
         ∧ exec_attempts (trace w') =
             exec_attempts (trace w)
             ++ ((fun dir => (prim_of mode, expanded_file dir file))
                   <$> filter (fun dir => too_long file dir = false)
                         (parentPathv w)))
  ∧ (∀ mode file argv envp w pre d post e,
       envp ≠ 0 → envp ≠ environ w → file ≠ EmptyString → strchr file "/" = false →
       parentPathv w = pre ++ d :: post →
       (∀ dir, dir ∈ pre → too_long file dir = false →
          ∃ e, loader w (prim_of mode) (expanded_file dir file) = Some e
               ∧ e ∈ [EACCES; ENOENT; ENOTDIR; ELOOP; ESTALE; ENODEV; ETIMEDOUT]) →
       too_long file d = false →
       loader w (prim_of mode) (expanded_file d file) = Some e →
       e ∉ [EACCES; ENOENT; ENOTDIR; ELOOP; ESTALE; ENODEV; ETIMEDOUT] →
       e ≠ ENOEXEC ∨ mode ≠ MODE_VFORK →
       ∃ w', JDK_execvpe mode file argv envp w = Ret argv w'
         ∧ errno w' = e
         ∧ exec_attempts (trace w') =
             exec_attempts (trace w)
             ++ ((fun dir => (prim_of mode, expanded_file dir file))
                   <$> (filter (fun dir => too_long file dir = false) pre ++ [d]))).
Proof.
  split; [exact JDK_execvpe_searches|]. split; [|split; [|split]].
  - intros mode file argv envp dir rest sticky w argv' w' Hfit E.
    rewrite (path_search_turn _ _ _ _ _ _ _ _ _ _ Hfit E).
    split; [|split].
    + intros ->. done.
    + intros Hin. set_unfold in Hin.
      destruct Hin as [-> | [-> | [-> | [-> | [-> | [-> | []]]]]]]; done.
    + intros Hnot.
      destruct (try_other_directories (errno w')) eqn:Htry; [|done].
      by apply goes_on_iff in Htry.
  - intros. apply path_search_done.
  - intros mode file argv envp w H0 Henv Hfile Hslash Hall Hone.
    rewrite JDK_execvpe_searches by done.
    destruct (path_search_passes mode file argv envp [] (parentPathv w) 0 w)
      as (s' & w' & E & _ & Ht & _ & Hseen).
    { intros dir Hin Hfit. destruct (Hall dir Hin Hfit) as (e & Hl & He).
      exists e. split; [done|]. by apply goes_on_iff. }
    rewrite app_nil_r in E. rewrite E, path_search_done.
    rewrite (Hseen (or_intror Hone)). simpl.
    eexists. split; [done|]. split; [done|]. exact Ht.
  - intros mode file argv envp w pre d post e H0 Henv Hfile Hslash Hpath Hall
      Hfit Hl Hout Hmode.
    rewrite JDK_execvpe_searches by done. rewrite Hpath.
    destruct (path_search_passes mode file argv envp (d :: post) pre 0 w)
      as (s' & w' & E & Hld & Ht & _ & _).
    { intros dir Hin Hf. destruct (Hall dir Hin Hf) as (e' & Hl' & He').
      exists e'. split; [done|]. by apply goes_on_iff. }
    rewrite E.
    assert (execve_with_shell_fallback mode (expanded_file d file) argv envp w'
            = Ret argv (set_errno e (attempted mode (expanded_file d file)
                                       argv envp w'))) as Eat.
    { destruct Hmode as [He|Hm].
      - apply attempt_fails; [by rewrite Hld | done].
      - apply attempt_fails_copied; [done|]. rewrite Hld.
        unfold prim_of in Hl. by rewrite (proj2 (Z.eqb_neq _ _) Hm) in Hl. }
    erewrite path_search_turn; [|done|exact Eat]. simpl errno.
    assert (try_other_directories e = false) as ->.
    { destruct (try_other_directories e) eqn:Htry; [|done].
      by apply goes_on_iff in Htry. }
    eexists. split; [done|]. split; [done|].
    unfold attempted. simpl. rewrite exec_attempts_app, fmap_app, app_assoc, <- Ht.
    by destruct (mode =? MODE_VFORK).
Qed.
(** ** How far the quarantine gets *)

(** [markCloseOnExec] touches the descriptor it is given and no other. *)
Lemma markCloseOnExec_inv fd w r w' :
  markCloseOnExec fd w = Ret r w' →
  open_max w' = open_max w ∧ trace w' = trace w
  ∧ match fdtab w !! fd with
    | Some e => r = 0 ∧ fdtab w' = <[fd := FdEnt (fd_file e) true]> (fdtab w)
    | None => r = -1 ∧ fdtab w' = fdtab w ∧ errno w' = EBADF
    end.
Proof.
  intros E. destruct (fdtab w !! fd) as [e|] eqn:He.
  - destruct (markCloseOnExec_open _ _ _ He) as (w1 & E1 & Ht & Hm & Htr).
    rewrite E1 in E. by simplify_eq.
  - rewrite markCloseOnExec_closed in E by done. by simplify_eq.
Qed.

Lemma markCloseOnExec_marked_from fd w r w' :
  STDERR_FILENO + 1 ≤ fd → markCloseOnExec fd w = Ret r w' →
  marked_from (fdtab w) (fdtab w')
  ∧ (∀ k, k ≠ fd → fdtab w' !! k = fdtab w !! k)
  ∧ (∀ e', fdtab w' !! fd = Some e' → fd_cloexec e' = true).
Proof.
  intros Hfd E. destruct (markCloseOnExec_inv _ _ _ _ E) as (_ & _ & H).
  destruct (fdtab w !! fd) as [e|] eqn:He.
  - destruct H as [-> ->]. split; [by apply marked_from_insert|].
    split; [intros k Hk; by rewrite lookup_insert_ne|].
    intros e'. rewrite lookup_insert_eq. by intros [= <-].
  - destruct H as (-> & -> & _). split; [reflexivity|]. split; [done|].
    congruence.
Qed.

(** The [readdir] loop, whatever the directory holds: when it returns
    0, every entry taken for a descriptor names one that is now
    close-on-exec. *)
Lemma mark_entries_inv entries : ∀ w r w',
  mark_entries entries w = Ret r w' →
  marked_from (fdtab w) (fdtab w')
  ∧ open_max w' = open_max w ∧ trace w' = trace w
  ∧ (r = 0 ∨ r = -1)
  ∧ (r = 0 →
     ∀ name e', name ∈ entries → names_descriptor name = true →
       fdtab w' !! strtol name = Some e' → fd_cloexec e' = true).
Proof.
  induction entries as [|name rest IH]; intros w r w' E.
  - simpl in E. injection E as <- <-. split; [reflexivity|].
    split; [done|]. split; [done|]. split; [by left|]. intros _ name e' Hin.
    by apply elem_of_nil in Hin.
  - simpl mark_entries in E. fold (names_descriptor name) in E.
    destruct (names_descriptor name) eqn:Hname.
    + assert (Hfd : STDERR_FILENO + 1 ≤ strtol name).
      { unfold names_descriptor in Hname. apply andb_true_iff in Hname as [_ H].
        by apply Z.leb_le. }
      apply bind_Ret_inv in E as (r1 & w1 & E1 & E).
      destruct (markCloseOnExec_inv _ _ _ _ E1) as (Hmax1 & Htr1 & _).
      destruct (markCloseOnExec_marked_from _ _ _ _ Hfd E1) as (Hm1 & _ & Hflag).
      destruct (Z.eqb_spec r1 (-1)) as [->|Hr1].
      * injection E as <- <-. split; [done|]. split; [done|]. split; [done|].
        split; [by right | done].
      * destruct (IH _ _ _ E) as (Hm & Hmax & Htr & Hres & Hall).
        split; [by etrans|]. split; [congruence|]. split; [congruence|].
        split; [done|].
        intros Hr n e' Hin Hd He'.
        apply elem_of_cons in Hin as [->|Hin]; [|by eapply Hall].
        destruct (marked_from_flag _ _ _ _ Hm He') as (e1 & He1 & Hkeep).
        eauto.
    + destruct (IH _ _ _ E) as (Hm & Hmax & Htr & Hres & Hall).
      split; [done|]. split; [done|]. split; [done|]. split; [done|].
      intros Hr n e' Hin Hd He'.
      apply elem_of_cons in Hin as [->|Hin]; [congruence | by eapply Hall].
Qed.

Lemma listing_has w fd e :
  fdtab w !! fd = Some e → STDERR_FILENO + 1 ≤ fd →
  fd_name fd ∈ ("."%string :: ".."%string
                 :: ((fun kv => fd_name kv.1) <$> map_to_list (fdtab w)))
  ∧ names_descriptor (fd_name fd) = true ∧ strtol (fd_name fd) = fd.
Proof.
  intros He Hfd. unfold STDERR_FILENO in Hfd. split; [|split].
  - do 2 right. apply list_elem_of_fmap. exists (fd, e). split; [done|].
    by apply elem_of_map_to_list.
  - unfold names_descriptor. rewrite strtol_fd_name by lia.
    destruct (fd_name_head fd) as (c & s & -> & Hc); [lia|].
    rewrite Hc. simpl. by apply Z.leb_le.
  - apply strtol_fd_name. lia.
Qed.

(** The directory strategy, when it returns 0, has marked every open
    descriptor from [STDERR_FILENO + 1] on. *)
Lemma markDescriptorsCloseOnExec_inv w w1 :
  markDescriptorsCloseOnExec w = Ret 0 w1 →
  quarantined (fdtab w1) ∧ marked_from (fdtab w) (fdtab w1)
  ∧ open_max w1 = open_max w ∧ trace w1 = trace w.
Proof.
  unfold markDescriptorsCloseOnExec, opendir_FD_DIR. unfold bind.
  destruct (fd_dir w); [|done]. intros E.
  destruct (mark_entries_inv _ _ _ _ E) as (Hm & Hmax & Htr & _ & Hall).
  split; [|done]. intros fd e' He' Hfd.
  destruct (marked_from_flag _ _ _ _ Hm He') as (e & He & _).
  destruct (listing_has w fd e He Hfd) as (Hin & Hname & Hstr).
  apply (Hall eq_refl (fd_name fd)); [done | done | by rewrite Hstr].
Qed.

Lemma markDescriptorsCloseOnExec_returns w :
  ∃ r w1, markDescriptorsCloseOnExec w = Ret r w1
    ∧ marked_from (fdtab w) (fdtab w1) ∧ open_max w1 = open_max w
    ∧ trace w1 = trace w ∧ (r = 0 ∨ r = -1).
Proof.
  unfold markDescriptorsCloseOnExec, opendir_FD_DIR. unfold bind.
  destruct (fd_dir w) eqn:Hdir.
  - destruct (returning_mark_entries (S (length (pending w)))
                ("."%string :: ".."%string
                  :: ((fun kv => fd_name kv.1) <$> map_to_list (fdtab w))) w)
      as (r' & w1' & E' & _); [lia|].
    destruct (mark_entries_inv _ _ _ _ E') as (Hm & Hmax & Htr & Hres & _).
    by exists r', w1'.
  - eexists _, _. split; [done|]. split; [reflexivity|]. split; [done|].
    split; [done | by right].
Qed.


(** The quarantine, whatever the table: it never sends a launch to
    the failure tail, and it marks the descriptors from
    [STDERR_FILENO + 1] on that it gets to. *)
Lemma close_everything_inv w x w' :
  close_everything w = Ret x w' →
  x = false
  ∧ marked_from (fdtab w) (fdtab w') ∧ open_max w' = open_max w
  ∧ trace w' = trace w
  ∧ (∀ fd e, fdtab w' !! fd = Some e → STDERR_FILENO + 1 ≤ fd →
       fd < open_max w ∨ markDescriptorsCloseOnExec w = Ret 0 w' →
       fd_cloexec e = true).
Proof.
  intros E. unfold close_everything in E.
  destruct (markDescriptorsCloseOnExec_returns w)
    as (r & w1 & E1 & Hm1 & Hmax1 & Htr1 & Hres).
  rewrite (bind_Ret _ _ _ _ _ E1) in E.
  destruct (Z.eqb_spec r (-1)) as [->|Hr].
  - unfold sysconf_OPEN_MAX in E. unfold bind at 1 in E.
    destruct (scan_descriptors_marks
                (Z.to_nat (open_max w1 - (STDERR_FILENO + 1)))
                (STDERR_FILENO + 1) w1)
      as (w'' & E' & Hm & Hmax & Htr & Hall); [lia|].
    rewrite E' in E. injection E as <- <-.
    split; [done|]. split; [by etrans|]. split; [congruence|].
    split; [congruence|].
    intros fd e He Hfd [Hlt|Hdir]; [|congruence].
    apply (Hall fd); [lia | done].
  - injection E as <- <-. split; [done|]. split; [done|]. split; [done|].
    split; [done|].
    intros fd e He Hfd _. destruct Hres as [->|]; [|done].
    destruct (markDescriptorsCloseOnExec_inv _ _ E1) as (Hq & _).
    by apply (Hq fd).
Qed.

(** The directory strategy succeeds when the directory can be listed. *)
Lemma markDescriptorsCloseOnExec_succeeds w :
  fd_dir w = true → table_nonneg w →
  ∃ w1, markDescriptorsCloseOnExec w = Ret 0 w1.
Proof.
  intros Hdir Hnn. unfold markDescriptorsCloseOnExec, opendir_FD_DIR.
  unfold bind. rewrite Hdir.
  destruct (mark_entries_marks
              ("."%string :: ".."%string
                :: ((fun kv => fd_name kv.1) <$> map_to_list (fdtab w))) w)
    as (w' & E & _); [|by exists w'].
  intros name Hin Hname.
  apply elem_of_cons in Hin as [->|Hin]; [done|].
  apply elem_of_cons in Hin as [->|Hin]; [done|].
  apply list_elem_of_fmap in Hin as ([k e] & -> & Hin).
  apply elem_of_map_to_list in Hin. simpl.
  rewrite strtol_fd_name; [eauto | by apply (Hnn k e)].
Qed.

(** *** No negative descriptor comes up *)

#[local] Instance orderly_preorder : PreOrder orderly.
Proof.
  split; [by split|].
  intros x y z (H1 & H2 & H3) (H4 & H5 & H6).
  split; [congruence|]. split; [congruence | auto].
Qed.

Lemma orderly_of_kept {A} (m : M A) :
  preserves (kept (fun w => (fdtab w, open_max w, fd_dir w))) m →
  preserves orderly m.
Proof.
  intros H w. specialize (H w). unfold kept in H.
  injection H as Ht Hm Hd. split; [done|]. split; [done|].
  intros Hok fd e. rewrite Ht. apply Hok.
Qed.

Lemma close_orderly fd : preserves orderly (close fd).
Proof.
  intros w. unfold close, kernel_says.
  repeat case_match; simplify_eq/=; (split; [done|]); (split; [done|]);
    intros Hok fd' ent Hent; simpl in *; try (by apply (Hok fd' ent));
    (destruct (decide (fd = fd')) as [->|Hne];
       [by rewrite lookup_delete_eq in Hent
       | rewrite lookup_delete_ne in Hent by done; by apply (Hok fd' ent)]).
Qed.

Lemma dup2_orderly fd_from fd_to : preserves orderly (dup2 fd_from fd_to).
Proof.
  intros w. unfold dup2, kernel_says.
  repeat case_match; simplify_eq/=; (split; [done|]); (split; [done|]);
    intros Hok fd' ent Hent; simpl in *; try (by apply (Hok fd' ent));
    (destruct (decide (fd_to = fd')) as [->|Hne];
       [lia | rewrite lookup_insert_ne in Hent by done; by apply (Hok fd' ent)]).
Qed.

#[local] Hint Resolve close_orderly dup2_orderly : frame.
#[local] Hint Extern 6 (preserves orderly _) =>
  (apply orderly_of_kept; solve [leaf]) : frame.

Lemma alive_ping_orderly fuel p : preserves orderly (alive_ping fuel p).
Proof. apply orderly_of_kept. frames. Qed.
Lemma close_parent_sides_orderly p : preserves orderly (close_parent_sides p).
Proof. frames. Qed.
Lemma move_child_sides_orderly fuel p :
  preserves orderly (move_child_sides fuel p).
Proof. frames. Qed.

(** The world the quarantine starts from, in a launch that got there. *)
Lemma orderly_before_quarantine fuel p w w1 w2 w3 :
  alive_ping fuel p w = Ret false w1 →
  close_parent_sides p w1 = Ret false w2 →
  move_child_sides fuel p w2 = Ret false w3 →
  orderly w w3.
Proof.
  intros E1 E2 E3.
  pose proof (alive_ping_orderly fuel p w) as H1. rewrite E1 in H1.
  pose proof (close_parent_sides_orderly p w1) as H2. rewrite E2 in H2.
  pose proof (move_child_sides_orderly fuel p w2) as H3. rewrite E3 in H3.
  simpl in *. etrans; [exact H1|]. etrans; [exact H2 | exact H3].
Qed.

(** What the image of a launch inherits: the descriptors that were
    open and not close-on-exec when the quarantine was over. *)
Lemma image_of_quarantine p w4 w5 w6 w' :
  change_directory p w4 = Ret false w5 →
  reset_signal_mask p w5 = Ret tt w6 →
  JDK_execvpe (mode p) (argv_0 p) (argv p) (envv p) w6 = Replaced w' →
  fdtab w' = inherited (fdtab w4).
Proof.
  intros E5 E6 E7.
  pose proof (change_directory_keeps_table p w4) as H5. rewrite E5 in H5.
  pose proof (reset_signal_mask_keeps_table p w5) as H6. rewrite E6 in H6.
  pose proof (hands_over_JDK_execvpe (mode p) (argv_0 p) (argv p) (envv p) w6)
    as H7. rewrite E7 in H7.
  unfold kept in *. simpl in *. congruence.
Qed.

(** In a launch that got through the quarantine, every descriptor from
    [STDERR_FILENO + 1] on that the marking reached is close-on-exec. *)
Lemma quarantine_reaches fuel p w w1 w2 w3 w4 :
  alive_ping fuel p w = Ret false w1 →
  close_parent_sides p w1 = Ret false w2 →
  move_child_sides fuel p w2 = Ret false w3 →
  close_everything w3 = Ret false w4 →
  ∀ fd e, fdtab w4 !! fd = Some e → STDERR_FILENO + 1 ≤ fd →
          reached w fd → fd_cloexec e = true.
Proof.
  intros E1 E2 E3 E4 fd e He Hfd Hreach.
  destruct (orderly_before_quarantine fuel p w w1 w2 w3 E1 E2 E3)
    as (Hmax3 & Hdir3 & Hnn3).
  destruct (close_everything_inv _ _ _ E4) as (_ & _ & _ & _ & Hall).
  apply (Hall fd e He Hfd).
  destruct Hreach as [[Hdir Hnn]|Hlt]; [right | left; lia].
  destruct (markDescriptorsCloseOnExec_succeeds w3) as (w4' & E4');
    [congruence | auto |].
  unfold close_everything in E4. rewrite (bind_Ret _ _ _ _ _ E4') in E4.
  change (Ret false w4' = Ret false w4) in E4. congruence.
Qed.

(** ** A launch with an empty program name *)

Lemma JDK_execvpe_empty mode argv envp w :
  envp ≠ 0 → envp ≠ environ w →
  JDK_execvpe mode EmptyString argv envp w = Ret argv (set_errno ENOENT w).
Proof.
  intros H0 Henv. unfold JDK_execvpe, get_environ, bind.
  by rewrite (proj2 (Z.eqb_neq _ _) H0), (proj2 (Z.eqb_neq _ _) Henv).
Qed.

(** A well-formed launch that the kernel lets run, and whose directory
    it accepts, gets to the resolution of the program. *)
Lemma launch_reaches_resolution fuel p w :
  well_formed p w → pending w = [] → (0 < fuel)%nat →
  (∀ d, pdir p = Some d → chdir_verdict w d = None) →
  ∃ w6,
    childProcess fuel p w =
      (JDK_execvpe (mode p) (argv_0 p) (argv p) (envv p) ;;;
       WhyCantJohnnyExec fuel FAIL_FILENO) w6
    ∧ loader w6 = loader w ∧ environ w6 = environ w
    ∧ parentPathv w6 = parentPathv w
    ∧ pending w6 = [] ∧ is_Some (fdtab w6 !! FAIL_FILENO)
    ∧ wire (trace w6) = wire (trace w) ++ ping p
    ∧ exec_attempts (trace w6) = exec_attempts (trace w).
Proof.
  intros Hwf Hp Hfuel Hdir.
  destruct (prelude_runs fuel p w Hwf Hp Hfuel)
    as (w4 & -> & Hp4 & HF4 & Hw4 & Hs4).
  unfold setting in Hs4. injection Hs4 as Hl Hv He Hpath _ _ _ Ha.
  set (w5 := match pdir p with
             | Some d => set_cwd d (log (EvChdir d) w4)
             | None => w4
             end).
  assert (E5 : change_directory p w4 = Ret false w5).
  { unfold change_directory, w5. destruct (pdir p) as [d|]; [|done].
    unfold chdir, bind. simpl chdir_verdict. by rewrite Hv, (Hdir d). }
  set (w6 := if mode p =? MODE_VFORK then w5
             else set_sigmask [] (log (EvSigSetMask []) w5)).
  erewrite bind_Ret by exact E5. cbv iota.
  erewrite bind_Ret by apply reset_signal_mask_spec. fold w6.
  exists w6. split; [done|].
  unfold w6, w5. destruct (mode p =? MODE_VFORK), (pdir p); simpl;
    rewrite ?wire_app, ?exec_attempts_app; simpl; rewrite ?app_nil_r; done.
Qed.

(** The stages ahead of the resolution touch neither [environ] nor
    the exec attempts. *)
Lemma environ_kept_before_exec fuel p w :
  let R := kept (fun w => (environ w, exec_attempts (trace w))) in
  R w (final (childProcess fuel p w))
  ∨ ∃ w6, R w w6
      ∧ childProcess fuel p w =
          (JDK_execvpe (mode p) (argv_0 p) (argv p) (envv p) ;;;
           WhyCantJohnnyExec fuel FAIL_FILENO) w6.
Proof.
  intros R. apply childProcess_before_exec; [apply _ | subst R; frames..].
Qed.

(** C10: with an environment vector of its own and an empty program
    path, [JDK_execvpe] sets [errno] to ENOENT and returns; no exec
    call of either kind is issued, nothing else changes.  A launch of
    the empty name therefore never replaces the process image and
    attempts no exec, however it goes; and one that is well formed,
    undisturbed by the kernel and in a directory the kernel accepts
    exits with -1 having sent the parent the alive ping, when asked
    for, and then ENOENT, whole. *)
Theorem JDK_execvpe_empty_path_is_ENOENT :
  (∀ mode argv envp w,
     envp ≠ 0 → envp ≠ environ w →
     JDK_execvpe mode EmptyString argv envp w = Ret argv (set_errno ENOENT w)
     ∧ errno (set_errno ENOENT w) = ENOENT
     ∧ trace (set_errno ENOENT w) = trace w)
  ∧ (∀ fuel p w rest,
       argv p = Some EmptyString :: rest → envv p ≠ 0 → envv p ≠ environ w →
       exec_attempts (trace (final (childProcess fuel p w)))
       = exec_attempts (trace w)
       ∧ ∀ w', childProcess fuel p w ≠ Replaced w')
  ∧ (∀ fuel p w rest,
       argv p = Some EmptyString :: rest → envv p ≠ 0 → envv p ≠ environ w →
       well_formed p w → pending w = [] → (0 < fuel)%nat →
       (∀ d, pdir p = Some d → chdir_verdict w d = None) →
       ∃ w', childProcess fuel p w = Exited (-1) w'
         ∧ wire (trace w') = wire (trace w) ++ ping p ++ int_bytes ENOENT
         ∧ exec_attempts (trace w') = exec_attempts (trace w)).
Proof.
  split; [|split].
  - intros mode argv envp w H0 Henv. split; [|done].
    by apply JDK_execvpe_empty.
  - intros fuel p w rest Hargv H0 Henv.
    assert (H0' : argv_0 p = EmptyString) by (unfold argv_0; by rewrite Hargv).
    destruct (environ_kept_before_exec fuel p w) as [K | (w6 & K & E)];
      unfold kept in K; simpl in K.
    + injection K as Ke Ka. split; [done|].
      intros w' Ew'.
      apply childProcess_Replaced_inv in Ew'
        as (w1 & w2 & w3 & w4 & w5 & w6 & E1 & E2 & E3 & E4 & E5 & E6 & E7).
      assert (environ w6 = environ w) as He6.
      { assert (kept environ w w4) as K4.
        { destruct (stages_relate (kept environ) fuel p w w1 w2 w3 w4)
            as (_ & _ & _ & K4); try done; frames. }
        assert (preserves (kept environ) (change_directory p)) as K5 by frames.
        assert (preserves (kept environ) (reset_signal_mask p)) as K6 by frames.
        specialize (K5 w4). specialize (K6 w5). rewrite E5 in K5.
        rewrite E6 in K6. unfold kept in *. simpl in *. congruence. }
      rewrite H0', JDK_execvpe_empty in E7 by (by rewrite ?He6). done.
    + injection K as Ke Ka. rewrite E, H0'.
      erewrite bind_Ret by (apply JDK_execvpe_empty; by rewrite ?Ke).
      pose proof (WhyCantJohnnyExec_no_exec fuel FAIL_FILENO
                    (set_errno ENOENT w6)) as N.
      unfold no_exec, kept in N. simpl in N. split; [congruence|].
      intros w' Ew'. pose proof (no_image_WhyCantJohnnyExec fuel FAIL_FILENO
                                   (set_errno ENOENT w6)) as Hn.
      by rewrite Ew' in Hn.
  - intros fuel p w rest Hargv H0 Henv Hwf Hp Hfuel Hdir.
    assert (H0' : argv_0 p = EmptyString) by (unfold argv_0; by rewrite Hargv).
    destruct (launch_reaches_resolution fuel p w Hwf Hp Hfuel Hdir)
      as (w6 & -> & _ & He6 & _ & Hp6 & HF6 & Hw6 & Ha6).
    rewrite H0'.
    erewrite bind_Ret by (apply JDK_execvpe_empty; by rewrite ?He6).
    destruct (WhyCantJohnnyExec_reports fuel FAIL_FILENO (set_errno ENOENT w6))
      as (w' & E & Hw');
      [done | simpl; rewrite Hp6; constructor | simpl; rewrite Hp6; simpl; lia |].
    exists w'. split; [done|]. split.
    + rewrite Hw'. simpl. by rewrite Hw6, <- app_assoc.
    + pose proof (WhyCantJohnnyExec_no_exec fuel FAIL_FILENO
                    (set_errno ENOENT w6)) as N.
      rewrite E in N. unfold no_exec, kept in N. simpl in N. congruence.
Qed.
(** ** The outcome of a launch *)

(** *** Where the failure channel ends up *)

Lemma dup2_range fd_from fd_to w r w' :
  dup2 fd_from fd_to w = Ret r w' →
  open_max w' = open_max w ∧ (r ≠ -1 → fd_to < open_max w).
Proof.
  unfold dup2, kernel_says.
  destruct (pending w) as [|k q]; simpl;
    [|destruct k; simpl; try (by intros [= <- <-])];
    (destruct (fdtab w !! fd_from) as [e|]; [|by intros [= <- <-]]);
    (destruct (Z.ltb_spec fd_to 0); simpl; [by intros [= <- <-]|]);
    (destruct (Z.leb_spec (open_max w) fd_to); simpl; [by intros [= <- <-]|]);
    (destruct (fd_from =? fd_to); intros [= <- <-]; by simpl).
Qed.

Lemma restartableDup2_range fuel : ∀ fd_from fd_to w r w',
  restartableDup2 fuel fd_from fd_to w = Ret r w' → r ≠ -1 →
  fd_to < open_max w.
Proof.
  unfold restartableDup2.
  induction fuel as [|fuel IH]; intros fd_from fd_to w r w' E Hr; [done|].
  simpl in E. apply bind_Ret_inv in E as (r1 & w1 & E1 & E).
  unfold get_errno, bind at 1 in E.
  destruct (dup2_range _ _ _ _ _ E1) as [Hmax Hin].
  destruct (Z.eqb_spec r1 (-1)) as [->|Hr1]; [|by apply Hin].
  simpl in E. destruct (errno w1 =? EINTR).
  - rewrite <- Hmax. by eapply IH.
  - unfold ret in E. by injection E as <- <-.
Qed.

Lemma moveDescriptor_range fuel fd_from fd_to w w' :
  moveDescriptor fuel fd_from fd_to w = Ret 0 w' → fd_from ≠ fd_to →
  fd_to < open_max w.
Proof.
  unfold moveDescriptor. intros E Hne.
  rewrite (proj2 (Z.eqb_neq _ _) Hne) in E. cbn [negb] in E.
  apply bind_Ret_inv in E as (r & w1 & E1 & E).
  destruct (Z.eqb_spec r (-1)) as [->|Hr]; [done|].
  by eapply restartableDup2_range.
Qed.

(** The last step of a rewiring that went through moved the channel. *)
Lemma move_child_sides_last fuel p w w3 :
  move_child_sides fuel p w = Ret false w3 →
  ∃ wc, open_max wc = open_max w
        ∧ moveDescriptor fuel (fail1 p) FAIL_FILENO wc = Ret 0 w3.
Proof.
  unfold move_child_sides. intros E.
  apply bind_Ret_inv in E as (x & wa & Ea & E). destruct x; [done|].
  apply bind_Ret_inv in E as (y & wc & Ec & E). destruct y; [done|].
  exists wc. split; [|by apply failed_moveDescriptor_inv].
  match type of Ea with ?m w = _ =>
    assert (preserves (kept open_max) m) as Ka by frames end.
  match type of Ec with ?m wa = _ =>
    assert (preserves (kept open_max) m) as Kc
      by (destruct (redirectErrorStream p); frames) end.
  specialize (Ka w). specialize (Kc wa). rewrite Ea in Ka. rewrite Ec in Kc.
  unfold kept in *. simpl in *. congruence.
Qed.

(** In the image of a launch the child's descriptors for the failure
    channel are closed. *)
Lemma launched_channel_closed fuel p w w' :
  childProcess fuel p w = Replaced w' →
  (fail1 p ≠ FAIL_FILENO → fdtab w' !! fail1 p = None)
  ∧ (STDERR_FILENO < FAIL_FILENO →
     fail1 p ≠ FAIL_FILENO ∨ reached w FAIL_FILENO →
     fdtab w' !! FAIL_FILENO = None).
Proof.
  intros H.
  apply childProcess_Replaced_inv in H
    as (w1 & w2 & w3 & w4 & w5 & w6 & E1 & E2 & E3 & E4 & E5 & E6 & E7).
  rewrite (image_of_quarantine p w4 w5 w6 w' E5 E6 E7).
  destruct (move_child_sides_last _ _ _ _ E3) as (wc & Hmaxc & Em).
  destruct (moveDescriptor_inv _ _ _ _ _ Em) as (_ & Hgone & _).
  destruct (close_everything_inv _ _ _ E4) as (_ & Hm & _).
  assert (Hmax2 : open_max w2 = open_max w).
  { pose proof (alive_ping_orderly fuel p w) as [K1 _]. rewrite E1 in K1.
    pose proof (close_parent_sides_orderly p w1) as [K2 _]. rewrite E2 in K2.
    simpl in *. congruence. }
  split.
  - intros Hne. destruct (Hgone Hne) as [Hnone _].
    rewrite inherited_lookup.
    pose proof (Hm (fail1 p)) as Hk. rewrite Hnone in Hk.
    by destruct (fdtab w4 !! fail1 p).
  - intros HF Hcase. rewrite inherited_lookup.
    destruct (fdtab w4 !! FAIL_FILENO) as [e|] eqn:He; [|done]. simpl.
    unfold survives.
    rewrite (quarantine_reaches fuel p w w1 w2 w3 w4 E1 E2 E3 E4 FAIL_FILENO e);
      [done | done | unfold STDERR_FILENO in *; lia |].
    destruct Hcase as [Hne|Hreach]; [|done].
    right. pose proof (moveDescriptor_range _ _ _ _ _ Em Hne). lia.
Qed.

(** *** The two ways a launch ends *)

(** Runs a stage that returns and keeps the channel silent. *)
Ltac run_stage Hret Hsilent x w' E :=
  let Hle := fresh "Hle" in
  let S := fresh "S" in
  match goal with
  | |- context [bind ?m _ ?w] =>
      destruct (Hret w) as (x & w' & E & Hle);
      [unfold pending_le in *; lia|];
      pose proof (Hsilent w) as S; rewrite E in S;
      unfold silent, kept in S; simpl in S;
      erewrite bind_Ret by exact E
  end.

(** A run whose retry loops have fuel for the kernel's schedule either
    replaces the image or jumps to the label, from one step of the
    function and with the descriptor in force there. *)
Lemma childProcess_cases fuel p w :
  (length (pending w) < fuel)%nat →
  (∃ w', childProcess fuel p w = Replaced w'
         ∧ wire (trace w') = wire (trace w) ++ ping p)
  ∨ (∃ fd w1 A,
       detected fuel p w fd w1
       ∧ childProcess fuel p w = WhyCantJohnnyExec fuel fd w1
       ∧ (length (pending w1) < fuel)%nat
       ∧ wire (trace w1) = wire (trace w) ++ A
       ∧ A `prefix_of` ping p
       ∧ (∀ wa, alive_ping fuel p w = Ret false wa → A = ping p)).
Proof.
  intros Hf. unfold childProcess.
  destruct (alive_ping_outcome fuel p w Hf)
    as (x1 & w1 & A & E1 & Hle1 & Hw1 & HA & HAfull).
  erewrite bind_Ret by exact E1.
  destruct x1.
  { right. exists (fail1 p), w1, A. split; [by constructor|].
    split; [done|]. split; [unfold pending_le in *; lia|].
    split; [done|]. split; [done|]. congruence. }
  specialize (HAfull eq_refl). subst A.
  run_stage (returning_close_parent_sides fuel p)
            (close_parent_sides_silent p) x2 w2 E2.
  destruct x2.
  { right. exists (fail1 p), w2, (ping p).
    split; [by eapply at_close_parent_sides|].
    split; [done|]. split; [unfold pending_le in *; lia|].
    split; [congruence|]. done. }
  run_stage (returning_move_child_sides fuel p)
            (move_child_sides_silent fuel p) x3 w3 E3.
  destruct x3.
  { right. exists (fail1 p), w3, (ping p).
    split; [by eapply at_move_child_sides|].
    split; [done|]. split; [unfold pending_le in *; lia|].
    split; [congruence|]. done. }
  run_stage (returning_close_everything fuel) close_everything_silent x4 w4 E4.
  destruct x4.
  { right. exists FAIL_FILENO, w4, (ping p).
    split; [by eapply at_close_everything|].
    split; [done|]. split; [unfold pending_le in *; lia|].
    split; [congruence|]. done. }
  run_stage (returning_change_directory fuel p)
            (change_directory_silent p) x5 w5 E5.
  destruct x5.
  { right. exists FAIL_FILENO, w5, (ping p).
    split; [by eapply at_change_directory|].
    split; [done|]. split; [unfold pending_le in *; lia|].
    split; [congruence|]. done. }
  run_stage (returning_reset_signal_mask fuel p)
            (reset_signal_mask_silent p) x6 w6 E6.
  destruct x6.
  pose proof (execish_JDK_execvpe (mode p) (argv_0 p) (argv p) (envv p) w6) as Hx.
  pose proof (JDK_execvpe_silent (mode p) (argv_0 p) (argv p) (envv p) w6) as Hs.
  pose proof (JDK_execvpe_pending_le (mode p) (argv_0 p) (argv p) (envv p) w6)
    as Hp.
  destruct (JDK_execvpe (mode p) (argv_0 p) (argv p) (envv p) w6)
    as [a w7|w7| |] eqn:E7; try done;
    unfold silent, kept, pending_le in *; simpl in *.
  - rewrite (bind_Ret _ _ _ _ _ E7).
    right. exists FAIL_FILENO, w7, (ping p).
    split; [by eapply at_exec|].
    split; [done|]. split; [lia|]. split; [congruence|]. done.
  - rewrite (bind_Replaced _ _ _ _ E7).
    left. exists w7. split; [done | congruence].
Qed.

(** The failure tail: one [writeFully] of the captured [errno], whose
    result is not looked at, then [close], then [_exit(-1)]. *)
Lemma WhyCantJohnnyExec_tail fuel fd w :
  (length (pending w) < fuel)%nat →
  ∃ n w2 w' E,
    writeFully fuel fd (int_bytes (errno w)) sizeof_int w = Ret n w2
    ∧ wire (trace w2) = wire (trace w) ++ E
    ∧ E `prefix_of` int_bytes (errno w)
    ∧ (n = sizeof_int ∧ E = int_bytes (errno w) ∨ n = -1)
    ∧ (is_Some (fdtab w !! fd) →
       Forall interrupts_or_progresses (pending w) → n = sizeof_int)
    ∧ WhyCantJohnnyExec fuel fd w = Exited (-1) w'
    ∧ trace w' = trace w2 ++ [EvClose fd; EvExit (-1)]
    ∧ fdtab w' !! fd = None.
Proof.
  intros Hf. unfold WhyCantJohnnyExec.
  unfold get_errno at 1. unfold bind at 1.
  assert (Hlen : 0 < sizeof_int ≤ Z.of_nat (length (int_bytes (errno w))))
    by (rewrite length_int_bytes; unfold sizeof_int; lia).
  destruct (writeFully_loop_writes_prefix fd sizeof_int fuel w
              (int_bytes (errno w)) sizeof_int Hlen Hf)
    as (n & w2 & k & E & Hle & Hk & Hwire & Hres).
  fold (writeFully fuel fd (int_bytes (errno w)) sizeof_int) in E.
  erewrite bind_Ret by exact E.
  assert (∃ c w3, close fd w2 = Ret c w3
                  ∧ trace w3 = trace w2 ++ [EvClose fd]
                  ∧ fdtab w3 !! fd = None) as (c & w3 & Ec & Htr & Hfd).
  { unfold close, kernel_says.
    destruct (pending w2); simpl; destruct (fdtab w2 !! fd) eqn:Hx;
      repeat case_match; eexists _, _; (split; [done|]); simpl;
      rewrite ?lookup_delete_eq; done. }
  erewrite bind_Ret by exact Ec. unfold _exit, bind.
  exists n, w2. eexists _, (take k (int_bytes (errno w))).
  split; [done|]. split; [done|]. split; [apply prefix_take|].
  split.
  { destruct Hres as [[-> ->]| ->]; [left | by right]. split; [done|].
    apply take_ge. rewrite length_int_bytes. unfold sizeof_int. lia. }
  split.
  { intros Hopen Hs.
    destruct (writeFully_loop_transfers fd sizeof_int fuel w
                (int_bytes (errno w)) sizeof_int Hopen Hs Hlen Hf)
      as (w2' & E' & _).
    unfold writeFully in E. congruence. }
  split; [done|]. simpl. rewrite Htr, <- app_assoc. done.
Qed.

(** The failure tail, run from the world a failure was detected in. *)
Lemma tail_reports fuel p w fd w1 A :
  detected fuel p w fd w1 →
  (length (pending w1) < fuel)%nat →
  wire (trace w1) = wire (trace w) ++ A →
  A `prefix_of` ping p →
  (∀ wa, alive_ping fuel p w = Ret false wa → A = ping p) →
  reports_failure fuel p w (WhyCantJohnnyExec fuel fd w1).
Proof.
  intros Hd Hf Hw HA Hfull.
  destruct (WhyCantJohnnyExec_tail fuel fd w1 Hf)
    as (n & w2 & w' & E & Ew & Hwire & HE & Hres & Hwhole & Eq & Htr & Hclosed).
  exists fd, w1, n, w2, w', A, E. by rewrite Eq.
Qed.

(** C1, as the code has it: a launch ends in exactly one of two ways.
    Either the process image is replaced: nothing but the alive ping
    (when asked for) was written, and the child's descriptors for the
    channel are closed in the new image.  Or a failure is detected at
    one of the steps and control goes to the failure tail with the
    descriptor in force at that step ([fail[1]] while the descriptors
    are prepared, FAIL_FILENO afterwards): the tail hands the captured
    [errno] to [writeFully] once, without looking at the result, then
    closes the channel and exits with -1.  What follows the ping on
    the channel is that one integer, whole, unless [writeFully] fails,
    and then it is a prefix of the integer; nothing comes after it.
    [writeFully] does not fail when the descriptor is open and the
    kernel takes the write; on a well-formed launch that the kernel
    does not disturb this is always so, and a failure comes only
    after the channel has been moved. *)
Theorem childProcess_launches_or_reports :
  (∀ fuel p w,
     (length (pending w) < fuel)%nat →
     (launches p w (childProcess fuel p w)
      ∨ reports_failure fuel p w (childProcess fuel p w))
     ∧ ¬ (launches p w (childProcess fuel p w)
          ∧ reports_failure fuel p w (childProcess fuel p w)))
  ∧ (∀ fuel p w,
       well_formed p w → pending w = [] → (0 < fuel)%nat →
       launches p w (childProcess fuel p w)
       ∨ ∃ w1 w',
           detected fuel p w FAIL_FILENO w1
           ∧ childProcess fuel p w = Exited (-1) w'
           ∧ wire (trace w') = wire (trace w) ++ ping p ++ int_bytes (errno w1))
  ∧ (∀ fuel fd w,
       is_Some (fdtab w !! fd) →
       Forall interrupts_or_progresses (pending w) →
       (length (pending w) < fuel)%nat →
       ∃ w', WhyCantJohnnyExec fuel fd w = Exited (-1) w'
             ∧ wire (trace w') = wire (trace w) ++ int_bytes (errno w)).
Proof.
  split; [|split; [|exact WhyCantJohnnyExec_reports]].
  - intros fuel p w Hf. split.
    2:{ intros [(w' & E & _) (fd & w1 & n & w2 & w'' & A & E' & H)].
        destruct H as (_ & _ & _ & _ & _ & _ & _ & _ & _ & _ & E2 & _).
        congruence. }
    destruct (childProcess_cases fuel p w Hf)
      as [(w' & E & Hw) | (fd & w1 & A & Hd & E & Hf1 & Hw & HA & Hfull)].
    + left. exists w'. split; [done|]. split; [done|].
      by apply (launched_channel_closed fuel).
    + right. rewrite E. by eapply tail_reports.
  - intros fuel p w Hwf Hp Hfuel.
    destruct (prelude_stages fuel p w Hwf Hp Hfuel)
      as (w1 & w2 & w3 & w4 & E1 & E2 & E3 & E4 & Hp4 & HF4 & Hw4 & _).
    assert (Hquiet : ∀ {A} (m : M A) wa a wb,
              preserves pending_le m → m wa = Ret a wb → pending wa = [] →
              pending wb = []).
    { intros A m wa a wb Hm E Hq. specialize (Hm wa). rewrite E in Hm.
      unfold pending_le in Hm. simpl in Hm. rewrite Hq in Hm.
      destruct (pending wb); [done | simpl in Hm; lia]. }
    assert (Hrep : ∀ w5, detected fuel p w FAIL_FILENO w5 →
              childProcess fuel p w = WhyCantJohnnyExec fuel FAIL_FILENO w5 →
              pending w5 = [] → fdtab w5 = fdtab w4 →
              wire (trace w5) = wire (trace w4) →
              ∃ w1 w',
                detected fuel p w FAIL_FILENO w1
                ∧ childProcess fuel p w = Exited (-1) w'
                ∧ wire (trace w') =
                    wire (trace w) ++ ping p ++ int_bytes (errno w1)).
    { intros w5 Hd E Hp5 Ht5 Hw5.
      destruct (WhyCantJohnnyExec_reports fuel FAIL_FILENO w5)
        as (w' & E' & Hw');
        [by rewrite Ht5 | rewrite Hp5; constructor | rewrite Hp5; simpl; lia |].
      exists w5, w'. split; [done|]. split; [congruence|].
      by rewrite Hw', Hw5, Hw4, <- app_assoc. }
    assert (Erun : childProcess fuel p w =
              (x <- change_directory p ;;
               if x : bool then WhyCantJohnnyExec fuel FAIL_FILENO else
               reset_signal_mask p ;;;
               JDK_execvpe (mode p) (argv_0 p) (argv p) (envv p) ;;;
               WhyCantJohnnyExec fuel FAIL_FILENO) w4).
    { unfold childProcess. cbv zeta.
      erewrite bind_Ret by exact E1. cbv iota.
      erewrite bind_Ret by exact E2. cbv iota.
      erewrite bind_Ret by exact E3. cbv iota.
      erewrite bind_Ret by exact E4. cbv iota. done. }
    destruct (returning_change_directory fuel p w4) as (x5 & w5 & E5 & _);
      [rewrite Hp4; simpl; lia|].
    assert (Hp5 : pending w5 = []).
    { apply (Hquiet _ (change_directory p) w4 x5); [frames | done | done]. }
    pose proof (change_directory_keeps_table p w4) as Ht5. rewrite E5 in Ht5.
    pose proof (change_directory_silent p w4) as Hw5. rewrite E5 in Hw5.
    unfold silent, kept in Ht5, Hw5. simpl in Ht5, Hw5.
    rewrite (bind_Ret _ _ _ _ _ E5) in Erun.
    destruct x5.
    { right. apply (Hrep w5); try done. by eapply at_change_directory. }
    pose proof (reset_signal_mask_spec p w5) as E6.
    set (w6 := if mode p =? MODE_VFORK then w5
               else set_sigmask [] (log (EvSigSetMask []) w5)) in *.
    assert (pending w6 = [] ∧ fdtab w6 = fdtab w4
            ∧ wire (trace w6) = wire (trace w4)) as (Hp6 & Ht6 & Hw6).
    { unfold w6. destruct (mode p =? MODE_VFORK); simpl;
        rewrite ?wire_app; simpl; rewrite ?app_nil_r; done. }
    clearbody w6.
    rewrite (bind_Ret _ _ _ _ _ E6) in Erun.
    pose proof (execish_JDK_execvpe (mode p) (argv_0 p) (argv p) (envv p) w6)
      as Hx.
    pose proof (JDK_execvpe_silent (mode p) (argv_0 p) (argv p) (envv p) w6)
      as Hs.
    pose proof (hands_over_JDK_execvpe (mode p) (argv_0 p) (argv p) (envv p) w6)
      as Hh.
    destruct (JDK_execvpe (mode p) (argv_0 p) (argv p) (envv p) w6)
      as [a w7|w7| |] eqn:E7; try done;
      unfold silent, kept in Hs; simpl in Hs.
    + rewrite (bind_Ret _ _ _ _ _ E7) in Erun.
      right. apply (Hrep w7); [by eapply at_exec | done | | congruence
                               | congruence].
      apply (Hquiet _ (JDK_execvpe (mode p) (argv_0 p) (argv p) (envv p)) w6 a);
        [apply JDK_execvpe_pending_le | done | done].
    + rewrite (bind_Replaced _ _ _ _ E7) in Erun.
      left. exists w7. split; [done|]. split; [congruence|].
      by apply (launched_channel_closed fuel).
Qed.

End Childproc.

(** * The program on sample launches

    The constants of childproc.h are instantiated with sample values:
    3 for MODE_VFORK (any other mode number stands for the copied
    address space), descriptor 3 for FAIL_FILENO and 65535 for
    CHILD_IS_ALIVE. *)

Lemma sample_well_formed md args ping w :
  fdtab w = sample_table → open_max w = 1024 →
  well_formed 3 (sample_stuff md args ping) w.
Proof.
  intros Ht Hm.
  assert (Hin : ∀ fd (P : Z → Prop),
    fd ∈ leftover_pipe_ends (sample_stuff md args ping) →
    P 4 → P 5 → P 7 → P (-1) → P 9 → P fd).
  { intros fd P H. simpl in H.
    repeat (apply elem_of_cons in H as [->|H]; [tauto|]).
    by apply elem_of_nil in H. }
  assert (Hout : ∀ fd, fd ∉ [4; 5; 7; -1; 9] →
    fd ∉ leftover_pipe_ends (sample_stuff md args ping)).
  { intros fd H Hfd. apply H. apply (Hin fd (fun x => x ∈ [4; 5; 7; -1; 9]) Hfd);
      repeat first [apply list_elem_of_here | apply list_elem_of_further]. }
  assert (Hno : ∀ fd, fd ≠ 4 → fd ≠ 5 → fd ≠ 7 → fd ≠ -1 → fd ≠ 9 →
    fd ∉ [4; 5; 7; -1; 9]).
  { intros fd ? ? ? ? ? H.
    repeat (apply elem_of_cons in H as [->|H]; [done|]).
    by apply elem_of_nil in H. }
  split; unfold stdin_source, stdout_source, stderr_source, third_source;
    simpl; rewrite ?Ht, ?Hm.
  - intros fd e He. rewrite Ht in He. rewrite Hm.
    revert fd e He.
    apply (bool_decide_unpack
             (map_Forall (fun fd _ => 0 ≤ fd < 1024) sample_table)).
    by vm_compute.
  - lia.
  - intros fd Hfd.
    apply (Hin fd (fun fd => fd = -1 ∨ 2 < fd ∧ is_Some (sample_table !! fd)));
      [by rewrite 1?Ht in Hfd | ..];
      try (by left); right; (split; [lia | by eexists]).
  - by apply (bool_decide_unpack (NoDup _)).
  - split; [right; lia|]. split; [by eexists|]. apply Hout, Hno; lia.
  - split; [right; lia|]. split; [by eexists|].
    split; [apply Hout, Hno; lia | lia].
  - split; [right; lia|]. split; [by eexists|].
    split; [apply Hout, Hno; lia | lia].
  - unfold stderr_source. simpl. split; [lia|]. split; [by eexists|].
    split; [apply Hout, Hno; lia | lia].
Qed.

(** C1, as stated, fails.  A launch goes through all its preparations:
    the ping is out, the child has closed its copies of the parent's
    ends (descriptor 9, the read end of the failure channel, among
    them) and moved the channel to descriptor 3; no directory of the
    path holds the program.  By then the parent is gone, so nobody
    holds the read end any more and the write of the report is refused
    with EPIPE: a failure was detected and the process exits with -1,
    yet no error code, not a byte of it, was written to the channel.
    The second launch has the channel at FAIL_FILENO from the start
    and the descriptor limit lowered to that number, without a
    descriptor directory: the scan marks nothing, the exec succeeds
    and the new image holds the channel open, so that no end of the
    channel follows. *)
Lemma childProcess_failure_without_report :
  (let p := sample_stuff 1 [Some "prog"; None; None]%string true in
   let w := sample_world ["/a"; "/b"]%string (sample_loader [] [] [])
              (replicate 13 KOk ++ [KFail EPIPE]) in
   ∃ w', childProcess 3 3 65535 5 p w = Exited (-1) w'
     ∧ wire (trace w') = int_bytes 65535
     ∧ trace w' =
         [EvWrite 10 (int_bytes 65535); EvClose 4; EvClose 5; EvClose 7;
          EvClose 9; EvDup2 3 0; EvClose 3; EvDup2 6 1; EvClose 6;
          EvDup2 8 2; EvClose 8; EvDup2 10 3; EvClose 10; EvChdir "/tmp";
          EvSigSetMask []; EvExec Execvp "/a/prog" ["prog"%string] 8888;
          EvExec Execvp "/b/prog" ["prog"%string] 8888;
          EvWrite 3 []; EvClose 3; EvExit (-1)])
  ∧ (let p := bare_stuff [Some "prog"; None; None]%string in
     let w := bare_world (sample_loader ["/a/prog"]%string [] []) in
     fail1 p = 3 ∧ fdtab w !! 3 = Some (plain 109) ∧ open_max w = 3
     ∧ ∃ w', childProcess 3 3 65535 5 p w = Replaced w'
         ∧ fdtab w' !! 3 = Some (plain 109)).
Proof.
  split.
  - eexists. split; [|split]; by vm_compute.
  - split; [done|]. split; [by vm_compute|]. split; [done|].
    eexists. split; by vm_compute.
Qed.

Lemma childProcess_launches_or_reports_witness :
  let p := sample_stuff 1 [Some "prog"; None; None]%string true in
  let w := sample_world ["/a"; "/b"]%string (sample_loader ["/b/prog"]%string [] [])
             [KFail EINTR] in
  let w0 := sample_world ["/a"; "/b"]%string (sample_loader [] ["/a/prog"]%string [])
              [] in
  (launches 3 65535 p w (childProcess 3 3 65535 5 p w)
   ∨ reports_failure 3 3 65535 5 p w (childProcess 3 3 65535 5 p w))
  ∧ (launches 3 65535 p w0 (childProcess 3 3 65535 5 p w0)
     ∨ ∃ w1 w',
         detected 3 3 65535 5 p w0 3 w1
         ∧ childProcess 3 3 65535 5 p w0 = Exited (-1) w'
         ∧ wire (trace w') =
             wire (trace w0) ++ ping 65535 p ++ int_bytes (errno w1)).
Proof.
  intros p w w0.
  destruct (childProcess_launches_or_reports 3 3 65535) as (H1 & H2 & _).
  split.
  - apply (H1 5%nat p w). simpl. lia.
  - apply (H2 5%nat p w0); [by apply sample_well_formed | reflexivity | lia].
Defined.

Lemma path_search_sticky_EACCES_witness :
  let argv := [Some "prog"; None; None]%string in
  let w := sample_world ["/a"; "/b"]%string
             (sample_loader [] ["/a/prog"]%string []) [] in
  ∃ w', JDK_execvpe 3 1 "prog" argv 8888 w = Ret argv w'
        ∧ errno w' = EACCES
        ∧ exec_attempts (trace w')
          = [(Execvp, "/a/prog"); (Execvp, "/b/prog")]%string.
Proof.
  intros argv w.
  destruct (path_search_sticky_EACCES 3) as (_ & _ & _ & H & _).
  apply (H 1 "prog"%string argv 8888 w).
  - done.
  - done.
  - done.
  - reflexivity.
  - intros dir Hin _. simpl in Hin. set_unfold in Hin.
    destruct Hin as [->|[->|[]]].
    + exists EACCES. split; [reflexivity | set_solver].
    + exists ENOENT. split; [reflexivity | set_solver].
  - exists "/a"%string. split; [set_solver|]. split; reflexivity.
Defined.



Lemma shell_fallback_reshapes_and_restores_witness :
  let argv := [Some "script"; Some "x"; None; None]%string in
  let w := sample_world [] (sample_loader [] ["/bin/sh"]%string ["/tmp/script"]%string)
             [] in
  ∃ argv' w',
    execve_with_shell_fallback 3 3 "/tmp/script" argv 8888 w = Ret argv' w'
    ∧ trace w' = trace w ++ [EvExec Execve "/tmp/script" ["script"; "x"]%string 8888;
                             EvExec Execve "/bin/sh"
                               ["/bin/sh"; "/tmp/script"; "x"]%string 8888]
    ∧ errno w' = EACCES
    ∧ cvector argv' = cvector argv
    ∧ take 3 argv' = take 3 argv
    ∧ length argv' = length argv.
Proof.
  intros argv w.
  apply (shell_fallback_reshapes_and_restores 3 "/tmp/script"%string argv 8888 w
           2%nat); [reflexivity | lia | simpl; lia | reflexivity].
Defined.

Lemma JDK_execvpe_searches_parent_path_in_order_witness :
  let argv := [Some "prog"; None; None]%string in
  let w := sample_world ["/a"; "/b"; "/c"]%string
             (sample_loader ["/c/prog"]%string [] []) [] in
  ∃ w', JDK_execvpe 3 1 "prog" argv 8888 w = Replaced w'
        ∧ exec_attempts (trace w')
          = [(Execvp, "/a/prog"); (Execvp, "/b/prog"); (Execvp, "/c/prog")]%string.
Proof.
  intros argv w.
  destruct (JDK_execvpe_searches_parent_path_in_order 3) as (_ & _ & H & _).
  apply (H 1 "prog"%string argv 8888 w ["/a"; "/b"]%string "/c"%string []).
  - done.
  - done.
  - done.
  - reflexivity.
  - reflexivity.
  - intros dir Hin _. set_unfold in Hin. destruct Hin as [->|[->|[]]];
      exists ENOENT; split; reflexivity.
  - reflexivity.
  - reflexivity.
Defined.

Lemma readFully_writeFully_transfer_exactly_witness :
  let sched := [KFail EINTR; KShort 1; KFail EINTR; KShort 2] in
  let w := set_inbox {[ 109 := [7; 8; 9] ]}
             (sample_world [] (sample_loader [] [] []) sched) in
  (∃ w', writeFully 9%nat 10 [1; 2; 3; 4] 4 w = Ret 4 w'
         ∧ wire_of 10 (trace w') = [1; 2; 3; 4])
  ∧ (∃ w', readFully 9%nat 9 [0; 0; 0; 0] 4 w = Ret (3, [7; 8; 9; 0]) w'
           ∧ default [] (inbox w' !! 109) = []).
Proof.
  intros sched w.
  destruct readFully_writeFully_transfer_exactly as (Hw & Hr & _).
  assert (Hs : Forall interrupts_or_progresses sched).
  { unfold sched, interrupts_or_progresses. repeat apply Forall_cons_2.
    - right. by left.
    - right. right. by exists 0%nat.
    - right. by left.
    - right. right. by exists 1%nat.
    - constructor. }
  split.
  - apply (Hw 9%nat 10 [1; 2; 3; 4] 4 w);
      [by eexists | exact Hs | simpl; lia | simpl; lia].
  - apply (Hr 9%nat 9 [0; 0; 0; 0] 4 w (plain 109));
      [reflexivity | exact Hs | simpl; lia | simpl; lia].
Defined.

(** C7, as stated, fails: the parent's end of the stdin pipe,
    descriptor 4, is already closed when the child gets to it;
    [closeSafely] fails with EBADF and [childProcess] ends in the
    failure tail, reporting EBADF. *)
Lemma childProcess_already_closed_leftover :
  let p := sample_stuff 1 [Some "prog"; None; None]%string false in
  let w := set_fdtab (delete 4 sample_table)
             (sample_world ["/a"]%string (sample_loader ["/a/prog"]%string [] []) []) in
  in1 p = 4 ∧ fdtab w !! 4 = None
  ∧ (∃ w', closeSafely 4 w = Ret (-1) w' ∧ errno w' = EBADF)
  ∧ (∃ w', childProcess 3 3 65535 5 p w = Exited (-1) w'
           ∧ wire (trace w') = int_bytes EBADF
           ∧ exec_attempts (trace w') = []).
Proof.
  split; [done|]. split; [by vm_compute|].
  split; eexists; repeat split; by vm_compute.
Qed.

Lemma closeSafely_only_absent_is_success_witness :
  let p := sample_stuff 1 [Some "prog"; None; None]%string true in
  let w := set_fdtab (delete 4 sample_table)
             (sample_world ["/a"]%string (sample_loader ["/a/prog"]%string [] []) []) in
  ∃ w1 w',
    childProcess 3 3 65535 5 p w = WhyCantJohnnyExec 5 (fail1 p) w1
    ∧ childProcess 3 3 65535 5 p w = Exited (-1) w'
    ∧ exec_attempts (trace w') = exec_attempts (trace w).
Proof.
  intros p w.
  destruct (closeSafely_only_absent_is_success 3 3 65535)
    as (_ & _ & _ & _ & _ & H).
  apply (H 5%nat p w 4); [simpl; lia | set_solver | lia | by vm_compute].
Defined.

Lemma moveDescriptor_self_is_noop_witness :
  let w := sample_world [] (sample_loader [] [] []) [] in
  moveDescriptor 1 10 3 w
  = Ret 0 (set_fdtab (delete 10 (<[3 := FdEnt 109 false]> sample_table))
                     (log (EvClose 10) (log (EvDup2 10 3) w))).
Proof.
  intros w.
  destruct moveDescriptor_self_is_noop as [_ H].
  apply (H 0%nat 10 3 w (plain 109)); [lia | reflexivity | simpl; lia | reflexivity].
Defined.

Lemma signal_mask_reset_unless_vfork_witness :
  let args := [Some "prog"; None; None]%string in
  let w := sample_world ["/a"]%string (sample_loader ["/a/prog"]%string [] []) [] in
  sigmask (final (childProcess 3 3 65535 5 (sample_stuff 3 args false) w)) = [2; 15]
  ∧ sigmask (final (childProcess 3 3 65535 5 (sample_stuff 1 args false) w)) = [].
Proof.
  intros args w.
  destruct (signal_mask_reset_unless_vfork 3 3 65535) as (_ & Hv & _ & Hf).
  split.
  - apply (Hv 5%nat (sample_stuff 3 args false) w). reflexivity.
  - apply (Hf 5%nat (sample_stuff 1 args false) w); [simpl; lia | by vm_compute].
Defined.

Lemma JDK_execvpe_empty_path_is_ENOENT_witness :
  let argv := [Some EmptyString; None; None]%string in
  let p := sample_stuff 1 argv true in
  let w := sample_world ["/a"]%string (sample_loader ["/a/prog"]%string [] []) [] in
  (JDK_execvpe 3 1 EmptyString argv 8888 w = Ret argv (set_errno ENOENT w)
   ∧ errno (set_errno ENOENT w) = ENOENT
   ∧ trace (set_errno ENOENT w) = trace w)
  ∧ (∃ w', childProcess 3 3 65535 5 p w = Exited (-1) w'
       ∧ wire (trace w') = wire (trace w) ++ ping 65535 p ++ int_bytes ENOENT
       ∧ exec_attempts (trace w') = exec_attempts (trace w)).
Proof.
  intros argv p w.
  destruct (JDK_execvpe_empty_path_is_ENOENT 3 3 65535) as (H1 & _ & H3).
  split.
  - apply (H1 1 argv 8888 w); [lia | simpl; lia].
  - apply (H3 5%nat p w [None; None]);
      [reflexivity | simpl; lia | simpl; lia | by apply sample_well_formed
      | reflexivity | lia | done].
Defined.

(** * More sample runs *)

Lemma initVectorFromBlock_round_trip_witness :
  let strs := ["ls"; "-l"]%string in
  let vector := [None; None; None; Some 7%nat] in
  ∃ v',
    initVectorFromBlock vector (block_of strs ++ []) 2 = Some v'
    ∧ v' = [Some 0%nat; Some 3%nat; None; Some 7%nat]
    ∧ cvector (vec_of (block_of strs ++ []) v') = strs.
Proof.
  intros strs vector.
  apply (initVectorFromBlock_round_trip strs vector []);
    [repeat constructor | simpl; lia].
Defined.

Lemma initVectorFromBlock_defined_iff_witness :
  is_Some (initVectorFromBlock [None; None] (block_of ["ls"]%string) 1).
Proof.
  apply (proj2 (initVectorFromBlock_defined_iff [None; None]
                  (block_of ["ls"]%string) 1)).
  split; [simpl; lia | vm_compute; lia].
Defined.

Lemma markCloseOnExec_marks_and_settles_witness :
  let w := sample_world [] (sample_loader [] [] []) [] in
  markCloseOnExec 10 w
  = Ret 0 (set_fdtab (<[10 := FdEnt 109 true]> sample_table) w).
Proof.
  intros w. destruct markCloseOnExec_marks_and_settles as (H & _ & _).
  apply (H 10 w (plain 109)). reflexivity.
Defined.

Lemma restartableDup2_retries_only_EINTR_witness :
  let w := sample_world [] (sample_loader [] [] []) [KFail EINTR; KFail EINTR] in
  ∃ w', restartableDup2 3 10 3 w = Ret 3 w'
    ∧ fdtab w' = <[3 := FdEnt 109 false]> sample_table
    ∧ trace w' = [EvDup2 10 3; EvDup2 10 3; EvDup2 10 3].
Proof.
  intros w. destruct restartableDup2_retries_only_EINTR as [H _].
  apply (H 2%nat 3%nat 10 3 w (plain 109));
    [reflexivity | lia | reflexivity | simpl; lia | lia].
Defined.

Lemma moveDescriptor_failures_witness :
  let w := sample_world [] (sample_loader [] [] []) [] in
  ∃ w' k, moveDescriptor 1 20 0 w = Ret (-1) w'
    ∧ fdtab w' = fdtab w
    ∧ trace w' = trace w ++ replicate k (EvDup2 20 0).
Proof.
  intros w. destruct moveDescriptor_failures as [H _].
  apply (H 1%nat 20 0 w); [lia | by vm_compute | simpl; lia].
Defined.

Lemma close_parent_sides_closes_exactly_witness :
  let p := sample_stuff 1 [Some "prog"; None; None]%string false in
  let w := sample_world [] (sample_loader [] [] []) [] in
  fdtab (final (close_parent_sides p w)) !! 15 = fdtab w !! 15
  ∧ fdtab (final (close_parent_sides p w)) !! 4 = None.
Proof.
  intros p w.
  destruct (close_parent_sides_closes_exactly p w false
              (final (close_parent_sides p w))) as [H1 H2]; [by vm_compute|].
  split.
  - apply H1. apply (bool_decide_unpack (15 ∉ leftover_pipe_ends p)).
    by vm_compute.
  - apply (H2 eq_refl 4); [|lia].
    apply (bool_decide_unpack (4 ∈ leftover_pipe_ends p)). by vm_compute.
Defined.

Lemma JDK_execvpe_inherited_environment_witness :
  let argv := [Some "prog"; None; None]%string in
  let w := sample_world ["/a"]%string (sample_loader ["/a/prog"]%string [] []) [] in
  JDK_execvpe 3 3 "prog" argv 0 w
  = Ret argv (set_errno ENOENT (log (EvExec Execvp "prog" ["prog"]%string 7777) w)).
Proof.
  intros argv w.
  apply (JDK_execvpe_inherited_environment 3 3 "prog"%string argv 0 w). by left.
Defined.

Lemma JDK_execvpe_path_with_separator_witness :
  let argv := [Some "/opt/prog"; None; None]%string in
  let w := sample_world ["/opt"]%string (sample_loader [] ["/opt/prog"]%string []) [] in
  JDK_execvpe 3 1 "/opt/prog" argv 8888 w
  = Ret argv (set_errno EACCES (attempted 3 1 "/opt/prog" argv 8888 w)).
Proof.
  intros argv w.
  destruct (JDK_execvpe_path_with_separator 3 1 "/opt/prog"%string argv 8888 w)
    as [H _]; [lia | simpl; lia | reflexivity |].
  apply H. left. by vm_compute.
Defined.

Lemma JDK_execvpe_search_exhausted_witness :
  let argv := [Some "prog"; None; None]%string in
  let w := set_errno EIO (sample_world [] (sample_loader ["/a/prog"]%string [] []) []) in
  JDK_execvpe 3 1 "prog" argv 8888 w = Ret argv w.
Proof.
  intros argv w. destruct (JDK_execvpe_search_exhausted 3) as [H _].
  apply (H 1 "prog"%string argv 8888 w); [lia | simpl; lia | done | reflexivity..].
Defined.

Lemma JDK_execvpe_keeps_argv_witness :
  let argv := [Some "script"; Some "x"; None; Some "spare"]%string in
  let w := sample_world [] (sample_loader [] ["/bin/sh"]%string ["/tmp/script"]%string)
             [] in
  ∃ argv' w',
    JDK_execvpe 3 3 "/tmp/script" argv 8888 w = Ret argv' w'
    ∧ argv' = [Some "script"; Some "x"; None; None]%string
    ∧ cvector argv' = cvector argv
    ∧ take 3 argv' = take 3 argv
    ∧ length argv' = length argv.
Proof.
  intros argv w. eexists _, _. split; [by vm_compute|]. split; [reflexivity|].
  apply (JDK_execvpe_keeps_argv 3 3 "/tmp/script"%string argv 8888 w
           _ (final (JDK_execvpe 3 3 "/tmp/script" argv 8888 w)));
    [simpl; lia | simpl; lia | by vm_compute].
Defined.

Lemma childProcess_vfork_keeps_environ_witness :
  let p := sample_stuff 3 [Some "prog"; None; None]%string true in
  let w := sample_world ["/a"]%string (sample_loader [] [] []) [] in
  environ (final (childProcess 3 3 65535 5 p w)) = 7777.
Proof.
  intros p w. apply (childProcess_vfork_keeps_environ 3 3 65535 5%nat p w).
  reflexivity.
Defined.

Lemma childProcess_execs_as_asked_witness :
  let p := sample_stuff 1 [Some "prog"; None; None]%string true in
  let w := sample_world ["/a"; "/b"]%string (sample_loader ["/b/prog"]%string [] []) [] in
  ∃ n, exec_kinds (trace (final (childProcess 3 3 65535 5 p w)))
       = replicate n (Execvp, 8888).
Proof.
  intros p w. apply (childProcess_execs_as_asked 3 3 65535 5%nat p w).
Defined.

Lemma childProcess_working_directory_witness :
  let p := sample_stuff 1 [Some "prog"; None; None]%string true in
  let w := sample_world ["/a"]%string (sample_loader ["/a/prog"]%string [] []) [] in
  cwd (final (childProcess 3 3 65535 5 p w)) = "/tmp"%string.
Proof.
  intros p w. destruct (childProcess_working_directory 3 3 65535) as (_ & H & _).
  apply (H 5%nat p w); [reflexivity | by vm_compute].
Defined.

Lemma move_child_sides_rewires_witness :
  let p := sample_stuff 1 [Some "prog"; None; None]%string true in
  let w := sample_world [] (sample_loader [] [] []) [KFail EINTR] in
  let w3 := final (move_child_sides 3 5 p w) in
  fdtab w3 !! 0 = Some (plain 103)
  ∧ fdtab w3 !! 1 = Some (plain 105)
  ∧ fdtab w3 !! 2 = Some (plain 107)
  ∧ fdtab w3 !! 3 = Some (plain 109).
Proof.
  intros p w w3.
  apply (move_child_sides_rewires 3 5%nat p w w3
           (plain 103) (plain 105) (plain 107) (plain 109));
    try (by vm_compute); try (simpl; lia).
  - right. by vm_compute.
  - right. by vm_compute.
  - vm_compute. split; [by right|]. split; done.
Defined.

Lemma launched_program_descriptors_witness :
  let p := sample_stuff 1 [Some "prog"; None; None]%string true in
  let w := sample_world ["/a"; "/b"]%string (sample_loader ["/b/prog"]%string [] [])
             [KFail EINTR] in
  let w' := final (childProcess 3 3 65535 5 p w) in
  fdtab w' !! 0 = Some (plain 103)
  ∧ fdtab w' !! 1 = Some (plain 105)
  ∧ fdtab w' !! 2 = Some (plain 107)
  ∧ (∀ fd, 2 < fd → fdtab w' !! fd = None).
Proof.
  intros p w w'.
  destruct (sample_well_formed 1 [Some "prog"; None; None]%string true w
              eq_refl eq_refl) as [Hok _ Hends _ (_ & _ & Ha) (_ & _ & Hb & _) Hc _].
  apply (launched_program_descriptors 3 3 65535 5%nat p w w'
           (plain 103) (plain 105) (plain 107));
    try (by vm_compute); try (simpl; lia); try done.
  - intros fd Hfd. destruct (Hends fd Hfd) as [?|[? _]]; auto.
  - right. by vm_compute.
  - right. by vm_compute.
  - simpl in Hc. destruct Hc as (_ & _ & Hc & _).
    split; [right; by vm_compute|]. split; [exact Hc | by vm_compute].
Defined.

Lemma launch_reports_chdir_error_witness :
  let p := sample_stuff 1 [Some "prog"; None; None]%string true in
  let w := locked_world (sample_loader ["/a/prog"]%string [] []) EACCES in
  ∃ w', childProcess 3 3 65535 5 p w = Exited (-1) w'
    ∧ wire (trace w') = int_bytes 65535 ++ int_bytes EACCES
    ∧ exec_attempts (trace w') = [].
Proof.
  intros p w.
  apply (launch_reports_chdir_error 3 3 65535 5%nat p w "/tmp"%string EACCES);
    [by apply sample_well_formed | reflexivity | lia | reflexivity | reflexivity].
Defined.

Lemma launch_fate_is_the_loaders_verdict_witness :
  let p := sample_stuff 1 [Some "/opt/prog"; None; None]%string true in
  let w := sample_world [] (sample_loader ["/opt/prog"]%string [] []) [] in
  ∃ w', childProcess 3 3 65535 5 p w = Replaced w'
    ∧ wire (trace w') = int_bytes 65535
    ∧ exec_attempts (trace w') = [(Execvp, "/opt/prog"%string)].
Proof.
  intros p w.
  apply (launch_fate_is_the_loaders_verdict 3 3 65535 5%nat p w);
    [by apply sample_well_formed | reflexivity | lia | done
    | simpl; lia | simpl; lia | reflexivity].
Defined.

Lemma writeFully_returns_nbyte_or_fails_witness :
  let w := sample_world [] (sample_loader [] [] []) [KShort 1; KFail EPIPE] in
  ∃ r w' k,
    writeFully 3 10 [1; 2; 3; 4] 4 w = Ret r w'
    ∧ wire (trace w') = wire (trace w) ++ take k [1; 2; 3; 4]
    ∧ (r = 4 ∧ k = Z.to_nat 4 ∨ r = -1 ∧ (k < Z.to_nat 4)%nat).
Proof.
  intros w.
  apply (writeFully_returns_nbyte_or_fails 3%nat 10 [1; 2; 3; 4] 4 w);
    [simpl; lia | simpl; lia].
Defined.

Lemma zero_length_transfers_witness :
  let w := sample_world [] (sample_loader [] [] []) [] in
  writeFully 1 10 [1; 2] 0 w = Ret (-1) (log (EvWrite 10 []) w).
Proof.
  intros w. destruct zero_length_transfers as [H _].
  apply (H 0%nat 10 [1; 2] w); [by eexists | reflexivity].
Defined.

Lemma alive_ping_comes_first_witness :
  let p := sample_stuff 1 [Some "prog"; None; None]%string true in
  let w := sample_world ["/a"]%string (sample_loader ["/a/prog"]%string [] []) [] in
  ∃ data rest,
    trace (final (childProcess 3 3 65535 5 p w)) = EvWrite 10 data :: rest.
Proof.
  intros p w.
  apply (alive_ping_comes_first 3 3 65535 5%nat p w); [reflexivity | lia].
Defined.

Lemma readFully_loses_no_byte_witness :
  let w := set_inbox {[ 109 := [7; 8; 9] ]}
             (sample_world [] (sample_loader [] [] []) [KShort 2; KFail EIO]) in
  ∃ r buf' w' got,
    readFully 4 9 [0; 0; 0; 0] 4 w = Ret (r, buf') w'
    ∧ [7; 8; 9] = got ++ default [] (inbox w' !! 109)
    ∧ buf' = got ++ drop (length got) [0; 0; 0; 0]
    ∧ (length got ≤ 4)%nat
    ∧ (r = -1 ∨ r = Z.of_nat (length got)).
Proof.
  intros w.
  apply (readFully_loses_no_byte 4%nat 9 [0; 0; 0; 0] 4 w (plain 109));
    [reflexivity | simpl; lia | simpl; lia].
Defined.
